(** * The Kinetic Engine (services/KineticEngine.ts), embedded and verified

    A shallow embedding of the audio-reactive choreography core: the
    [BPMDetector], the [TransientDetector], the [AudioLookaheadBuffer], the
    static [KINETIC_GRAPH] and the [KineticEngine] state machine.

    Conventions of the embedding.
    - Inside the engine a JavaScript [number] that carries a level, an
      energy, a tempo or a progress is a rational [Q]: comparisons are the
      source's comparisons, arithmetic is exact, and the arguments of the
      calls are finite numbers.  Millisecond clocks ([Date.now()], node dwell
      times) and the bar and phrase counters are integers [Z].
    - Where the answer of the source depends on rounding, on NaN or on a
      division by zero (the gates of the transient detector, the clamp of
      [setBPM]), the source is embedded over binary64 in the module [Double],
      and the theorems about it are stated there.
    - [Date.now()] and [Math.random()] are explicit arguments ([now], [rnd])
      of the operation that reads them; every operation reads each at most
      once.
    - Mutation of [this] is explicit state passing: an operation takes the
      engine and returns the engine after the call.
    - [undefined] and [null] are [None]. *)

From Stdlib Require Import Floats.
From Stdlib Require Import String Ascii DecimalString.
From Stdlib Require Import ZArith QArith Qround List Bool Lia Lqa.
From Stdlib Require Import Permutation Sorted Morphisms.
Import ListNotations.

Open Scope Q_scope.

Set Warnings "-inexact-float".

(** ** JavaScript primitives used by the engine *)

Module JS.

(** [a > b], [a < b], [a >= b] on numbers. *)
Definition gt (a b : Q) : bool := negb (Qle_bool a b).
Definition lt (a b : Q) : bool := negb (Qle_bool b a).
Definition ge (a b : Q) : bool := Qle_bool b a.

Definition Math_max (a b : Q) : Q := if Qle_bool a b then b else a.
Definition Math_min (a b : Q) : Q := if Qle_bool a b then a else b.
Definition Math_floor (x : Q) : Z := Qfloor x.
Definition Math_ceil (x : Q) : Z := Qceiling x.

(** [Math.round]: the nearest integer, halves going up. *)
Definition Math_round (x : Q) : Z := Qfloor (x + 0.5).

(** [a % b] on numbers: the remainder has the sign of the dividend. *)
Definition rem (a b : Q) : Q :=
  let q := a / b in
  a - b * inject_Z (Z.quot (Qnum q) (QDen q)).

(** [arr[i]]: [undefined] outside the array. *)
Definition index {A : Type} (arr : list A) (i : Z) : option A :=
  if (i <? 0)%Z then None else nth_error arr (Z.to_nat i).

(** [a || b] on object-or-undefined operands (an object is truthy). *)
Definition or {A : Type} (a b : option A) : option A :=
  match a with
  | Some x => Some x
  | None => b
  end.

(** [arr.push(x)] then, when the array is longer than [cap], [arr.shift()]. *)
Definition shift {A : Type} (arr : list A) : list A := tl arr.

Definition push_bounded {A : Type} (cap : nat) (arr : list A) (x : A) : list A :=
  let arr' := arr ++ [x] in
  if (cap <? length arr')%nat then shift arr' else arr'.

(** [arr.slice(-n)]: the last [n] elements. *)
Definition slice_last {A : Type} (n : nat) (arr : list A) : list A :=
  skipn (length arr - n) arr.

(** [arr.slice(0, -1)]: all but the last element. *)
Definition slice_init {A : Type} (arr : list A) : list A := removelast arr.

(** [arr.reduce((a, b) => a + b, 0)]. *)
Definition sum (arr : list Q) : Q := fold_left Qplus arr 0.

(** [s.includes(sub)]. *)
Fixpoint includes (sub s : string) : bool :=
  if String.prefix sub s then true
  else match s with
       | EmptyString => false
       | String _ rest => includes sub rest
       end.

End JS.

(** ** Types of the data model *)

Inductive EnergyLevel := E_low | E_mid | E_high.
Inductive MoveDirection := D_left | D_right | D_center.
Inductive FrameType := T_body | T_closeup | T_hands | T_feet.
Inductive FrameRole := R_base | R_alt | R_flourish | R_details.
Inductive SequenceMode := GROOVE | EMOTE | IMPACT | FOOTWORK.
Inductive MechanicalFX := FX_none | FX_zoom | FX_mirror | FX_stutter | FX_mandala.
Inductive TransitionStyle := CUT | SLIDE | MORPH | SMOOTH | ZOOM_IN.

Inductive KineticNodeId :=
| idle | groove_left | groove_right | groove_center | crouch | jump | spin
| vogue_left | vogue_right | closeup | hands | feet | impact | mandala.

Definition KineticNodeId_eq_dec (a b : KineticNodeId) : {a = b} + {a <> b}.
Proof. decide equality. Defined.

(** [arr.includes(id)] on node ids. *)
Definition includes_node (arr : list KineticNodeId) (id : KineticNodeId) : bool :=
  if in_dec KineticNodeId_eq_dec id arr then true else false.

Module Frame.

(** Modelled from the spec: the declaration of [GeneratedFrame] lives in
    [../types], which is not among the sources.  The record has the fields
    the engine and the tests read: an image handle, a pose id, the
    classification tags (each optional, as the engine tests them for
    presence) and the virtual-derivation metadata. *)
Record t := mk {
  url : string;
  pose : option string;
  energy : option EnergyLevel;
  direction : option MoveDirection;
  type : option FrameType;
  role : option FrameRole;
  isVirtual : bool;
  virtualZoom : option Q;
  virtualOffsetY : option Q
}.

End Frame.

Abbreviation GeneratedFrame := Frame.t.

Module FramePool.

Record ByEnergy := mkE {
  low : list GeneratedFrame;
  mid : list GeneratedFrame;
  high : list GeneratedFrame
}.

Record ByDirection := mkD {
  left : list GeneratedFrame;
  right : list GeneratedFrame;
  center : list GeneratedFrame
}.

Record t := mk {
  byEnergy : ByEnergy;
  closeups : list GeneratedFrame;
  hands : list GeneratedFrame;
  feet : list GeneratedFrame;
  mandalas : list GeneratedFrame;
  virtuals : list GeneratedFrame;
  acrobatics : list GeneratedFrame;
  byDirection : ByDirection
}.

Definition empty : t :=
  mk (mkE [] [] []) [] [] [] [] [] [] (mkD [] [] []).

End FramePool.

Abbreviation KineticFramePool := FramePool.t.

Module Sample.

Record t := mk {
  bass : Q;
  mid : Q;
  high : Q;
  energy : Q;
  timestamp : Z
}.

End Sample.

Abbreviation AudioSample := Sample.t.

Record KineticNode := {
  id : KineticNodeId;
  possibleTransitions : list KineticNodeId;
  energyRequirement : Q;
  exitThreshold : Q;
  mechanicalFx : MechanicalFX;
  preferredTransition : TransitionStyle;
  minDuration : Z;
  frameSelector : Q -> KineticFramePool -> option GeneratedFrame
}.

Record KineticState := {
  currentNode : KineticNodeId;
  currentFrame : option GeneratedFrame;
  transitionProgress : Q;
  transitionStyle : TransitionStyle;
  sourceFrame : option GeneratedFrame;
  beatPos : Q;
  barCounter : Z;
  phraseCounter : Z;
  lastTransitionTime : Z;
  isLocked : bool;
  lockReleaseTime : Z;
  sequenceMode : SequenceMode
}.

(** ** The kinetic graph *)

(** [arr[Math.floor(Math.random() * arr.length)]], with [rnd] the value
    [Math.random()] returns. *)
Definition pick (rnd : Q) (arr : list GeneratedFrame) : option GeneratedFrame :=
  JS.index arr (JS.Math_floor (rnd * inject_Z (Z.of_nat (length arr)))).

(** [arr[0]]. *)
Definition first (arr : list GeneratedFrame) : option GeneratedFrame :=
  JS.index arr 0.


Definition KINETIC_GRAPH (n : KineticNodeId) : KineticNode :=
  match n with
  | idle =>
      {| id := idle;
         possibleTransitions := [groove_left; groove_right; groove_center; crouch];
         energyRequirement := 0; exitThreshold := 0;
         mechanicalFx := FX_none; preferredTransition := SMOOTH; minDuration := 0;
         frameSelector := fun _ pool =>
           JS.or (first (FramePool.low (FramePool.byEnergy pool)))
                 (JS.or (first (FramePool.mid (FramePool.byEnergy pool))) None) |}
  | groove_left =>
      {| id := groove_left;
         possibleTransitions := [idle; groove_center; vogue_left; crouch];
         energyRequirement := 0.3; exitThreshold := 0.2;
         mechanicalFx := FX_none; preferredTransition := CUT; minDuration := 100;
         frameSelector := fun rnd pool =>
           JS.or (pick rnd (FramePool.left (FramePool.byDirection pool)))
                 (first (FramePool.mid (FramePool.byEnergy pool))) |}
  | groove_right =>
      {| id := groove_right;
         possibleTransitions := [idle; groove_center; vogue_right; crouch];
         energyRequirement := 0.3; exitThreshold := 0.2;
         mechanicalFx := FX_mirror; preferredTransition := CUT; minDuration := 100;
         frameSelector := fun rnd pool =>
           JS.or (pick rnd (FramePool.right (FramePool.byDirection pool)))
                 (first (FramePool.mid (FramePool.byEnergy pool))) |}
  | groove_center =>
      {| id := groove_center;
         possibleTransitions := [groove_left; groove_right; jump; spin; closeup];
         energyRequirement := 0.4; exitThreshold := 0.3;
         mechanicalFx := FX_none; preferredTransition := CUT; minDuration := 150;
         frameSelector := fun rnd pool =>
           JS.or (pick rnd (FramePool.center (FramePool.byDirection pool)))
                 (first (FramePool.mid (FramePool.byEnergy pool))) |}
  | crouch =>
      {| id := crouch;
         possibleTransitions := [idle; jump; feet];
         energyRequirement := 0.5; exitThreshold := 0.3;
         mechanicalFx := FX_none; preferredTransition := SMOOTH; minDuration := 200;
         frameSelector := fun rnd pool => pick rnd (FramePool.low (FramePool.byEnergy pool)) |}
  | jump =>
      {| id := jump;
         possibleTransitions := [crouch; groove_center; impact];
         energyRequirement := 0.7; exitThreshold := 0.5;
         mechanicalFx := FX_zoom; preferredTransition := CUT; minDuration := 100;
         frameSelector := fun rnd pool =>
           JS.or (pick rnd (FramePool.acrobatics pool))
                 (first (FramePool.high (FramePool.byEnergy pool))) |}
  | spin =>
      {| id := spin;
         possibleTransitions := [groove_center; jump; vogue_left; vogue_right];
         energyRequirement := 0.6; exitThreshold := 0.4;
         mechanicalFx := FX_none; preferredTransition := MORPH; minDuration := 300;
         frameSelector := fun rnd pool =>
           JS.or (pick rnd (FramePool.acrobatics pool))
                 (first (FramePool.high (FramePool.byEnergy pool))) |}
  | vogue_left =>
      {| id := vogue_left;
         possibleTransitions := [vogue_right; groove_left; hands; mandala];
         energyRequirement := 0.5; exitThreshold := 0.3;
         mechanicalFx := FX_none; preferredTransition := CUT; minDuration := 150;
         frameSelector := fun rnd pool =>
           JS.or (pick rnd (FramePool.hands pool))
                 (first (FramePool.left (FramePool.byDirection pool))) |}
  | vogue_right =>
      {| id := vogue_right;
         possibleTransitions := [vogue_left; groove_right; hands; mandala];
         energyRequirement := 0.5; exitThreshold := 0.3;
         mechanicalFx := FX_mirror; preferredTransition := CUT; minDuration := 150;
         frameSelector := fun rnd pool =>
           JS.or (pick rnd (FramePool.hands pool))
                 (first (FramePool.right (FramePool.byDirection pool))) |}
  | closeup =>
      {| id := closeup;
         possibleTransitions := [groove_center; idle];
         energyRequirement := 0.6; exitThreshold := 0.4;
         mechanicalFx := FX_zoom; preferredTransition := ZOOM_IN; minDuration := 500;
         frameSelector := fun rnd pool =>
           JS.or (pick rnd (FramePool.closeups pool)) (first (FramePool.virtuals pool)) |}
  | hands =>
      {| id := hands;
         possibleTransitions := [vogue_left; vogue_right; mandala; groove_center];
         energyRequirement := 0.5; exitThreshold := 0.3;
         mechanicalFx := FX_none; preferredTransition := CUT; minDuration := 200;
         frameSelector := fun rnd pool => pick rnd (FramePool.hands pool) |}
  | feet =>
      {| id := feet;
         possibleTransitions := [crouch; groove_left; groove_right];
         energyRequirement := 0.4; exitThreshold := 0.2;
         mechanicalFx := FX_none; preferredTransition := CUT; minDuration := 200;
         frameSelector := fun rnd pool => pick rnd (FramePool.feet pool) |}
  | impact =>
      {| id := impact;
         possibleTransitions := [groove_center; crouch; mandala];
         energyRequirement := 0.8; exitThreshold := 0.6;
         mechanicalFx := FX_zoom; preferredTransition := CUT; minDuration := 100;
         frameSelector := fun rnd pool =>
           JS.or (pick rnd (FramePool.virtuals pool))
                 (first (FramePool.high (FramePool.byEnergy pool))) |}
  | mandala =>
      {| id := mandala;
         possibleTransitions := [hands; groove_center; impact];
         energyRequirement := 0.7; exitThreshold := 0.5;
         mechanicalFx := FX_mandala; preferredTransition := CUT; minDuration := 300;
         frameSelector := fun rnd pool =>
           JS.or (pick rnd (FramePool.mandalas pool)) (first (FramePool.hands pool)) |}
  end.

(** ** [Math.sqrt]

    The square root is not a rational function; the detector is embedded
    over an arbitrary [Math_sqrt], and the concrete runs below use
    [sqrt_milli], a rational root correct to three decimals. *)

Definition sqrt_milli (x : Q) : Q :=
  inject_Z (Z.sqrt (Qfloor (x * 1000000))) / 1000.

(** ** BPM detector *)

Module BPMDetector.

Record t := mk {
  beatTimes : list Z;
  lastBeatTime : Z;
  threshold : Q;
  adaptiveThreshold : Q;
  energyHistory : list Q
}.

Definition maxBeats : nat := 32.
Definition minInterval : Z := 250.
Definition maxInterval : Z := 1500.

(** [new BPMDetector()]. *)
Definition init : t := mk [] 0 0.6 0.6 [].

(** [Math.max(...arr)] on a non-empty array. *)
Definition max_of (arr : list Q) : Q :=
  match arr with
  | [] => 0
  | x :: rest => fold_left JS.Math_max rest x
  end.

Definition detectBeat (bass : Q) (timestamp : Z) (d : t) : t * bool :=
  let energyHistory' := JS.push_bounded 60 (energyHistory d) bass in
  let adaptiveThreshold' :=
    if (10 <? length energyHistory')%nat then
      let avg := JS.sum energyHistory' / inject_Z (Z.of_nat (length energyHistory')) in
      let max := max_of energyHistory' in
      avg + (max - avg) * 0.5
    else adaptiveThreshold d in
  let interval := (timestamp - lastBeatTime d)%Z in
  if JS.gt bass adaptiveThreshold' && (minInterval <? interval)%Z then
    (mk (JS.push_bounded maxBeats (beatTimes d) timestamp) timestamp
        (threshold d) adaptiveThreshold' energyHistory', true)
  else
    (mk (beatTimes d) (lastBeatTime d) (threshold d) adaptiveThreshold' energyHistory',
     false).

(** The loop over [i = 1 .. length - 1]: the differences of neighbouring
    beat times that lie within [[minInterval, maxInterval]], in order. *)
Fixpoint collect_intervals (prev : Z) (rest : list Z) : list Z :=
  match rest with
  | [] => []
  | cur :: rest' =>
      let interval := (cur - prev)%Z in
      if (minInterval <=? interval)%Z && (interval <=? maxInterval)%Z
      then interval :: collect_intervals cur rest'
      else collect_intervals cur rest'
  end.

Definition intervals_of (times : list Z) : list Z :=
  match times with
  | [] => []
  | t0 :: rest => collect_intervals t0 rest
  end.

(** [intervals.sort((a, b) => a - b)]: ascending numeric order. *)
Fixpoint insert_asc (x : Z) (l : list Z) : list Z :=
  match l with
  | [] => [x]
  | y :: l' => if (x <=? y)%Z then x :: l else y :: insert_asc x l'
  end.

Fixpoint sort_asc (l : list Z) : list Z :=
  match l with
  | [] => []
  | x :: l' => insert_asc x (sort_asc l')
  end.

Definition Zsum (l : list Z) : Z := fold_left Z.add l 0%Z.

Section WithSqrt.

Variable Math_sqrt : Q -> Q.

(** Returns [(bpm, confidence)]. *)
Definition calculateBPM (d : t) : Q * Q :=
  if (length (beatTimes d) <? 4)%nat then (120, 0)
  else
    let intervals := intervals_of (beatTimes d) in
    if (length intervals <? 3)%nat then (120, 0)
    else
      let intervals := sort_asc intervals in
      let medianInterval := nth (Nat.div (length intervals) 2) intervals 0%Z in
      let bpm := inject_Z (JS.Math_round (60000 / inject_Z medianInterval)) in
      let n := inject_Z (Z.of_nat (length intervals)) in
      let mean := inject_Z (Zsum intervals) / n in
      let variance :=
        fold_left (fun sum val => sum + (inject_Z val - mean) ^ 2) intervals 0 / n in
      let stdDev := Math_sqrt variance in
      let cv := stdDev / mean in
      let confidence := JS.Math_max 0 (JS.Math_min 1 (1 - cv * 2)) in
      (JS.Math_max 60 (JS.Math_min 200 bpm), confidence).

End WithSqrt.

Definition reset (d : t) : t := mk [] 0 (threshold d) 0.6 [].

End BPMDetector.

(** ** Transient detector

    The detector as the engine threads it, over the rationals of the engine
    model.  Its answers at the thresholds are those of exact arithmetic; the
    detector over binary64, on which its gates are verified, is
    [Double.TransientDetector] below. *)

Module TransientDetector.

Record t := mk {
  history : list Q;
  lastValue : Q
}.

Definition windowSize : nat := 8.
Definition sensitivity : Q := 2.0.

(** [new TransientDetector()]. *)
Definition init : t := mk [] 0.

Definition detect (value : Q) (d : t) : t * bool :=
  let history' := JS.push_bounded windowSize (history d) value in
  if (length history' <? windowSize)%nat then
    (mk history' value, false)
  else
    let prevAvg :=
      JS.sum (JS.slice_init history') / inject_Z (Z.of_nat (windowSize - 1)) in
    let ratio := value / (prevAvg + 0.01) in
    let instantDelta := value - lastValue d in
    (mk history' value,
     JS.gt ratio sensitivity && JS.gt value 0.3 && JS.gt instantDelta 0.15).

Definition reset (d : t) : t := mk [] 0.

End TransientDetector.

(** ** Numbers as the host has them: binary64

    A JavaScript number is an IEEE 754 binary64 value.  The parts of the
    program whose answer depends on rounding, on NaN or on a division by
    zero are embedded here over the kernel's binary64 floats. *)

Module Double.

(** [a > b] and [a < b]: false when either side is NaN. *)
Definition gt (a b : float) : bool := PrimFloat.ltb b a.
Definition lt (a b : float) : bool := PrimFloat.ltb a b.

(** [Math.max(a, b)] and [Math.min(a, b)]: NaN when either argument is NaN;
    [+0] counts as larger than [-0]. *)
Definition Math_max (a b : float) : float :=
  if PrimFloat.is_nan a || PrimFloat.is_nan b then PrimFloat.nan
  else if PrimFloat.ltb a b then b
  else if PrimFloat.ltb b a then a
  else if PrimFloat.get_sign a then b else a.

Definition Math_min (a b : float) : float :=
  if PrimFloat.is_nan a || PrimFloat.is_nan b then PrimFloat.nan
  else if PrimFloat.ltb a b then a
  else if PrimFloat.ltb b a then b
  else if PrimFloat.get_sign a then a else b.

(** [arr.reduce((a, b) => a + b, 0)]. *)
Definition sum (arr : list float) : float := fold_left PrimFloat.add arr 0%float.

(** [setBPM(bpm)]: the two fields it writes, [this.bpm] and
    [this.beatDuration]. *)
Definition setBPM (bpm : float) : float * float :=
  let bpm' := Math_max 60 (Math_min 200 bpm) in
  (bpm', (60000 / bpm')%float).

Module TransientDetector.

Record t := mk {
  history : list float;
  lastValue : float
}.

Definition windowSize : nat := 8.
Definition sensitivity : float := 2.0%float.

(** [new TransientDetector()]. *)
Definition init : t := mk [] 0%float.

Definition detect (value : float) (d : t) : t * bool :=
  let history' := JS.push_bounded windowSize (history d) value in
  if (length history' <? windowSize)%nat then
    (mk history' value, false)
  else
    (* [this.windowSize - 1] is 7 *)
    let prevAvg := (sum (JS.slice_init history') / 7)%float in
    let ratio := (value / (prevAvg + 0.01))%float in
    let instantDelta := (value - lastValue d)%float in
    (mk history' value,
     gt ratio sensitivity && gt value 0.3%float && gt instantDelta 0.15%float).

Definition reset (d : t) : t := mk [] 0%float.

End TransientDetector.

End Double.

(** ** Lookahead buffer *)

Module AudioLookaheadBuffer.

Record t := mk {
  buffer : list AudioSample;
  bufferSize : nat;
  lookaheadMs : Q;
  peakHistory : list Q
}.

(** [new AudioLookaheadBuffer(lookaheadMs, sampleRate)]. *)
Definition create (lookaheadMs sampleRate : Q) : t :=
  mk [] (Z.to_nat (JS.Math_ceil ((lookaheadMs / 1000) * sampleRate))) lookaheadMs [].

Definition push (sample : AudioSample) (b : t) : t :=
  mk (JS.push_bounded (bufferSize b) (buffer b) sample)
     (bufferSize b) (lookaheadMs b)
     (JS.push_bounded 120 (peakHistory b) (Sample.energy sample)).

(** The weighted sums of the loop in [predictEnergy], sample [i] (from 0)
    of [len] weighing [(i + 1) / len]. *)
Fixpoint weighted (len : Q) (i : Z) (recent : list AudioSample)
         (acc : Q * Q * Q * Q) : Q * Q * Q * Q :=
  match recent with
  | [] => acc
  | s :: rest =>
      let '(bassSum, midSum, highSum, weightSum) := acc in
      let weight := (inject_Z i + 1) / len in
      weighted len (i + 1)%Z rest
        (bassSum + Sample.bass s * weight, midSum + Sample.mid s * weight,
         highSum + Sample.high s * weight, weightSum + weight)
  end.

(** Returns [(bass, mid, high, energy)]. *)
Definition predictEnergy (ms : Q) (b : t) : Q * Q * Q * Q :=
  if (length (buffer b) <? 2)%nat then (0, 0, 0, 0)
  else
    let recentCount := Nat.min (length (buffer b)) 10 in
    let recent := JS.slice_last recentCount (buffer b) in
    let '(bassSum, midSum, highSum, weightSum) :=
      weighted (inject_Z (Z.of_nat (length recent))) 0 recent (0, 0, 0, 0) in
    let bass := bassSum / weightSum in
    let mid := midSum / weightSum in
    let high := highSum / weightSum in
    (bass, mid, high, bass * 0.5 + mid * 0.3 + high * 0.2).

Definition detectPeak (b : t) : bool :=
  if (length (buffer b) <? 3)%nat then false
  else
    let n := length (buffer b) in
    match nth_error (buffer b) (n - 3), nth_error (buffer b) (n - 2),
          nth_error (buffer b) (n - 1) with
    | Some p, Some c, Some x =>
        let prev := Sample.energy p in
        let curr := Sample.energy c in
        let next := Sample.energy x in
        JS.gt curr prev && JS.gt curr next && JS.gt curr 0.4
    | _, _, _ => false
    end.

(** [detectUpcomingBeat(threshold)]. *)
Definition detectUpcomingBeat (threshold : Q) (b : t) : bool :=
  if (length (buffer b) <? 5)%nat then false
  else
    let recent := JS.slice_last 5 (buffer b) in
    match nth_error recent 4, nth_error recent 0 with
    | Some newest, Some oldest =>
        let trend := Sample.bass newest - Sample.bass oldest in
        JS.gt trend 0.15 && JS.gt (Sample.bass newest) (threshold * 0.8)
    | _, _ => false
    end.

Definition getCurrent (b : t) : option AudioSample :=
  if (0 <? length (buffer b))%nat
  then nth_error (buffer b) (length (buffer b) - 1)
  else None.

Definition getEnergyHistory (b : t) : list Q := peakHistory b.

Definition clear (b : t) : t := mk [] (bufferSize b) (lookaheadMs b) [].

End AudioLookaheadBuffer.

(** ** Debug telemetry *)

Module Telemetry.

Record FramePoolStats := mkStats {
  low : nat;
  mid : nat;
  high : nat;
  closeups : nat;
  hands : nat;
  feet : nat;
  mandalas : nat;
  virtuals : nat
}.

Record t := mk {
  currentBPM : Q;
  detectedBPM : Q;
  confidence : Q;
  bassLevel : Q;
  midLevel : Q;
  highLevel : Q;
  energy : Q;
  peakDetected : bool;
  transientDetected : bool;
  beatPhase : Q;
  framePoolStats : FramePoolStats;
  transitionHistory : list (KineticNodeId * Z);
  audioHistory : list Q
}.

(** [current?.field || 0]: the field of the sample, 0 without a sample or
    when the field is 0. *)
Definition level (current : option AudioSample) (field : AudioSample -> Q) : Q :=
  match current with
  | Some s => if Qeq_bool (field s) 0 then 0 else field s
  | None => 0
  end.

End Telemetry.

Abbreviation KineticTelemetry := Telemetry.t.

(** ** The engine *)

Module KineticEngine.

(** An entry [`${nodeId}@${now}`] of the transition history is kept as the
    pair of its two components. *)
Definition HistoryEntry : Type := KineticNodeId * Z.

Record t := mk {
  state : KineticState;
  framePool : KineticFramePool;
  audioBuffer : AudioLookaheadBuffer.t;
  bpm : Q;
  beatDuration : Q;
  lastBeatTime : Z;
  bpmDetector : BPMDetector.t;
  transientDetector : TransientDetector.t;
  autoBPM : bool;
  bpmConfidence : Q;
  transitionHistory : list HistoryEntry;
  lastPeakDetected : bool;
  lastTransientDetected : bool
}.

Definition initialState : KineticState :=
  {| currentNode := idle;
     currentFrame := None;
     transitionProgress := 1.0;
     transitionStyle := CUT;
     sourceFrame := None;
     beatPos := 0;
     barCounter := 0;
     phraseCounter := 0;
     lastTransitionTime := 0;
     isLocked := false;
     lockReleaseTime := 0;
     sequenceMode := GROOVE |}.

(** [new KineticEngine()]. *)
Definition create : t :=
  mk initialState FramePool.empty (AudioLookaheadBuffer.create 200 60)
     120 500 0 BPMDetector.init TransientDetector.init true 0 [] false false.

(** *** Field updates *)

Definition with_state (s : KineticState) (e : t) : t :=
  mk s (framePool e) (audioBuffer e) (bpm e) (beatDuration e) (lastBeatTime e)
     (bpmDetector e) (transientDetector e) (autoBPM e) (bpmConfidence e)
     (transitionHistory e) (lastPeakDetected e) (lastTransientDetected e).

Definition set_beatPos (v : Q) (s : KineticState) : KineticState :=
  {| currentNode := currentNode s; currentFrame := currentFrame s;
     transitionProgress := transitionProgress s;
     transitionStyle := transitionStyle s; sourceFrame := sourceFrame s;
     beatPos := v; barCounter := barCounter s; phraseCounter := phraseCounter s;
     lastTransitionTime := lastTransitionTime s; isLocked := isLocked s;
     lockReleaseTime := lockReleaseTime s; sequenceMode := sequenceMode s |}.

Definition set_transitionProgress (v : Q) (s : KineticState) : KineticState :=
  {| currentNode := currentNode s; currentFrame := currentFrame s;
     transitionProgress := v;
     transitionStyle := transitionStyle s; sourceFrame := sourceFrame s;
     beatPos := beatPos s; barCounter := barCounter s;
     phraseCounter := phraseCounter s;
     lastTransitionTime := lastTransitionTime s; isLocked := isLocked s;
     lockReleaseTime := lockReleaseTime s; sequenceMode := sequenceMode s |}.

Definition set_isLocked (v : bool) (s : KineticState) : KineticState :=
  {| currentNode := currentNode s; currentFrame := currentFrame s;
     transitionProgress := transitionProgress s;
     transitionStyle := transitionStyle s; sourceFrame := sourceFrame s;
     beatPos := beatPos s; barCounter := barCounter s;
     phraseCounter := phraseCounter s;
     lastTransitionTime := lastTransitionTime s; isLocked := v;
     lockReleaseTime := lockReleaseTime s; sequenceMode := sequenceMode s |}.

Definition set_sequenceMode (v : SequenceMode) (s : KineticState) : KineticState :=
  {| currentNode := currentNode s; currentFrame := currentFrame s;
     transitionProgress := transitionProgress s;
     transitionStyle := transitionStyle s; sourceFrame := sourceFrame s;
     beatPos := beatPos s; barCounter := barCounter s;
     phraseCounter := phraseCounter s;
     lastTransitionTime := lastTransitionTime s; isLocked := isLocked s;
     lockReleaseTime := lockReleaseTime s; sequenceMode := v |}.

Definition set_counters (bar phrase : Z) (s : KineticState) : KineticState :=
  {| currentNode := currentNode s; currentFrame := currentFrame s;
     transitionProgress := transitionProgress s;
     transitionStyle := transitionStyle s; sourceFrame := sourceFrame s;
     beatPos := beatPos s; barCounter := bar; phraseCounter := phrase;
     lastTransitionTime := lastTransitionTime s; isLocked := isLocked s;
     lockReleaseTime := lockReleaseTime s; sequenceMode := sequenceMode s |}.

(** *** Tempo *)

Definition setBPM (bpm' : Q) (e : t) : t :=
  let b := JS.Math_max 60 (JS.Math_min 200 bpm') in
  mk (state e) (framePool e) (audioBuffer e) b (60000 / b) (lastBeatTime e)
     (bpmDetector e) (transientDetector e) (autoBPM e) (bpmConfidence e)
     (transitionHistory e) (lastPeakDetected e) (lastTransientDetected e).

Definition setAutoBPM (enabled : bool) (e : t) : t :=
  mk (state e) (framePool e) (audioBuffer e) (bpm e) (beatDuration e)
     (lastBeatTime e)
     (if enabled then BPMDetector.reset (bpmDetector e) else bpmDetector e)
     (transientDetector e) enabled (bpmConfidence e)
     (transitionHistory e) (lastPeakDetected e) (lastTransientDetected e).

(** *** Frame pool *)

Definition push_energy (lvl : EnergyLevel) (frame : GeneratedFrame)
           (b : FramePool.ByEnergy) : FramePool.ByEnergy :=
  match lvl with
  | E_low => FramePool.mkE (FramePool.low b ++ [frame]) (FramePool.mid b) (FramePool.high b)
  | E_mid => FramePool.mkE (FramePool.low b) (FramePool.mid b ++ [frame]) (FramePool.high b)
  | E_high => FramePool.mkE (FramePool.low b) (FramePool.mid b) (FramePool.high b ++ [frame])
  end.

Definition push_direction (dir : MoveDirection) (frame : GeneratedFrame)
           (b : FramePool.ByDirection) : FramePool.ByDirection :=
  match dir with
  | D_left =>
      FramePool.mkD (FramePool.left b ++ [frame]) (FramePool.right b) (FramePool.center b)
  | D_right =>
      FramePool.mkD (FramePool.left b) (FramePool.right b ++ [frame]) (FramePool.center b)
  | D_center =>
      FramePool.mkD (FramePool.left b) (FramePool.right b) (FramePool.center b ++ [frame])
  end.

(** [frame.pose?.includes('mandala')]. *)
Definition pose_is_mandala (frame : GeneratedFrame) : bool :=
  match Frame.pose frame with
  | Some p => JS.includes "mandala" p
  | None => false
  end.

(** The body of the loop [for (const frame of frames)]. *)
Definition categorize (pool : KineticFramePool) (frame : GeneratedFrame)
  : KineticFramePool :=
  let byEnergy' :=
    match Frame.energy frame with
    | Some lvl => push_energy lvl frame (FramePool.byEnergy pool)
    | None => FramePool.byEnergy pool
    end in
  let dir :=
    match Frame.direction frame with
    | Some d => d
    | None => D_center
    end in
  let byDirection' := push_direction dir frame (FramePool.byDirection pool) in
  let closeups' :=
    match Frame.type frame with
    | Some T_closeup => FramePool.closeups pool ++ [frame]
    | _ => FramePool.closeups pool
    end in
  let hands' :=
    match Frame.type frame with
    | Some T_hands => FramePool.hands pool ++ [frame]
    | _ => FramePool.hands pool
    end in
  let mandalas' :=
    match Frame.type frame with
    | Some T_hands =>
        if pose_is_mandala frame then FramePool.mandalas pool ++ [frame]
        else FramePool.mandalas pool
    | _ => FramePool.mandalas pool
    end in
  let feet' :=
    match Frame.type frame with
    | Some T_feet => FramePool.feet pool ++ [frame]
    | _ => FramePool.feet pool
    end in
  let acrobatics' :=
    match Frame.role frame with
    | Some R_alt => FramePool.acrobatics pool ++ [frame]
    | _ => FramePool.acrobatics pool
    end in
  let virtuals' :=
    if Frame.isVirtual frame then FramePool.virtuals pool ++ [frame]
    else FramePool.virtuals pool in
  FramePool.mk byEnergy' closeups' hands' feet' mandalas' virtuals' acrobatics'
               byDirection'.

Definition is_empty {A : Type} (arr : list A) : bool := (length arr =? 0)%nat.

(** The three statements after the loop ("Ensure pools have fallbacks"). *)
Definition ensure_fallbacks (pool : KineticFramePool) : KineticFramePool :=
  let e := FramePool.byEnergy pool in
  let low1 := if is_empty (FramePool.low e) then FramePool.mid e else FramePool.low e in
  let mid1 := if is_empty (FramePool.mid e) then low1 else FramePool.mid e in
  let d := FramePool.byDirection pool in
  let center1 := if is_empty (FramePool.center d) then mid1 else FramePool.center d in
  FramePool.mk (FramePool.mkE low1 mid1 (FramePool.high e))
               (FramePool.closeups pool) (FramePool.hands pool) (FramePool.feet pool)
               (FramePool.mandalas pool) (FramePool.virtuals pool)
               (FramePool.acrobatics pool)
               (FramePool.mkD (FramePool.left d) (FramePool.right d) center1).

Definition build_pool (frames : list GeneratedFrame) : KineticFramePool :=
  ensure_fallbacks (fold_left categorize frames FramePool.empty).

Definition loadFramePool (frames : list GeneratedFrame) (e : t) : t :=
  mk (state e) (build_pool frames) (audioBuffer e) (bpm e) (beatDuration e)
     (lastBeatTime e) (bpmDetector e) (transientDetector e) (autoBPM e)
     (bpmConfidence e) (transitionHistory e) (lastPeakDetected e)
     (lastTransientDetected e).

(** *** Transitions *)

Definition getTransitionSpeed (style : TransitionStyle) : Q :=
  match style with
  | CUT => 100.0
  | MORPH => 3.0
  | ZOOM_IN => 4.0
  | SLIDE => 6.0
  | SMOOTH => 1.5
  end.

Definition transitionTo (nodeId : KineticNodeId) (now : Z) (rnd : Q) (e : t) : t :=
  let targetNode := KINETIC_GRAPH nodeId in
  match frameSelector targetNode rnd (framePool e) with
  | None => e
  | Some frame =>
      let s := state e in
      let lock := (500 <=? minDuration targetNode)%Z in
      let s' :=
        {| currentNode := nodeId;
           currentFrame := Some frame;
           transitionProgress := 0;
           transitionStyle := preferredTransition targetNode;
           sourceFrame := currentFrame s;
           beatPos := beatPos s;
           barCounter := barCounter s;
           phraseCounter := phraseCounter s;
           lastTransitionTime := now;
           isLocked := if lock then true else isLocked s;
           lockReleaseTime :=
             if lock then (now + minDuration targetNode)%Z else lockReleaseTime s;
           sequenceMode := sequenceMode s |} in
      mk s' (framePool e) (audioBuffer e) (bpm e) (beatDuration e) (lastBeatTime e)
         (bpmDetector e) (transientDetector e) (autoBPM e) (bpmConfidence e)
         (JS.push_bounded 50 (transitionHistory e) (nodeId, now))
         (lastPeakDetected e) (lastTransientDetected e)
  end.

(** [possibleTransitions.filter(...)]: the successors whose energy
    requirement the current energy meets. *)
Definition validTransitions (energy : Q) (currentNode : KineticNode)
  : list KineticNodeId :=
  filter (fun nodeId => JS.ge energy (energyRequirement (KINETIC_GRAPH nodeId)))
         (possibleTransitions currentNode).

(** The [switch] on the sequence mode; [first] is [validTransitions[0]]. *)
Definition selectTarget (mode : SequenceMode) (barCounter : Z)
           (valid : list KineticNodeId) (first : KineticNodeId) : KineticNodeId :=
  match mode with
  | EMOTE =>
      if includes_node valid closeup then closeup
      else if includes_node valid hands then hands else first
  | IMPACT =>
      if includes_node valid impact then impact
      else if includes_node valid mandala then mandala
      else if includes_node valid jump then jump else first
  | FOOTWORK =>
      if includes_node valid feet then feet
      else if includes_node valid crouch then crouch else first
  | GROOVE =>
      if (Z.rem barCounter 2 =? 0)%Z then
        if includes_node valid groove_left then groove_left
        else if includes_node valid groove_center then groove_center else first
      else
        if includes_node valid groove_right then groove_right
        else if includes_node valid groove_center then groove_center else first
  end.

Definition attemptTransition (energy bass mid high : Q) (now : Z) (rnd : Q) (e : t)
  : t :=
  let currentNode := KINETIC_GRAPH (currentNode (state e)) in
  match validTransitions energy currentNode with
  | [] =>
      if JS.lt energy (exitThreshold currentNode)
      then transitionTo idle now rnd e
      else e
  | (first :: _) as valid =>
      let targetNodeId :=
        selectTarget (sequenceMode (state e)) (barCounter (state e)) valid first in
      transitionTo targetNodeId now rnd e
  end.

Definition shouldTriggerOnBeat (bass : Q) (e : t) : bool :=
  let nearBeat := JS.lt (beatPos (state e)) 0.1 || JS.gt (beatPos (state e)) 0.9 in
  let strongBass := JS.gt bass 0.6 in
  nearBeat || strongBass.

Definition updateSequenceMode (bass mid high : Q) (e : t) : t :=
  let isDrop := JS.gt bass 0.8 in
  let isPeak := JS.gt high 0.7 in
  let isFill := (phraseCounter (state e) =? 7)%Z in
  let hasCloseups := (0 <? length (FramePool.closeups (framePool e)))%nat in
  let hasHands := (0 <? length (FramePool.hands (framePool e)))%nat in
  let hasFeet := (0 <? length (FramePool.feet (framePool e)))%nat in
  let mode :=
    if isPeak && hasCloseups then EMOTE
    else if isDrop && hasHands then IMPACT
    else if (12 <=? barCounter (state e))%Z && hasFeet then FOOTWORK
    else if isFill then IMPACT
    else GROOVE in
  with_state (set_sequenceMode mode (state e)) e.

(** *** Audio ingestion *)

Section WithSqrt.

Variable Math_sqrt : Q -> Q.

Definition feedAudio (now : Z) (bass mid high : Q) (e : t) : t :=
  let energy := bass * 0.5 + mid * 0.3 + high * 0.2 in
  let audioBuffer' :=
    AudioLookaheadBuffer.push (Sample.mk bass mid high energy now) (audioBuffer e) in
  let e1 :=
    mk (state e) (framePool e) audioBuffer' (bpm e) (beatDuration e)
       (lastBeatTime e) (bpmDetector e) (transientDetector e) (autoBPM e)
       (bpmConfidence e) (transitionHistory e) (lastPeakDetected e)
       (lastTransientDetected e) in
  let e2 :=
    if autoBPM e1 then
      let '(detector', beatDetected) :=
        BPMDetector.detectBeat bass now (bpmDetector e1) in
      let e1' :=
        mk (state e1) (framePool e1) (audioBuffer e1) (bpm e1) (beatDuration e1)
           (lastBeatTime e1) detector' (transientDetector e1) (autoBPM e1)
           (bpmConfidence e1) (transitionHistory e1) (lastPeakDetected e1)
           (lastTransientDetected e1) in
      if beatDetected then
        let '(bpm', confidence) := BPMDetector.calculateBPM Math_sqrt detector' in
        let e1'' :=
          mk (state e1') (framePool e1') (audioBuffer e1') (bpm e1')
             (beatDuration e1') (lastBeatTime e1') (bpmDetector e1')
             (transientDetector e1') (autoBPM e1') confidence
             (transitionHistory e1') (lastPeakDetected e1')
             (lastTransientDetected e1') in
        if JS.gt confidence 0.5 then setBPM bpm' e1'' else e1''
      else e1'
    else e1 in
  let '(transient', transientDetected) :=
    TransientDetector.detect (mid + high) (transientDetector e2) in
  mk (state e2) (framePool e2) (audioBuffer e2) (bpm e2) (beatDuration e2)
     (lastBeatTime e2) (bpmDetector e2) transient' (autoBPM e2)
     (bpmConfidence e2) (transitionHistory e2)
     (AudioLookaheadBuffer.detectPeak (audioBuffer e2)) transientDetected.

End WithSqrt.

(** *** The tick *)

(** The first three statements of [update]: beat position, transition
    progress, lock release. *)
Definition advanceClock (now : Z) (deltaTime : Q) (e : t) : t :=
  let s0 := state e in
  let s1 :=
    set_beatPos (JS.rem (inject_Z now) (beatDuration e) / beatDuration e) s0 in
  let s2 :=
    if JS.lt (transitionProgress s1) 1.0 then
      let transitionSpeed := getTransitionSpeed (transitionStyle s1) in
      let progress := transitionProgress s1 + transitionSpeed * deltaTime in
      set_transitionProgress (if JS.gt progress 1.0 then 1.0 else progress) s1
    else s1 in
  let s3 :=
    if isLocked s2 && (lockReleaseTime s2 <=? now)%Z
    then set_isLocked false s2 else s2 in
  with_state s3 e.

(** The end of [update]: bar and phrase counters. *)
Definition updateCounters (now : Z) (e : t) : t :=
  if JS.lt (beatPos (state e)) 0.1
     && JS.lt (inject_Z (lastBeatTime e)) (inject_Z now - beatDuration e * 0.9)
  then
    mk (set_counters (Z.rem (barCounter (state e) + 1) 16)
                     (Z.rem (phraseCounter (state e) + 1) 8) (state e))
       (framePool e) (audioBuffer e) (bpm e) (beatDuration e) now
       (bpmDetector e) (transientDetector e) (autoBPM e) (bpmConfidence e)
       (transitionHistory e) (lastPeakDetected e) (lastTransientDetected e)
  else e.

(** [update(deltaTime)]; the value the source returns is [state] of the
    resulting engine ([return this.state]). *)
Definition update (now : Z) (deltaTime : Q) (rnd : Q) (e : t) : t :=
  let e1 := advanceClock now deltaTime e in
  let predicted := AudioLookaheadBuffer.predictEnergy 200 (audioBuffer e1) in
  match AudioLookaheadBuffer.getCurrent (audioBuffer e1) with
  | None => e1
  | Some current =>
      let bass := Sample.bass current in
      let mid := Sample.mid current in
      let high := Sample.high current in
      let energy := Sample.energy current in
      let e2 := updateSequenceMode bass mid high e1 in
      let beatTrigger := shouldTriggerOnBeat bass e2 in
      let e3 :=
        if beatTrigger && negb (isLocked (state e2)) then
          let timeSinceLastTransition := (now - lastTransitionTime (state e2))%Z in
          let currentNodeConfig := KINETIC_GRAPH (currentNode (state e2)) in
          if (minDuration currentNodeConfig <=? timeSinceLastTransition)%Z
          then attemptTransition energy bass mid high now rnd e2
          else e2
        else e2 in
      updateCounters now e3
  end.

(** *** Manual overrides and accessors *)

Definition forceState (nodeId : KineticNodeId) (now : Z) (rnd : Q) (e : t) : t :=
  transitionTo nodeId now rnd e.

Definition triggerStutter (e : t) : t :=
  let s := state e in
  with_state
    {| currentNode := currentNode s; currentFrame := currentFrame s;
       transitionProgress := 0; transitionStyle := CUT;
       sourceFrame := currentFrame s;
       beatPos := beatPos s; barCounter := barCounter s;
       phraseCounter := phraseCounter s;
       lastTransitionTime := lastTransitionTime s; isLocked := isLocked s;
       lockReleaseTime := lockReleaseTime s; sequenceMode := sequenceMode s |} e.

Definition triggerGlitch (rnd : Q) (e : t) : t :=
  let highFrames := FramePool.high (FramePool.byEnergy (framePool e)) in
  if (0 <? length highFrames)%nat then
    let randomFrame := pick rnd highFrames in
    let s := state e in
    with_state
      {| currentNode := currentNode s; currentFrame := randomFrame;
         transitionProgress := 0; transitionStyle := CUT;
         sourceFrame := currentFrame s;
         beatPos := beatPos s; barCounter := barCounter s;
         phraseCounter := phraseCounter s;
         lastTransitionTime := lastTransitionTime s; isLocked := isLocked s;
         lockReleaseTime := lockReleaseTime s; sequenceMode := sequenceMode s |} e
  else e.

(** [getState()] returns a copy of the state record. *)
Definition getState (e : t) : KineticState := state e.

Definition getCurrentNodeConfig (e : t) : KineticNode :=
  KINETIC_GRAPH (currentNode (state e)).

Definition getBPM (e : t) : Q := bpm e.

Definition getBPMConfidence (e : t) : Q := bpmConfidence e.

Section TelemetryWithSqrt.

Variable Math_sqrt : Q -> Q.

Definition getTelemetry (e : t) : KineticTelemetry :=
  let current := AudioLookaheadBuffer.getCurrent (audioBuffer e) in
  Telemetry.mk
    (bpm e)
    (fst (BPMDetector.calculateBPM Math_sqrt (bpmDetector e)))
    (bpmConfidence e)
    (Telemetry.level current Sample.bass)
    (Telemetry.level current Sample.mid)
    (Telemetry.level current Sample.high)
    (Telemetry.level current Sample.energy)
    (lastPeakDetected e)
    (lastTransientDetected e)
    (beatPos (state e))
    (Telemetry.mkStats
       (length (FramePool.low (FramePool.byEnergy (framePool e))))
       (length (FramePool.mid (FramePool.byEnergy (framePool e))))
       (length (FramePool.high (FramePool.byEnergy (framePool e))))
       (length (FramePool.closeups (framePool e)))
       (length (FramePool.hands (framePool e)))
       (length (FramePool.feet (framePool e)))
       (length (FramePool.mandalas (framePool e)))
       (length (FramePool.virtuals (framePool e))))
    (JS.slice_last 10 (transitionHistory e))
    (AudioLookaheadBuffer.getEnergyHistory (audioBuffer e)).

End TelemetryWithSqrt.

Definition resetDetectors (e : t) : t :=
  mk (state e) (framePool e) (AudioLookaheadBuffer.clear (audioBuffer e))
     (bpm e) (beatDuration e) (lastBeatTime e)
     (BPMDetector.reset (bpmDetector e))
     (TransientDetector.reset (transientDetector e))
     (autoBPM e) 0 [] (lastPeakDetected e) (lastTransientDetected e).

End KineticEngine.

(** ** Mechanical frame generators *)

(** [createStutterFrames(frameUrl, count)]: the same frame [count] times. *)
Definition createStutterFrames (frameUrl : string) (count : nat) : list string :=
  repeat frameUrl count.

(** The text a template literal prints for an integer. *)
Definition string_of_Z (z : Z) : string := NilZero.string_of_int (Z.to_int z).

Section VirtualZoom.

(** [createDollyZoom] draws on a canvas; the url of the image it resolves
    to is taken as a function of the source url and the zoom factor. *)
Variable createDollyZoom : string -> Q -> string.

(** One turn of the loop of [generateVirtualZoomVariants]. *)
Definition zoomVariant (frame : GeneratedFrame) (zoom : Q) : GeneratedFrame :=
  let zoomedUrl := createDollyZoom (Frame.url frame) zoom in
  let poseText :=
    match Frame.pose frame with
    | Some p => p
    | None => "undefined"%string
    end in
  Frame.mk zoomedUrl
           (Some (poseText ++ "_vzoom_" ++ string_of_Z (JS.Math_round (zoom * 100)))%string)
           (Frame.energy frame) (Frame.direction frame) (Frame.type frame)
           (Frame.role frame) true (Some zoom) (Frame.virtualOffsetY frame).

Definition generateVirtualZoomVariants (frame : GeneratedFrame) (zoomLevels : list Q)
  : list GeneratedFrame :=
  map (zoomVariant frame) zoomLevels.

(** The default of [zoomLevels]. *)
Definition defaultZoomLevels : list Q := [1.25; 1.5; 1.75].

End VirtualZoom.

(** ** Runs of the engine and of the detectors *)

Import KineticEngine.

(** A call of the engine's public interface, with the clock and random
    values it reads. *)
Inductive Call :=
| CallFeedAudio (now : Z) (bass mid high : Q)
| CallUpdate (now : Z) (deltaTime : Q) (rnd : Q)
| CallSetBPM (bpm : Q)
| CallSetAutoBPM (enabled : bool)
| CallLoadFramePool (frames : list GeneratedFrame)
| CallForceState (nodeId : KineticNodeId) (now : Z) (rnd : Q)
| CallTriggerStutter
| CallTriggerGlitch (rnd : Q)
| CallResetDetectors.

Definition is_forceState (c : Call) : bool :=
  match c with
  | CallForceState _ _ _ => true
  | _ => false
  end.

(** The clock value of an [update] call stays below [limit]. *)
Definition update_before (limit : Z) (c : Call) : Prop :=
  match c with
  | CallUpdate now _ _ => (now < limit)%Z
  | _ => True
  end.

Section Runs.

Variable Math_sqrt : Q -> Q.

Definition apply_call (e : KineticEngine.t) (c : Call) : KineticEngine.t :=
  match c with
  | CallFeedAudio now bass mid high => feedAudio Math_sqrt now bass mid high e
  | CallUpdate now deltaTime rnd => update now deltaTime rnd e
  | CallSetBPM bpm => setBPM bpm e
  | CallSetAutoBPM enabled => setAutoBPM enabled e
  | CallLoadFramePool frames => loadFramePool frames e
  | CallForceState nodeId now rnd => forceState nodeId now rnd e
  | CallTriggerStutter => triggerStutter e
  | CallTriggerGlitch rnd => triggerGlitch rnd e
  | CallResetDetectors => resetDetectors e
  end.

Definition run (calls : list Call) (e : KineticEngine.t) : KineticEngine.t :=
  fold_left apply_call calls e.

(** The engines a program can hold: a fresh engine after any calls. *)
Definition reachable (e : KineticEngine.t) : Prop :=
  exists calls, e = run calls create.

End Runs.

(** The target [attemptTransition] hands to [transitionTo], if any. *)
Definition chosenTarget (energy : Q) (e : KineticEngine.t) : option KineticNodeId :=
  let node := KINETIC_GRAPH (currentNode (state e)) in
  match validTransitions energy node with
  | [] => if JS.lt energy (exitThreshold node) then Some idle else None
  | (first :: _) as valid =>
      Some (selectTarget (sequenceMode (state e)) (barCounter (state e)) valid first)
  end.

(** Feeding a stream of samples to the transient detector. *)
Definition feed_transient (xs : list float) (d : Double.TransientDetector.t)
  : Double.TransientDetector.t :=
  fold_left (fun d v => fst (Double.TransientDetector.detect v d)) xs d.

(** The answers of [detect] along a stream. *)
Fixpoint transient_outputs (xs : list float) (d : Double.TransientDetector.t)
  : list bool :=
  match xs with
  | [] => []
  | v :: rest =>
      let '(d', fired) := Double.TransientDetector.detect v d in
      fired :: transient_outputs rest d'
  end.

(** The ramp [0.1 + (0.8 * i / 20)] for [i = 0 .. 20]. *)
Definition ramp : list float :=
  map (fun i => (0.1 + 0.8 * i / 20)%float)
      [0; 1; 2; 3; 4; 5; 6; 7; 8; 9; 10; 11; 12; 13; 14; 15; 16; 17; 18; 19; 20]%float.

(** ** Specification-side notions *)

(** The differences of neighbouring beat times. *)
Definition beat_gaps (times : list Z) : list Z :=
  map (fun p => (snd p - fst p)%Z) (combine times (tl times)).

(** The inter-beat intervals that survive the [[250, 1500]] filter. *)
Definition surviving (times : list Z) : list Z :=
  filter (fun g => (250 <=? g)%Z && (g <=? 1500)%Z) (beat_gaps times).

Definition count_lt (m : Z) (l : list Z) : nat :=
  length (filter (fun x => (x <? m)%Z) l).

Definition count_le (m : Z) (l : list Z) : nat :=
  length (filter (fun x => (x <=? m)%Z) l).

(** [m] is the upper median of [l]: the member of rank [length l / 2] (from
    0) in ascending order, that is the middle value of an odd number of
    values and the upper of the two middle values of an even number. *)
Definition is_upper_median (m : Z) (l : list Z) : Prop :=
  In m l /\ (count_lt m l <= Nat.div (length l) 2 < count_le m l)%nat.

(** The median, as the specification has the word: the middle value in
    ascending order of an odd number of values, the mean of the two middle
    values of an even number. *)
Definition median (l : list Z) : Q :=
  let sorted := BPMDetector.sort_asc l in
  let n := length sorted in
  if Nat.even n
  then inject_Z (nth (Nat.div n 2 - 1) sorted 0%Z + nth (Nat.div n 2) sorted 0%Z) / 2
  else inject_Z (nth (Nat.div n 2) sorted 0%Z).

Definition clamp (x lo hi : Q) : Q :=
  if JS.lt x lo then lo else if JS.gt x hi then hi else x.

(** Mean, population variance and coefficient of variation of a list of
    intervals. *)
Definition Zsum_list (l : list Z) : Z := fold_right Z.add 0%Z l.

Definition Qsum_list (l : list Q) : Q := fold_right Qplus 0 l.

Definition mean (l : list Z) : Q :=
  inject_Z (Zsum_list l) / inject_Z (Z.of_nat (length l)).

Definition variance (l : list Z) : Q :=
  Qsum_list (map (fun v => (inject_Z v - mean l) ^ 2) l)
  / inject_Z (Z.of_nat (length l)).

Definition coefficientOfVariation (Math_sqrt : Q -> Q) (l : list Z) : Q :=
  Math_sqrt (variance l) / mean l.



(** ** Fixtures of the concrete runs *)

Definition frame_of (pose : string) (energy : EnergyLevel) (direction : MoveDirection)
           (type : FrameType) : GeneratedFrame :=
  Frame.mk ("img/" ++ pose) (Some pose) (Some energy) (Some direction) (Some type)
           (Some R_base) false None None.

Definition low_frame : GeneratedFrame := frame_of "low_1" E_low D_center T_body.
Definition mid_left_frame : GeneratedFrame := frame_of "mid_left_1" E_mid D_left T_body.
Definition high_frame : GeneratedFrame := frame_of "high_1" E_high D_center T_body.
Definition closeup_frame : GeneratedFrame :=
  frame_of "closeup_1" E_high D_center T_closeup.

(** An engine whose pool holds a low, a mid and no other frame: the [hands]
    selector has nothing to pick and the high bucket is empty. *)
Definition sparse_engine : KineticEngine.t :=
  loadFramePool [low_frame; mid_left_frame] create.

(** A sample of the lookahead buffer with the given energy. *)
Definition sample_of (energy : Q) : AudioSample := Sample.mk 0 0 0 energy 0.

Definition buffer_of (energies : list Q) : AudioLookaheadBuffer.t :=
  AudioLookaheadBuffer.mk (map sample_of energies) 12 200 [].

(** ** The peak test, as a position from the end of the buffer *)

(** The value at index [k] of [es] exceeds each neighbour it has. *)
Definition strict_local_max_at (es : list Q) (k : nat) : bool :=
  match nth_error es k with
  | None => false
  | Some c =>
      match k with
      | O => true
      | S j => match nth_error es j with
               | Some l => JS.gt c l
               | None => true
               end
      end
      && match nth_error es (S k) with
         | Some r => JS.gt c r
         | None => true
         end
  end.

(** With at least three samples buffered, the [k]-th energy from the end
    ([k = 1] is the last) is a strict local maximum and exceeds 0.4. *)
Definition peak_from_end (k : nat) (b : AudioLookaheadBuffer.t) : bool :=
  let es := map Sample.energy (AudioLookaheadBuffer.buffer b) in
  let n := length es in
  (3 <=? n)%nat && (k <=? n)%nat && strict_local_max_at es (n - k)
  && match nth_error es (n - k) with
     | Some c => JS.gt c 0.4
     | None => false
     end.

(** ** What a tick leaves alone *)

(** [e'] has the pool, the buffer, the tempo and the detectors of [e]. *)
Definition same_audio_side (e' e : KineticEngine.t) : Prop :=
  framePool e' = framePool e
  /\ audioBuffer e' = audioBuffer e
  /\ bpm e' = bpm e
  /\ beatDuration e' = beatDuration e
  /\ bpmDetector e' = bpmDetector e
  /\ transientDetector e' = transientDetector e
  /\ autoBPM e' = autoBPM e
  /\ bpmConfidence e' = bpmConfidence e
  /\ lastPeakDetected e' = lastPeakDetected e
  /\ lastTransientDetected e' = lastTransientDetected e.

(** The invariant of the engines a program can hold: the adopted tempo is
    within [[60, 200]] and the lookahead buffer keeps 12 samples. *)
Definition tempo_invariant (e : KineticEngine.t) : Prop :=
  60 <= bpm e <= 200
  /\ AudioLookaheadBuffer.bufferSize (audioBuffer e) = 12%nat.

(** ** Fixture runs of the engine *)

(** Two beats of steady audio take a fresh engine from [idle] over
    [groove_left] to [groove_center]; the audio then drops to energy 0.1. *)
Definition groove_center_engine : KineticEngine.t :=
  run sqrt_milli
      [CallLoadFramePool [low_frame; mid_left_frame];
       CallFeedAudio 990 0.6 0.6 0.6;
       CallUpdate 1000 0.016 0.5;
       CallFeedAudio 1490 0.6 0.6 0.6;
       CallUpdate 1500 0.016 0.5;
       CallFeedAudio 1990 0.1 0.1 0.1]
      create.

(** The same two beats with a closeup frame in the pool, then a bright
    sample: the tick at 2000 enters [closeup] and engages the lock until
    2500. *)
Definition closeup_locked_engine : KineticEngine.t :=
  run sqrt_milli
      [CallLoadFramePool [low_frame; mid_left_frame; closeup_frame];
       CallFeedAudio 990 0.6 0.6 0.6;
       CallUpdate 1000 0.016 0.5;
       CallFeedAudio 1490 0.6 0.6 0.6;
       CallUpdate 1500 0.016 0.5;
       CallFeedAudio 1990 0.6 0.6 0.9;
       CallUpdate 2000 0.016 0.5]
      create.

(** ** Streams into the lookahead buffer and the BPM detector *)

(** Pushing a stream of samples, oldest first. *)
Definition push_all (samples : list AudioSample) (b : AudioLookaheadBuffer.t)
  : AudioLookaheadBuffer.t :=
  fold_left (fun b s => AudioLookaheadBuffer.push s b) samples b.

(** Feeding a stream of [(bass, timestamp)] pairs to the BPM detector. *)
Definition feed_beats (inputs : list (Q * Z)) (d : BPMDetector.t) : BPMDetector.t :=
  fold_left (fun d x => fst (BPMDetector.detectBeat (fst x) (snd x) d)) inputs d.

(** [n] beat times, [period] apart, from [start]. *)
Definition beat_train (start period : Z) (n : nat) : list Z :=
  map (fun i => (start + period * Z.of_nat i)%Z) (seq 0 n).

(** ** Where the engine stands *)

(** Where the engine stands: node, frames, time of the last transition and
    the transition history. *)
Definition placement (e : KineticEngine.t)
  : KineticNodeId * option GeneratedFrame * option GeneratedFrame * Z
    * list HistoryEntry :=
  (currentNode (state e), currentFrame (state e), sourceFrame (state e),
   lastTransitionTime (state e), transitionHistory e).

(** The beat position a tick at clock [now] computes. *)
Definition beatPos_at (now : Z) (e : KineticEngine.t) : Q :=
  JS.rem (inject_Z now) (beatDuration e) / beatDuration e.

Definition is_update (c : Call) : bool :=
  match c with
  | CallUpdate _ _ _ => true
  | _ => false
  end.


(** The fields of the state that only a transition, the counters or the
    sequence-mode step write. *)
Definition settled_fields (s : KineticState)
  : KineticNodeId * option GeneratedFrame * option GeneratedFrame * TransitionStyle
    * Z * Z * Z * Z * SequenceMode :=
  (currentNode s, currentFrame s, sourceFrame s, transitionStyle s,
   lastTransitionTime s, lockReleaseTime s, barCounter s, phraseCounter s,
   sequenceMode s).

(** ** Buckets of the pool, by what they select *)

Definition has_type (ty : FrameType) (f : GeneratedFrame) : bool :=
  match Frame.type f, ty with
  | Some T_body, T_body | Some T_closeup, T_closeup
  | Some T_hands, T_hands | Some T_feet, T_feet => true
  | _, _ => false
  end.

Definition is_acrobatic (f : GeneratedFrame) : bool :=
  match Frame.role f with
  | Some R_alt => true
  | _ => false
  end.

(** The direction bucket a frame goes to: its tag, [center] without one. *)
Definition goes_to (dir : MoveDirection) (f : GeneratedFrame) : bool :=
  match Frame.direction f, dir with
  | Some D_left, D_left | Some D_right, D_right
  | Some D_center, D_center | None, D_center => true
  | _, _ => false
  end.

(** All the lists of a pool. *)
Definition pool_lists (p : KineticFramePool) : list (list GeneratedFrame) :=
  [FramePool.low (FramePool.byEnergy p); FramePool.mid (FramePool.byEnergy p);
   FramePool.high (FramePool.byEnergy p); FramePool.closeups p; FramePool.hands p;
   FramePool.feet p; FramePool.mandalas p; FramePool.virtuals p;
   FramePool.acrobatics p;
   FramePool.left (FramePool.byDirection p); FramePool.right (FramePool.byDirection p);
   FramePool.center (FramePool.byDirection p)].

(** Every frame of every list of the pool is one of [frames]. *)
Definition pool_within (frames : list GeneratedFrame) (p : KineticFramePool) : Prop :=
  Forall (fun bucket => incl bucket frames) (pool_lists p).

(** The call [setAutoBPM(true)]. *)
Definition enables_autoBPM (c : Call) : bool :=
  match c with
  | CallSetAutoBPM enabled => enabled
  | _ => false
  end.

(** * Verification *)

(** ** Comparisons *)

Lemma gt_true (a b : Q) : JS.gt a b = true <-> b < a.
Proof.
  unfold JS.gt. rewrite negb_true_iff.
  split; intro H.
  - apply Qnot_le_lt. intro Hle. apply Qle_bool_iff in Hle. congruence.
  - destruct (Qle_bool a b) eqn:E; [|reflexivity].
    apply Qle_bool_iff in E. lra.
Qed.

Lemma lt_true (a b : Q) : JS.lt a b = true <-> a < b.
Proof. unfold JS.lt. exact (gt_true b a). Qed.

Lemma ge_true (a b : Q) : JS.ge a b = true <-> b <= a.
Proof. unfold JS.ge. apply Qle_bool_iff. Qed.

Lemma gt_false (a b : Q) : JS.gt a b = false <-> a <= b.
Proof.
  unfold JS.gt. rewrite negb_false_iff. apply Qle_bool_iff.
Qed.

Lemma lt_false (a b : Q) : JS.lt a b = false <-> b <= a.
Proof. unfold JS.lt. exact (gt_false b a). Qed.

(** ** C10: [resetDetectors] *)

(** C10.  [resetDetectors] empties the detector-side history (beat times
    and energy history of the BPM detector, window and last value of the
    transient detector, lookahead buffer and its energy history, transition
    history, BPM confidence) and leaves the kinetic state, the adopted BPM
    and every other field of the engine as they were: [getState] and
    [getBPM] answer the same before and after. *)
Theorem resetDetectors_clears_only_detectors (e : KineticEngine.t) :
  let e' := resetDetectors e in
  getState e' = getState e
  /\ getBPM e' = getBPM e
  /\ beatDuration e' = beatDuration e
  /\ lastBeatTime e' = lastBeatTime e
  /\ framePool e' = framePool e
  /\ autoBPM e' = autoBPM e
  /\ lastPeakDetected e' = lastPeakDetected e
  /\ lastTransientDetected e' = lastTransientDetected e
  /\ BPMDetector.beatTimes (bpmDetector e') = []
  /\ BPMDetector.energyHistory (bpmDetector e') = []
  /\ BPMDetector.lastBeatTime (bpmDetector e') = 0%Z
  /\ BPMDetector.adaptiveThreshold (bpmDetector e') = 0.6
  /\ TransientDetector.history (transientDetector e') = []
  /\ TransientDetector.lastValue (transientDetector e') = 0
  /\ AudioLookaheadBuffer.buffer (audioBuffer e') = []
  /\ AudioLookaheadBuffer.getEnergyHistory (audioBuffer e') = []
  /\ transitionHistory e' = []
  /\ getBPMConfidence e' = 0.
Proof.
  cbv zeta. unfold resetDetectors, getState, getBPM, getBPMConfidence; simpl.
  repeat split.
Qed.

(** ** C6: a transition without a frame *)

Lemma transitionTo_no_frame nodeId now rnd e :
  frameSelector (KINETIC_GRAPH nodeId) rnd (framePool e) = None ->
  transitionTo nodeId now rnd e = e.
Proof. intro H. unfold transitionTo. rewrite H. reflexivity. Qed.

Lemma attemptTransition_chosen energy bass mid high now rnd e :
  attemptTransition energy bass mid high now rnd e =
  match chosenTarget energy e with
  | Some target => transitionTo target now rnd e
  | None => e
  end.
Proof.
  unfold attemptTransition, chosenTarget.
  destruct (validTransitions energy (KINETIC_GRAPH (currentNode (state e)))).
  - destruct (JS.lt energy _); reflexivity.
  - reflexivity.
Qed.

(** C6.  When the frame selector of the target node yields no frame, the
    transition ([transitionTo], hence [forceState], and [attemptTransition]
    when that node is the chosen target) returns the engine as it was; when
    the high-energy bucket is empty, so does [triggerGlitch].  The embedded
    operations are total functions: no case raises an error. *)
Theorem no_frame_leaves_engine_unchanged
        (e : KineticEngine.t) (nodeId : KineticNodeId) (now : Z) (rnd : Q) :
  (frameSelector (KINETIC_GRAPH nodeId) rnd (framePool e) = None ->
     transitionTo nodeId now rnd e = e
     /\ forceState nodeId now rnd e = e
     /\ getState (forceState nodeId now rnd e) = getState e
     /\ forall energy bass mid high,
          chosenTarget energy e = Some nodeId ->
          attemptTransition energy bass mid high now rnd e = e)
  /\ (FramePool.high (FramePool.byEnergy (framePool e)) = [] ->
        triggerGlitch rnd e = e
        /\ getState (triggerGlitch rnd e) = getState e).
Proof.
  split.
  - intro H. pose proof (transitionTo_no_frame nodeId now rnd e H) as Ht.
    unfold forceState. rewrite Ht. repeat split; try reflexivity.
    intros energy bass mid high Hc.
    rewrite attemptTransition_chosen, Hc. exact Ht.
  - intro H. unfold triggerGlitch. rewrite H. simpl. split; reflexivity.
Qed.

Lemma no_frame_leaves_engine_unchanged_witness :
  (transitionTo hands 1000 0.5 sparse_engine = sparse_engine
   /\ forceState hands 1000 0.5 sparse_engine = sparse_engine
   /\ getState (forceState hands 1000 0.5 sparse_engine) = getState sparse_engine
   /\ forall energy bass mid high,
        chosenTarget energy sparse_engine = Some hands ->
        attemptTransition energy bass mid high 1000 0.5 sparse_engine = sparse_engine)
  /\ (triggerGlitch 0.5 sparse_engine = sparse_engine
      /\ getState (triggerGlitch 0.5 sparse_engine) = getState sparse_engine).
Proof.
  destruct (no_frame_leaves_engine_unchanged sparse_engine hands 1000 0.5) as [H1 H2].
  split; [apply H1 | apply H2]; reflexivity.
Defined.

(** ** C5: a tick without audio *)

Lemma update_no_sample now deltaTime rnd e :
  AudioLookaheadBuffer.getCurrent (audioBuffer e) = None ->
  update now deltaTime rnd e = advanceClock now deltaTime e.
Proof.
  intro H. unfold update.
  replace (audioBuffer (advanceClock now deltaTime e)) with (audioBuffer e)
    by reflexivity.
  rewrite H. reflexivity.
Qed.

(** C5 (amended).  When the lookahead buffer holds no sample, [update]
    still runs its first three steps and then returns: the returned state
    has the beat position of the clock, the transition progress advanced by
    the style's speed (capped at 1) and the lock released when its time has
    come; every other field of the state, and every field of the engine
    outside the state, is as before the call. *)
Theorem update_without_sample_only_advances_clock
        (now : Z) (deltaTime rnd : Q) (e : KineticEngine.t) :
  AudioLookaheadBuffer.getCurrent (audioBuffer e) = None ->
  let s := getState e in
  let e' := update now deltaTime rnd e in
  let s' := getState e' in
  e' = with_state s' e
  /\ currentNode s' = currentNode s
  /\ currentFrame s' = currentFrame s
  /\ sourceFrame s' = sourceFrame s
  /\ transitionStyle s' = transitionStyle s
  /\ barCounter s' = barCounter s
  /\ phraseCounter s' = phraseCounter s
  /\ lastTransitionTime s' = lastTransitionTime s
  /\ lockReleaseTime s' = lockReleaseTime s
  /\ sequenceMode s' = sequenceMode s
  /\ beatPos s' = JS.rem (inject_Z now) (beatDuration e) / beatDuration e
  /\ transitionProgress s' =
       (if JS.lt (transitionProgress s) 1.0 then
          let p := transitionProgress s
                   + getTransitionSpeed (transitionStyle s) * deltaTime in
          if JS.gt p 1.0 then 1.0 else p
        else transitionProgress s)
  /\ isLocked s' = (isLocked s && negb (lockReleaseTime s <=? now)%Z).
Proof.
  intros H s e' s'. subst s e' s'. unfold getState.
  rewrite (update_no_sample _ _ _ _ H).
  unfold advanceClock, with_state, set_isLocked, set_transitionProgress, set_beatPos.
  destruct (state e) as [node frame progress style source pos bar phrase last
                         locked release mode]; simpl.
  destruct (JS.lt progress 1.0); simpl;
    destruct locked; simpl;
      destruct (release <=? now)%Z; simpl;
        repeat split; reflexivity.
Qed.

Lemma update_without_sample_only_advances_clock_witness :
  currentNode (getState (update 250 0.016 0.5 create)) = idle
  /\ beatPos (getState (update 250 0.016 0.5 create)) == 0.5
  /\ isLocked (getState (update 250 0.016 0.5 create)) = false.
Proof.
  pose proof (update_without_sample_only_advances_clock 250 0.016 0.5 create
                eq_refl) as H.
  cbv zeta in H.
  destruct H as (_ & Hn & _ & _ & _ & _ & _ & _ & _ & _ & Hb & _ & Hl).
  split; [exact Hn | split].
  - rewrite Hb. vm_compute. reflexivity.
  - rewrite Hl. reflexivity.
Defined.

(** C5, as stated, fails: on a fresh engine (no [feedAudio] yet) a tick at
    clock 250 returns a state whose beat position is 0.5, not the 0 it was;
    the same after [resetDetectors]. *)
Lemma update_without_sample_changes_beatPos :
  AudioLookaheadBuffer.getCurrent (audioBuffer create) = None
  /\ ~ beatPos (getState (update 250 0.016 0.5 create)) == beatPos (getState create)
  /\ getState (update 250 0.016 0.5 create) <> getState create
  /\ AudioLookaheadBuffer.getCurrent (audioBuffer (resetDetectors create)) = None
  /\ getState (update 250 0.016 0.5 (resetDetectors create))
     <> getState (resetDetectors create).
Proof.
  split; [reflexivity|].
  split; [vm_compute; discriminate|].
  split; [|split; [reflexivity|]].
  - intro H. apply (f_equal beatPos) in H. vm_compute in H. discriminate.
  - intro H. apply (f_equal beatPos) in H. vm_compute in H. discriminate.
Qed.

(** ** C8: [detectPeak] *)

Lemma last_three {A : Type} (l : list A) :
  (3 <= length l)%nat -> exists pre p c x, l = pre ++ [p; c; x].
Proof.
  intro H.
  rewrite <- (firstn_skipn (length l - 3) l).
  assert (Hs : length (skipn (length l - 3) l) = 3%nat)
    by (rewrite length_skipn; lia).
  destruct (skipn (length l - 3) l) as [|p [|c [|x [|y r]]]];
    simpl in Hs; try discriminate.
  now exists (firstn (length l - 3) l), p, c, x.
Qed.

Lemma nth_error_app_offset {A : Type} (pre suf : list A) (k : nat) :
  nth_error (pre ++ suf) (length pre + k) = nth_error suf k.
Proof.
  rewrite nth_error_app2 by lia. f_equal. lia.
Qed.

Lemma nth_error_last_three {A : Type} (pre : list A) (p c x : A) :
  let l := pre ++ [p; c; x] in
  nth_error l (length l - 3) = Some p
  /\ nth_error l (length l - 2) = Some c
  /\ nth_error l (length l - 1) = Some x.
Proof.
  cbv zeta. rewrite length_app. simpl length.
  replace (length pre + 3 - 3)%nat with (length pre + 0)%nat by lia.
  replace (length pre + 3 - 2)%nat with (length pre + 1)%nat by lia.
  replace (length pre + 3 - 1)%nat with (length pre + 2)%nat by lia.
  rewrite !nth_error_app_offset. repeat split.
Qed.

Lemma detectPeak_last_three pre p c x size ms hist :
  AudioLookaheadBuffer.detectPeak
    (AudioLookaheadBuffer.mk (pre ++ [p; c; x]) size ms hist)
  = JS.gt (Sample.energy c) (Sample.energy p)
    && JS.gt (Sample.energy c) (Sample.energy x)
    && JS.gt (Sample.energy c) 0.4.
Proof.
  unfold AudioLookaheadBuffer.detectPeak; simpl AudioLookaheadBuffer.buffer.
  destruct (nth_error_last_three pre p c x) as (Hp & Hc & Hx).
  rewrite Hp, Hc, Hx.
  assert (Hlen : (length (pre ++ [p; c; x]) <? 3)%nat = false)
    by (apply Nat.ltb_ge; rewrite length_app; simpl; lia).
  rewrite Hlen. reflexivity.
Qed.

Lemma peak_from_end_2_last_three pre p c x size ms hist :
  peak_from_end 2 (AudioLookaheadBuffer.mk (pre ++ [p; c; x]) size ms hist)
  = JS.gt (Sample.energy c) (Sample.energy p)
    && JS.gt (Sample.energy c) (Sample.energy x)
    && JS.gt (Sample.energy c) 0.4.
Proof.
  unfold peak_from_end; cbv zeta; simpl AudioLookaheadBuffer.buffer.
  rewrite map_app. simpl map.
  match goal with
  | |- context [@map ?A ?B ?f pre] => generalize (@map A B f pre); intro es
  end.
  remember (es ++ [Sample.energy p; Sample.energy c; Sample.energy x]) as l eqn:Hl.
  assert (Hn : length l = (length es + 3)%nat)
    by (rewrite Hl, length_app; reflexivity).
  assert (Hp : nth_error l (length es) = Some (Sample.energy p)).
  { replace (length es) with (length es + 0)%nat by lia.
    rewrite Hl. now rewrite nth_error_app_offset. }
  assert (Hc : nth_error l (S (length es)) = Some (Sample.energy c)).
  { replace (S (length es)) with (length es + 1)%nat by lia.
    rewrite Hl. now rewrite nth_error_app_offset. }
  assert (Hx : nth_error l (S (S (length es))) = Some (Sample.energy x)).
  { replace (S (S (length es))) with (length es + 2)%nat by lia.
    rewrite Hl. now rewrite nth_error_app_offset. }
  rewrite Hn.
  replace (length es + 3 - 2)%nat with (S (length es)) by lia.
  assert (H3 : (3 <=? length es + 3)%nat = true) by (apply Nat.leb_le; lia).
  assert (H2 : (2 <=? length es + 3)%nat = true) by (apply Nat.leb_le; lia).
  rewrite H3, H2. unfold strict_local_max_at.
  rewrite Hc, Hp, Hx. reflexivity.
Qed.

(** C8 (amended).  [detectPeak] answers false while fewer than 3 samples
    are buffered; otherwise it answers true exactly when the second-from-last
    buffered energy is a strict local maximum (it exceeds the third-from-last
    before it and the last after it) and exceeds 0.4. *)
Theorem detectPeak_tests_second_from_last (b : AudioLookaheadBuffer.t) :
  ((length (AudioLookaheadBuffer.buffer b) < 3)%nat ->
     AudioLookaheadBuffer.detectPeak b = false)
  /\ AudioLookaheadBuffer.detectPeak b = peak_from_end 2 b
  /\ (AudioLookaheadBuffer.detectPeak b = true <->
      exists pre p c x,
        AudioLookaheadBuffer.buffer b = pre ++ [p; c; x]
        /\ Sample.energy p < Sample.energy c
        /\ Sample.energy x < Sample.energy c
        /\ 0.4 < Sample.energy c).
Proof.
  destruct b as [buf size ms hist]. simpl AudioLookaheadBuffer.buffer.
  destruct (Nat.ltb_spec (length buf) 3) as [Hlt | Hge].
  - assert (Hd : AudioLookaheadBuffer.detectPeak
                   (AudioLookaheadBuffer.mk buf size ms hist) = false).
    { unfold AudioLookaheadBuffer.detectPeak; simpl.
      apply Nat.ltb_lt in Hlt. rewrite Hlt. reflexivity. }
    split; [intros _; exact Hd|]. rewrite Hd. split.
    + unfold peak_from_end; cbv zeta; simpl AudioLookaheadBuffer.buffer.
      rewrite length_map.
      assert (H3 : (3 <=? length buf)%nat = false) by (apply Nat.leb_gt; lia).
      rewrite H3. reflexivity.
    + split; [discriminate|].
      intros (pre & p & c & x & Hb & _). subst buf.
      rewrite length_app in Hlt. simpl in Hlt. lia.
  - destruct (last_three buf Hge) as (pre & p & c & x & ->).
    split; [rewrite length_app; simpl; lia|].
    rewrite detectPeak_last_three, peak_from_end_2_last_three.
    split; [reflexivity|].
    rewrite !andb_true_iff, !gt_true. split.
    + intros [[Hp Hx] Hc]. now exists pre, p, c, x.
    + intros (pre' & p' & c' & x' & Heq & Hp & Hx & Hc).
      apply (f_equal (@rev _)) in Heq. rewrite !rev_app_distr in Heq.
      simpl in Heq. injection Heq as -> -> -> _. tauto.
Qed.

Lemma detectPeak_tests_second_from_last_witness :
  AudioLookaheadBuffer.detectPeak (buffer_of [0.2; 0.3]) = false
  /\ AudioLookaheadBuffer.detectPeak (buffer_of [0.2; 0.3; 0.8; 0.4]) = true.
Proof.
  split.
  - destruct (detectPeak_tests_second_from_last (buffer_of [0.2; 0.3]))
      as (Hshort & _ & _).
    apply Hshort. simpl. lia.
  - destruct (detectPeak_tests_second_from_last (buffer_of [0.2; 0.3; 0.8; 0.4]))
      as (_ & _ & Hiff).
    apply Hiff.
    exists [sample_of 0.2], (sample_of 0.3), (sample_of 0.8), (sample_of 0.4).
    simpl. repeat split; reflexivity.
Defined.

(** C8, as stated, fails in both directions.  With energies 0.2, 0.8, 0.4,
    0.3 buffered, the third-from-last value (0.8) is a strict local maximum
    above 0.4 and [detectPeak] answers false; with 0.2, 0.3, 0.8, 0.4 (the
    buffer of the repository's own peak test) the third-from-last value
    (0.3) is no maximum and [detectPeak] answers true. *)
Lemma detectPeak_not_third_from_last :
  peak_from_end 3 (buffer_of [0.2; 0.8; 0.4; 0.3]) = true
  /\ AudioLookaheadBuffer.detectPeak (buffer_of [0.2; 0.8; 0.4; 0.3]) = false
  /\ peak_from_end 3 (buffer_of [0.2; 0.3; 0.8; 0.4]) = false
  /\ AudioLookaheadBuffer.detectPeak (buffer_of [0.2; 0.3; 0.8; 0.4]) = true.
Proof. repeat split; vm_compute; reflexivity. Qed.

(** ** Frame lemmas of the tick *)

Lemma same_audio_side_refl e : same_audio_side e e.
Proof. unfold same_audio_side. tauto. Qed.

Lemma same_audio_side_trans e1 e2 e3 :
  same_audio_side e1 e2 -> same_audio_side e2 e3 -> same_audio_side e1 e3.
Proof.
  unfold same_audio_side.
  intros (a1 & a2 & a3 & a4 & a5 & a6 & a7 & a8 & a9 & a10)
         (b1 & b2 & b3 & b4 & b5 & b6 & b7 & b8 & b9 & b10).
  repeat split; congruence.
Qed.

Lemma with_state_audio_side s e : same_audio_side (with_state s e) e.
Proof. unfold same_audio_side, with_state; simpl. tauto. Qed.

Lemma transitionTo_audio_side nodeId now rnd e :
  same_audio_side (transitionTo nodeId now rnd e) e.
Proof.
  unfold transitionTo.
  destruct (frameSelector (KINETIC_GRAPH nodeId) rnd (framePool e)).
  - unfold same_audio_side; simpl. tauto.
  - apply same_audio_side_refl.
Qed.

Lemma attemptTransition_audio_side energy bass mid high now rnd e :
  same_audio_side (attemptTransition energy bass mid high now rnd e) e.
Proof.
  rewrite attemptTransition_chosen.
  destruct (chosenTarget energy e).
  - apply transitionTo_audio_side.
  - apply same_audio_side_refl.
Qed.

Lemma advanceClock_audio_side now deltaTime e :
  same_audio_side (advanceClock now deltaTime e) e.
Proof. unfold advanceClock. apply with_state_audio_side. Qed.

Lemma updateSequenceMode_audio_side bass mid high e :
  same_audio_side (updateSequenceMode bass mid high e) e.
Proof. unfold updateSequenceMode. apply with_state_audio_side. Qed.

Lemma updateCounters_audio_side now e :
  same_audio_side (updateCounters now e) e.
Proof.
  unfold updateCounters.
  destruct (_ && _).
  - unfold same_audio_side; simpl. tauto.
  - apply same_audio_side_refl.
Qed.

Lemma update_audio_side now deltaTime rnd e :
  same_audio_side (update now deltaTime rnd e) e.
Proof.
  unfold update.
  pose proof (advanceClock_audio_side now deltaTime e) as H1.
  destruct (AudioLookaheadBuffer.getCurrent (audioBuffer (advanceClock now deltaTime e)))
    as [current|]; [|exact H1].
  set (e2 := updateSequenceMode _ _ _ _).
  assert (H2 : same_audio_side e2 e).
  { eapply same_audio_side_trans; [apply updateSequenceMode_audio_side | exact H1]. }
  eapply same_audio_side_trans; [apply updateCounters_audio_side|].
  destruct (_ && _); [|exact H2].
  destruct (_ <=? _)%Z; [|exact H2].
  eapply same_audio_side_trans; [apply attemptTransition_audio_side | exact H2].
Qed.

(** ** C9: tempo clamping and audio ingestion *)

Lemma clamp_max_min (lo hi x : Q) :
  lo <= hi ->
  JS.Math_max lo (JS.Math_min hi x) == clamp x lo hi
  /\ lo <= JS.Math_max lo (JS.Math_min hi x) <= hi.
Proof.
  intro Hlh. unfold JS.Math_max, JS.Math_min, clamp.
  destruct (Qle_bool hi x) eqn:Ehi.
  - apply Qle_bool_iff in Ehi.
    apply Qle_bool_iff in Hlh. rewrite Hlh. apply Qle_bool_iff in Hlh.
    destruct (JS.lt x lo) eqn:E1; [apply lt_true in E1; lra|].
    destruct (JS.gt x hi) eqn:E2.
    + split; [reflexivity | lra].
    + apply gt_false in E2. split; lra.
  - assert (Hx : x < hi).
    { apply Qnot_le_lt. intro H. apply Qle_bool_iff in H. congruence. }
    destruct (Qle_bool lo x) eqn:Elo.
    + apply Qle_bool_iff in Elo.
      destruct (JS.lt x lo) eqn:E1; [apply lt_true in E1; lra|].
      destruct (JS.gt x hi) eqn:E2; [apply gt_true in E2; lra|].
      split; [reflexivity | lra].
    + assert (Hx' : x < lo).
      { apply Qnot_le_lt. intro H. apply Qle_bool_iff in H. congruence. }
      destruct (JS.lt x lo) eqn:E1.
      * split; [reflexivity | lra].
      * apply lt_false in E1. lra.
Qed.

Lemma clamp_60_200 (x : Q) :
  JS.Math_max 60 (JS.Math_min 200 x) == clamp x 60 200
  /\ 60 <= JS.Math_max 60 (JS.Math_min 200 x) <= 200.
Proof. apply clamp_max_min. lra. Qed.

Lemma push_bounded_last {A : Type} (cap : nat) (arr : list A) (x : A) :
  (1 <= cap)%nat -> exists pre, JS.push_bounded cap arr x = pre ++ [x].
Proof.
  intro Hcap. unfold JS.push_bounded, JS.shift.
  destruct (Nat.ltb_spec cap (length (arr ++ [x]))) as [Hlong | Hshort].
  - destruct arr as [|a arr'].
    + simpl in Hlong. lia.
    + exists arr'. reflexivity.
  - now exists arr.
Qed.

Lemma getCurrent_last pre s size ms hist :
  AudioLookaheadBuffer.getCurrent (AudioLookaheadBuffer.mk (pre ++ [s]) size ms hist)
  = Some s.
Proof.
  unfold AudioLookaheadBuffer.getCurrent; simpl AudioLookaheadBuffer.buffer.
  assert (Hlen : length (pre ++ [s]) = (length pre + 1)%nat)
    by (rewrite length_app; reflexivity).
  rewrite Hlen.
  replace (0 <? length pre + 1)%nat with true by (symmetry; apply Nat.ltb_lt; lia).
  replace (length pre + 1 - 1)%nat with (length pre + 0)%nat by lia.
  now rewrite nth_error_app_offset.
Qed.

Lemma getCurrent_push sample b :
  (1 <= AudioLookaheadBuffer.bufferSize b)%nat ->
  AudioLookaheadBuffer.getCurrent (AudioLookaheadBuffer.push sample b) = Some sample.
Proof.
  intro H. unfold AudioLookaheadBuffer.push.
  destruct (push_bounded_last _ (AudioLookaheadBuffer.buffer b) sample H) as [pre ->].
  apply getCurrent_last.
Qed.

Lemma detect_lastValue value d :
  TransientDetector.lastValue (fst (TransientDetector.detect value d)) = value.
Proof.
  unfold TransientDetector.detect.
  destruct (_ <? _)%nat; reflexivity.
Qed.

(** *** Order of binary64 values *)

Lemma SFcompare_antisym (x y : spec_float) :
  SFcompare y x = option_map CompOpp (SFcompare x y).
Proof.
  destruct x as [sx|sx| |sx mx ex], y as [sy|sy| |sy my ey]; simpl;
    try reflexivity;
    try (destruct sx; reflexivity);
    try (destruct sy; reflexivity);
    try (destruct sx, sy; reflexivity).
  change (PosDef.Pos.compare_cont Eq mx my) with (Pos.compare mx my).
  change (PosDef.Pos.compare_cont Eq my mx) with (Pos.compare my mx).
  rewrite (Z.compare_antisym ex ey), (Pos.compare_antisym mx my).
  destruct sx, sy; try reflexivity; f_equal;
    destruct (ex ?= ey)%Z; simpl; try reflexivity;
    destruct (mx ?= my)%positive; reflexivity.
Qed.

Lemma double_ltb_asym (a b : float) : PrimFloat.ltb a b = true -> PrimFloat.ltb b a = false.
Proof.
  rewrite !FloatAxioms.ltb_spec. unfold SFltb. rewrite (SFcompare_antisym (Prim2SF a) (Prim2SF b)).
  destruct (SFcompare (Prim2SF a) (Prim2SF b)) as [[]|]; simpl; congruence.
Qed.

Lemma double_ltb_leb (a b : float) : PrimFloat.ltb a b = true -> PrimFloat.leb a b = true.
Proof.
  rewrite FloatAxioms.ltb_spec, FloatAxioms.leb_spec. unfold SFltb, SFleb.
  destruct (SFcompare (Prim2SF a) (Prim2SF b)) as [[]|]; congruence.
Qed.

Lemma SFcompare_refl (x : spec_float) : x <> S754_nan -> SFcompare x x = Some Eq.
Proof.
  destruct x as [s|s| |s m e]; simpl; intro H; try reflexivity; try congruence.
  - destruct s; reflexivity.
  - rewrite Z.compare_refl, Pos.compare_cont_refl. destruct s; reflexivity.
Qed.

Lemma double_is_nan_spec (a : float) : PrimFloat.is_nan a = false <-> Prim2SF a <> S754_nan.
Proof.
  unfold PrimFloat.is_nan. rewrite negb_false_iff, FloatAxioms.eqb_spec. unfold SFeqb.
  split.
  - intros H E. rewrite E in H. discriminate.
  - intro H. rewrite SFcompare_refl by exact H. reflexivity.
Qed.

Lemma SFcompare_total (x y : spec_float) :
  x <> S754_nan -> y <> S754_nan -> exists c, SFcompare x y = Some c.
Proof.
  destruct x as [sx|sx| |sx mx ex], y as [sy|sy| |sy my ey]; simpl; intros Hx Hy;
    try congruence; eexists; reflexivity.
Qed.

Lemma double_not_ltb_leb (a b : float) :
  PrimFloat.is_nan a = false -> PrimFloat.is_nan b = false ->
  PrimFloat.ltb a b = false -> PrimFloat.leb b a = true.
Proof.
  intros Ha Hb. apply double_is_nan_spec in Ha. apply double_is_nan_spec in Hb.
  rewrite FloatAxioms.ltb_spec, FloatAxioms.leb_spec. unfold SFltb, SFleb.
  rewrite (SFcompare_antisym (Prim2SF a) (Prim2SF b)).
  destruct (SFcompare_total _ _ Ha Hb) as [c ->].
  destruct c; simpl; congruence.
Qed.

Lemma double_leb_not_ltb (a b : float) :
  PrimFloat.leb a b = true -> PrimFloat.ltb b a = false.
Proof.
  rewrite FloatAxioms.ltb_spec, FloatAxioms.leb_spec. unfold SFltb, SFleb.
  rewrite (SFcompare_antisym (Prim2SF a) (Prim2SF b)).
  destruct (SFcompare (Prim2SF a) (Prim2SF b)) as [[]|]; simpl; congruence.
Qed.

Lemma double_leb_is_nan (a b : float) :
  PrimFloat.leb a b = true -> PrimFloat.is_nan a = false /\ PrimFloat.is_nan b = false.
Proof.
  rewrite FloatAxioms.leb_spec. unfold SFleb. intro H.
  split; apply double_is_nan_spec; intro E; rewrite E in H;
    [|destruct (Prim2SF a)]; simpl in H; discriminate.
Qed.

Lemma double_not_ltb_eqb (a b : float) :
  PrimFloat.is_nan a = false -> PrimFloat.is_nan b = false ->
  PrimFloat.ltb a b = false -> PrimFloat.ltb b a = false -> PrimFloat.eqb a b = true.
Proof.
  intros Ha Hb. apply double_is_nan_spec in Ha. apply double_is_nan_spec in Hb.
  rewrite !FloatAxioms.ltb_spec, FloatAxioms.eqb_spec. unfold SFltb, SFeqb.
  rewrite (SFcompare_antisym (Prim2SF a) (Prim2SF b)).
  destruct (SFcompare_total _ _ Ha Hb) as [c ->].
  destruct c; simpl; congruence.
Qed.

Lemma double_eqb_refl (a : float) : PrimFloat.is_nan a = false -> PrimFloat.eqb a a = true.
Proof.
  unfold PrimFloat.is_nan. rewrite negb_false_iff. trivial.
Qed.

Lemma below_60_not_above_200 (bpm : float) :
  PrimFloat.ltb bpm 60 = true -> PrimFloat.ltb 200 bpm = false.
Proof.
  rewrite !FloatAxioms.ltb_spec. unfold SFltb.
  replace (Prim2SF 60) with (S754_finite false 8444249301319680 (-47))
    by (vm_compute; reflexivity).
  replace (Prim2SF 200) with (S754_finite false 7036874417766400 (-45))
    by (vm_compute; reflexivity).
  destruct (Prim2SF bpm) as [s|s| |s m e]; unfold SFcompare; try reflexivity.
  - destruct s; intro H; [reflexivity | discriminate].
  - destruct s; [reflexivity|].
    destruct (Z.compare_spec e (-47)), (Z.compare_spec (-45) e);
      try reflexivity; try lia; intro H; try discriminate.
Qed.

(** *** The clamp of [setBPM] on binary64 *)

Lemma setBPM_double (bpm : float) :
  PrimFloat.is_nan bpm = false ->
  let bpm' := fst (Double.setBPM bpm) in
  PrimFloat.leb 60 bpm' = true /\ PrimFloat.leb bpm' 200 = true
  /\ (PrimFloat.ltb bpm 60 = true -> bpm' = 60%float)
  /\ (PrimFloat.ltb 200 bpm = true -> bpm' = 200%float)
  /\ (PrimFloat.leb 60 bpm = true -> PrimFloat.leb bpm 200 = true ->
      PrimFloat.eqb bpm' bpm = true)
  /\ snd (Double.setBPM bpm) = (60000 / bpm')%float.
Proof.
  intro Hn. cbv zeta. unfold Double.setBPM. cbn [fst snd].
  unfold Double.Math_min.
  change (PrimFloat.is_nan 200) with false. rewrite Hn. cbn [orb].
  change (PrimFloat.get_sign 200) with false.
  destruct (PrimFloat.ltb 200 bpm) eqn:E1.
  - change (Double.Math_max 60 200) with 200%float.
    repeat split; try reflexivity.
    + intro H. apply below_60_not_above_200 in H. congruence.
    + intros _ H. apply double_leb_not_ltb in H. congruence.
  - assert (Hmin : (if PrimFloat.ltb bpm 200 then bpm else bpm) = bpm)
      by (destruct (PrimFloat.ltb bpm 200); reflexivity).
    rewrite Hmin. clear Hmin.
    pose proof (double_not_ltb_leb 200 bpm eq_refl Hn E1) as Hle.
    unfold Double.Math_max.
    change (PrimFloat.is_nan 60) with false. rewrite Hn. cbn [orb].
    change (PrimFloat.get_sign 60) with false.
    destruct (PrimFloat.ltb 60 bpm) eqn:E2.
    + repeat split; try assumption.
      * now apply double_ltb_leb.
      * intro H. apply double_ltb_asym in H. congruence.
      * intro H. discriminate.
      * intros _ _. now apply double_eqb_refl.
    + assert (Hmax : (if PrimFloat.ltb bpm 60 then 60 else 60)%float = 60%float)
        by (destruct (PrimFloat.ltb bpm 60); reflexivity).
      rewrite Hmax. clear Hmax.
      repeat split; try reflexivity.
      * intro H. discriminate.
      * intros H _. apply double_leb_not_ltb in H.
        apply double_not_ltb_eqb; [reflexivity | exact Hn | exact E2 | exact H].
Qed.

Section TempoAndIngestion.

Variable Math_sqrt : Q -> Q.

Lemma feedAudio_fields now bass mid high e :
  let e' := feedAudio Math_sqrt now bass mid high e in
  state e' = state e
  /\ framePool e' = framePool e
  /\ audioBuffer e' =
       AudioLookaheadBuffer.push
         (Sample.mk bass mid high (bass * 0.5 + mid * 0.3 + high * 0.2) now)
         (audioBuffer e)
  /\ (bpm e' = bpm e \/ exists x, bpm e' = JS.Math_max 60 (JS.Math_min 200 x))
  /\ TransientDetector.lastValue (transientDetector e') = mid + high.
Proof.
  cbv zeta. unfold feedAudio.
  cbn [autoBPM bpmDetector state framePool audioBuffer bpm transientDetector].
  destruct (autoBPM e).
  - destruct (BPMDetector.detectBeat bass now (bpmDetector e)) as [detector' fired].
    destruct fired.
    + destruct (BPMDetector.calculateBPM Math_sqrt detector') as [bpm' confidence].
      destruct (JS.gt confidence 0.5).
      * unfold setBPM.
        cbn [autoBPM bpmDetector state framePool audioBuffer bpm transientDetector].
        pose proof (detect_lastValue (mid + high) (transientDetector e)) as Hl.
        destruct (TransientDetector.detect (mid + high) (transientDetector e));
          simpl in *.
        repeat split; auto. right. now exists bpm'.
      * cbn [autoBPM bpmDetector state framePool audioBuffer bpm transientDetector].
        pose proof (detect_lastValue (mid + high) (transientDetector e)) as Hl.
        destruct (TransientDetector.detect (mid + high) (transientDetector e));
          simpl in *.
        repeat split; auto.
    + cbn [autoBPM bpmDetector state framePool audioBuffer bpm transientDetector].
      pose proof (detect_lastValue (mid + high) (transientDetector e)) as Hl.
      destruct (TransientDetector.detect (mid + high) (transientDetector e));
        simpl in *.
      repeat split; auto.
  - cbn [autoBPM bpmDetector state framePool audioBuffer bpm transientDetector].
    pose proof (detect_lastValue (mid + high) (transientDetector e)) as Hl.
    destruct (TransientDetector.detect (mid + high) (transientDetector e));
      simpl in *.
    repeat split; auto.
Qed.

Lemma transitionTo_tempo nodeId now rnd e :
  tempo_invariant e -> tempo_invariant (transitionTo nodeId now rnd e).
Proof.
  unfold tempo_invariant.
  destruct (transitionTo_audio_side nodeId now rnd e) as (_ & Hb & Hbpm & _).
  rewrite Hb, Hbpm. tauto.
Qed.

Lemma apply_call_tempo e c :
  tempo_invariant e -> tempo_invariant (apply_call Math_sqrt e c).
Proof.
  intros [Hbpm Hsize]. destruct c; simpl.
  - destruct (feedAudio_fields now bass mid high e) as (_ & _ & Hb & Ht & _).
    unfold tempo_invariant. rewrite Hb. split; [|exact Hsize].
    destruct Ht as [-> | [x ->]]; [exact Hbpm | apply clamp_60_200].
  - unfold tempo_invariant.
    destruct (update_audio_side now deltaTime rnd e) as (_ & Hb & Hb' & _).
    rewrite Hb, Hb'. tauto.
  - split; [apply clamp_60_200 | exact Hsize].
  - split; assumption.
  - split; assumption.
  - apply transitionTo_tempo. split; assumption.
  - split; assumption.
  - unfold triggerGlitch. destruct (_ <? _)%nat; split; assumption.
  - split; assumption.
Qed.

Lemma reachable_tempo e : reachable Math_sqrt e -> tempo_invariant e.
Proof.
  intros [calls ->]. induction calls as [|c calls IH] using rev_ind.
  - split; [simpl; lra | reflexivity].
  - unfold run in *. rewrite fold_left_app. simpl.
    apply apply_call_tempo. exact IH.
Qed.

(** C9 (amended).  On every engine a program can hold through calls with
    finite arguments, [getBPM] is within [[60, 200]]; [setBPM] adopts a finite
    argument clamped to [[60, 200]]; [feedAudio] stores [bass], [mid] and
    [high] in the buffer exactly as given, with the energy computed from them,
    and hands [mid + high] to the transient detector as given: nothing is
    clamped on ingestion.  On binary64, [setBPM] clamps every argument other
    than NaN, the infinities included: what it stores is within [[60, 200]],
    is 60 for an argument below 60, 200 for one above 200 and the argument
    itself in between, and the beat duration is 60000 divided by it.  NaN is
    not clamped: [setBPM(NaN)] stores NaN as tempo and as beat duration. *)
Theorem setBPM_clamps_and_feedAudio_stores_as_given (e : KineticEngine.t) :
  reachable Math_sqrt e ->
  60 <= getBPM e <= 200
  /\ (forall x, getBPM (setBPM x e) == clamp x 60 200
                /\ 60 <= getBPM (setBPM x e) <= 200)
  /\ (forall now bass mid high,
        let e' := feedAudio Math_sqrt now bass mid high e in
        AudioLookaheadBuffer.getCurrent (audioBuffer e') =
          Some (Sample.mk bass mid high (bass * 0.5 + mid * 0.3 + high * 0.2) now)
        /\ TransientDetector.lastValue (transientDetector e') = mid + high
        /\ 60 <= getBPM e' <= 200)
  /\ (forall bpm : float,
        PrimFloat.is_nan bpm = false ->
        let bpm' := fst (Double.setBPM bpm) in
        PrimFloat.leb 60 bpm' = true /\ PrimFloat.leb bpm' 200 = true
        /\ (PrimFloat.ltb bpm 60 = true -> bpm' = 60%float)
        /\ (PrimFloat.ltb 200 bpm = true -> bpm' = 200%float)
        /\ (PrimFloat.leb 60 bpm = true -> PrimFloat.leb bpm 200 = true ->
            PrimFloat.eqb bpm' bpm = true)
        /\ snd (Double.setBPM bpm) = (60000 / bpm')%float)
  /\ Double.setBPM PrimFloat.infinity = (200%float, 300%float)
  /\ Double.setBPM PrimFloat.neg_infinity = (60%float, 1000%float)
  /\ Double.setBPM PrimFloat.nan = (PrimFloat.nan, PrimFloat.nan).
Proof.
  intro Hr. pose proof (reachable_tempo e Hr) as [Hbpm Hsize].
  split; [exact Hbpm|]. split; [|split; [|split; [|repeat split]]].
  - intro x. unfold getBPM, setBPM; simpl. apply clamp_60_200.
  - intros now bass mid high e'.
    destruct (feedAudio_fields now bass mid high e) as (_ & _ & Hb & _ & Hl).
    fold e' in Hb, Hl. split; [|split; [exact Hl|]].
    + rewrite Hb. apply getCurrent_push. rewrite Hsize. lia.
    + assert (Hr' : reachable Math_sqrt e').
      { destruct Hr as [calls ->].
        exists (calls ++ [CallFeedAudio now bass mid high]).
        unfold run. rewrite fold_left_app. reflexivity. }
      apply (reachable_tempo e' Hr').
  - apply setBPM_double.
Qed.

End TempoAndIngestion.

Lemma setBPM_clamps_and_feedAudio_stores_as_given_witness :
  getBPM (setBPM 500 create) == 200
  /\ AudioLookaheadBuffer.getCurrent
       (audioBuffer (feedAudio sqrt_milli 1000 0.5 0.25 1 create))
     = Some (Sample.mk 0.5 0.25 1 (0.5 * 0.5 + 0.25 * 0.3 + 1 * 0.2) 1000).
Proof.
  destruct (setBPM_clamps_and_feedAudio_stores_as_given
              sqrt_milli create (ex_intro _ [] eq_refl)) as (_ & Hset & Hfeed & _).
  split.
  - destruct (Hset 500) as [Hc _]. rewrite Hc. vm_compute. reflexivity.
  - apply Hfeed.
Defined.

(** C9, as stated, fails for [feedAudio]: fed bass 1.5, mid -0.2 and high 2,
    it stores exactly these values; none is brought into [[0, 1]]. *)
Lemma feedAudio_does_not_clamp :
  match AudioLookaheadBuffer.getCurrent
          (audioBuffer (feedAudio sqrt_milli 1000 1.5 (-0.2) 2 create)) with
  | Some s => 1 < Sample.bass s /\ Sample.mid s < 0 /\ 1 < Sample.high s
  | None => False
  end.
Proof. vm_compute. repeat split. Qed.

(** ** C4: fallbacks of the energy buckets *)










(** ** C7: the transient detector *)

Lemma tl_skipn {A : Type} (k : nat) (l : list A) : tl (skipn k l) = skipn (S k) l.
Proof.
  replace (S k) with (1 + k)%nat by reflexivity.
  rewrite <- skipn_skipn. destruct (skipn k l); reflexivity.
Qed.

Lemma length_slice_last {A : Type} (n : nat) (l : list A) :
  length (JS.slice_last n l) = Nat.min n (length l).
Proof. unfold JS.slice_last. rewrite length_skipn. lia. Qed.

(** A bounded window that held the last [n] values holds them still after
    one more push. *)
Lemma push_bounded_slice_last {A : Type} (n : nat) (xs : list A) (x : A) :
  (1 <= n)%nat ->
  JS.push_bounded n (JS.slice_last n xs) x = JS.slice_last n (xs ++ [x]).
Proof.
  intro Hn. unfold JS.push_bounded, JS.shift.
  rewrite length_app, length_slice_last. simpl length.
  unfold JS.slice_last. rewrite length_app. simpl length.
  destruct (Nat.ltb_spec n (Nat.min n (length xs) + 1)) as [Hfull | Hroom].
  - assert (Hlen : (n <= length xs)%nat) by lia.
    replace (length xs + 1 - n)%nat with (S (length xs - n)) by lia.
    rewrite <- tl_skipn, skipn_app.
    replace (length xs - n - length xs)%nat with 0%nat by lia.
    reflexivity.
  - replace (length xs - n)%nat with 0%nat by lia.
    replace (length xs + 1 - n)%nat with 0%nat by lia.
    reflexivity.
Qed.

Lemma feed_transient_app xs x d :
  feed_transient (xs ++ [x]) d
  = fst (Double.TransientDetector.detect x (feed_transient xs d)).
Proof. unfold feed_transient. rewrite fold_left_app. reflexivity. Qed.

Lemma detect_state value d :
  fst (Double.TransientDetector.detect value d)
  = Double.TransientDetector.mk
      (JS.push_bounded Double.TransientDetector.windowSize
                       (Double.TransientDetector.history d) value)
      value.
Proof.
  unfold Double.TransientDetector.detect. destruct (_ <? _)%nat; reflexivity.
Qed.

(** The detector after a stream: the window is the last 8 samples, the
    remembered value the last one. *)
Lemma feed_transient_state xs :
  feed_transient xs Double.TransientDetector.init
  = Double.TransientDetector.mk (JS.slice_last 8 xs) (last xs 0%float).
Proof.
  induction xs as [|x xs IH] using rev_ind.
  - reflexivity.
  - rewrite feed_transient_app, detect_state, IH.
    cbn [Double.TransientDetector.history].
    unfold Double.TransientDetector.windowSize.
    rewrite push_bounded_slice_last by lia. rewrite last_last. reflexivity.
Qed.

Lemma slice_init_slice_last {A : Type} (n : nat) (xs : list A) (v : A) :
  (n <= length xs)%nat ->
  JS.slice_init (JS.slice_last (S n) (xs ++ [v])) = JS.slice_last n xs.
Proof.
  intro H. unfold JS.slice_init, JS.slice_last.
  rewrite length_app. simpl length.
  replace (length xs + 1 - S n)%nat with (length xs - n)%nat by lia.
  rewrite skipn_app.
  replace (length xs - n - length xs)%nat with 0%nat by lia.
  simpl skipn at 2. apply removelast_last.
Qed.

(** One call of [detect] after the stream [xs]. *)
Lemma detect_after_stream xs v :
  snd (Double.TransientDetector.detect v (feed_transient xs Double.TransientDetector.init))
  = (7 <=? length xs)%nat
    && (Double.gt (v / (Double.sum (JS.slice_last 7 xs) / 7 + 0.01))%float 2%float
        && Double.gt v 0.3%float
        && Double.gt (v - last xs 0%float)%float 0.15%float).
Proof.
  rewrite feed_transient_state. unfold Double.TransientDetector.detect.
  cbn [Double.TransientDetector.history Double.TransientDetector.lastValue].
  unfold Double.TransientDetector.windowSize.
  rewrite push_bounded_slice_last by lia.
  rewrite length_slice_last, length_app. simpl length.
  destruct (Nat.leb_spec 7 (length xs)) as [Hwarm | Hcold].
  - replace (Nat.min 8 (length xs + 1) <? 8)%nat with false
      by (symmetry; apply Nat.ltb_ge; lia).
    rewrite slice_init_slice_last by exact Hwarm. reflexivity.
  - replace (Nat.min 8 (length xs + 1) <? 8)%nat with true
      by (symmetry; apply Nat.ltb_lt; lia).
    reflexivity.
Qed.

(** C7 (amended).  All arithmetic being that of binary64: after a stream
    [xs] of samples, [detect v] returns false while fewer than 7 samples came
    before (8 with [v]), and otherwise returns true exactly when all three
    hold: [v] divided by (the average of the 7 preceding samples plus 0.01)
    exceeds 2.0; [v] minus the previous sample exceeds 0.15; [v] exceeds 0.3.
    It fires on 0.9 after seven and after ten samples of 0.1, and on 0.9
    after seven samples near 0.1; it never fires along the ramp
    [0.1 + (0.8 * i / 20)], [i = 0 .. 20]. *)
Theorem transient_fires_iff_ratio_delta_level (xs : list float) (v : float) :
  let d := feed_transient xs Double.TransientDetector.init in
  let avg := (Double.sum (JS.slice_last 7 xs) / 7)%float in
  let prev := last xs 0%float in
  ((length xs < 7)%nat -> snd (Double.TransientDetector.detect v d) = false)
  /\ (snd (Double.TransientDetector.detect v d) = true <->
      (7 <= length xs)%nat
      /\ Double.gt (v / (avg + 0.01))%float 2%float = true
      /\ Double.gt (v - prev)%float 0.15%float = true
      /\ Double.gt v 0.3%float = true)
  /\ snd (Double.TransientDetector.detect 0.9%float
            (feed_transient (repeat 0.1%float 7) Double.TransientDetector.init))
     = true
  /\ snd (Double.TransientDetector.detect 0.9%float
            (feed_transient (repeat 0.1%float 10) Double.TransientDetector.init))
     = true
  /\ snd (Double.TransientDetector.detect 0.9%float
            (feed_transient [0.08; 0.12; 0.1; 0.09; 0.11; 0.1; 0.12]%float
                            Double.TransientDetector.init))
     = true
  /\ transient_outputs ramp Double.TransientDetector.init = repeat false 21.
Proof.
  cbv zeta.
  split; [|split; [|split; [|split; [|split]]]].
  - intro Hshort. rewrite detect_after_stream.
    replace (7 <=? length xs)%nat with false by (symmetry; apply Nat.leb_gt; lia).
    reflexivity.
  - rewrite detect_after_stream.
    rewrite !andb_true_iff, Nat.leb_le. tauto.
  - vm_compute. reflexivity.
  - vm_compute. reflexivity.
  - vm_compute. reflexivity.
  - vm_compute. reflexivity.
Qed.

(** Three runs on which binary64 decides.  After six zeros and 0.3 the
    value 0.45 fires: [0.45 - 0.3] evaluates to 0.15000000000000002, above
    the constant 0.15.  After seven samples of 0.15 the value 0.32 does not
    fire: the seven samples sum to 1.0499999999999998 and the ratio stays
    below 2.  After six zeros and -0.07 the divisor is 0 and the ratio
    infinite, so 0.9 fires. *)
Lemma transient_fires_iff_ratio_delta_level_witness :
  snd (Double.TransientDetector.detect 0.45%float
         (feed_transient [0; 0; 0; 0; 0; 0; 0.3]%float Double.TransientDetector.init))
  = true
  /\ snd (Double.TransientDetector.detect 0.32%float
            (feed_transient (repeat 0.15%float 7) Double.TransientDetector.init))
     = false
  /\ snd (Double.TransientDetector.detect 0.9%float
            (feed_transient [0; 0; 0; 0; 0; 0; -0.07]%float
                            Double.TransientDetector.init))
     = true
  /\ snd (Double.TransientDetector.detect 0.9%float
            (feed_transient [0.1; 0.1; 0.1]%float Double.TransientDetector.init))
     = false.
Proof.
  split; [|split; [|split]].
  - destruct (transient_fires_iff_ratio_delta_level [0; 0; 0; 0; 0; 0; 0.3]%float
                                                    0.45%float) as (_ & Hiff & _).
    apply Hiff. split; [simpl; lia|]. vm_compute. repeat split.
  - destruct (transient_fires_iff_ratio_delta_level (repeat 0.15%float 7) 0.32%float)
      as (_ & Hiff & _).
    destruct (snd (Double.TransientDetector.detect 0.32%float
                     (feed_transient (repeat 0.15%float 7)
                                     Double.TransientDetector.init)));
      [|reflexivity].
    destruct Hiff as [Hiff _]. destruct (Hiff eq_refl) as (_ & Hratio & _).
    vm_compute in Hratio. discriminate Hratio.
  - destruct (transient_fires_iff_ratio_delta_level [0; 0; 0; 0; 0; 0; -0.07]%float
                                                    0.9%float) as (_ & Hiff & _).
    apply Hiff. split; [simpl; lia|]. vm_compute. repeat split.
  - destruct (transient_fires_iff_ratio_delta_level [0.1; 0.1; 0.1]%float 0.9%float)
      as (Hshort & _).
    apply Hshort. simpl. lia.
Defined.

(** C7, as stated, fails: after seven samples of 0.2 the value 0.41 exceeds
    2.0 times their average, exceeds the previous sample by more than 0.15
    and exceeds 0.3, with 8 samples observed, yet [detect] returns false: the
    ratio gate divides by the average plus 0.01. *)
Lemma transient_gate_is_not_twice_the_average :
  Double.gt 0.41%float
            (2 * (Double.sum (JS.slice_last 7 (repeat 0.2%float 7)) / 7))%float = true
  /\ Double.gt (0.41 - last (repeat 0.2%float 7) 0)%float 0.15%float = true
  /\ Double.gt 0.41%float 0.3%float = true
  /\ length (repeat 0.2%float 7 ++ [0.41%float]) = 8%nat
  /\ snd (Double.TransientDetector.detect 0.41%float
            (feed_transient (repeat 0.2%float 7) Double.TransientDetector.init))
     = false.
Proof. vm_compute. repeat split. Qed.

(** ** C3: [calculateBPM] *)

(** *** The surviving intervals *)

Lemma collect_intervals_surviving rest : forall prev,
  BPMDetector.collect_intervals prev rest = surviving (prev :: rest).
Proof.
  induction rest as [|cur rest IH]; intro prev.
  - reflexivity.
  - unfold surviving, beat_gaps in *. simpl. rewrite IH.
    unfold BPMDetector.minInterval, BPMDetector.maxInterval. reflexivity.
Qed.

Lemma intervals_of_surviving times :
  BPMDetector.intervals_of times = surviving times.
Proof.
  destruct times as [|t0 rest]; [reflexivity|].
  apply collect_intervals_surviving.
Qed.

(** *** Sorting *)

Lemma insert_asc_perm x l : Permutation (BPMDetector.insert_asc x l) (x :: l).
Proof.
  induction l as [|y l IH]; simpl.
  - apply Permutation_refl.
  - destruct (x <=? y)%Z.
    + apply Permutation_refl.
    + apply perm_trans with (y :: x :: l); [now apply perm_skip | apply perm_swap].
Qed.

Lemma sort_asc_perm l : Permutation (BPMDetector.sort_asc l) l.
Proof.
  induction l as [|x l IH]; simpl.
  - apply perm_nil.
  - apply perm_trans with (x :: BPMDetector.sort_asc l).
    + apply insert_asc_perm.
    + now apply perm_skip.
Qed.

Lemma insert_asc_sorted x l :
  StronglySorted Z.le l -> StronglySorted Z.le (BPMDetector.insert_asc x l).
Proof.
  induction 1 as [|y l Hs IH Hall]; simpl.
  - repeat constructor.
  - destruct (Z.leb_spec x y) as [Hle | Hgt].
    + constructor; [now constructor|].
      constructor; [exact Hle|].
      eapply Forall_impl; [|exact Hall]. intros z Hz. simpl in Hz. lia.
    + constructor; [exact IH|].
      eapply Permutation_Forall; [apply Permutation_sym, insert_asc_perm|].
      constructor; [lia | exact Hall].
Qed.

Lemma sort_asc_sorted l : StronglySorted Z.le (BPMDetector.sort_asc l).
Proof.
  induction l as [|x l IH]; simpl.
  - constructor.
  - now apply insert_asc_sorted.
Qed.

(** *** Rank of an element of a sorted list *)

Lemma count_lt_none m l : Forall (fun x => (m <= x)%Z) l -> count_lt m l = 0%nat.
Proof.
  unfold count_lt. induction 1 as [|x l Hx _ IH]; simpl; [reflexivity|].
  destruct (Z.ltb_spec x m); [lia | exact IH].
Qed.

Lemma sorted_rank l : StronglySorted Z.le l -> forall k,
  (k < length l)%nat ->
  (count_lt (nth k l 0%Z) l <= k < count_le (nth k l 0%Z) l)%nat.
Proof.
  induction 1 as [|a l Hs IH Hall]; intros k Hk; simpl in Hk; [lia|].
  destruct k as [|k]; simpl nth.
  - unfold count_lt, count_le. simpl filter.
    rewrite Z.ltb_irrefl, Z.leb_refl. simpl length.
    fold (count_lt a l). rewrite (count_lt_none a l Hall). lia.
  - assert (Hk' : (k < length l)%nat) by lia.
    specialize (IH k Hk').
    assert (Ha : (a <= nth k l 0)%Z).
    { rewrite Forall_forall in Hall. apply Hall. now apply nth_In. }
    unfold count_lt, count_le in *. simpl filter.
    apply Z.leb_le in Ha. rewrite Ha. simpl length.
    destruct (a <? nth k l 0)%Z; simpl length; lia.
Qed.

Lemma filter_length_perm {A : Type} (f : A -> bool) (l l' : list A) :
  Permutation l l' -> length (filter f l) = length (filter f l').
Proof.
  induction 1 as [|x l l' _ IH|x y l|l l' l'' _ IH1 _ IH2]; simpl.
  - reflexivity.
  - destruct (f x); simpl; congruence.
  - destruct (f x), (f y); reflexivity.
  - congruence.
Qed.

(** The element [calculateBPM] reads after sorting is the upper median. *)
Lemma sorted_middle_is_upper_median l :
  l <> [] ->
  is_upper_median (nth (Nat.div (length (BPMDetector.sort_asc l)) 2)
                 (BPMDetector.sort_asc l) 0%Z) l.
Proof.
  intro Hne.
  pose proof (sort_asc_perm l) as Hperm.
  pose proof (Permutation_length Hperm) as Hlen.
  assert (Hpos : (0 < length l)%nat) by (destruct l; [congruence | simpl; lia]).
  assert (Hk : (Nat.div (length (BPMDetector.sort_asc l)) 2
                < length (BPMDetector.sort_asc l))%nat).
  { rewrite Hlen. apply Nat.div_lt; lia. }
  pose proof (sorted_rank _ (sort_asc_sorted l) _ Hk) as Hrank.
  split.
  - eapply Permutation_in; [exact Hperm|]. now apply nth_In.
  - unfold count_lt, count_le in *.
    rewrite <- !(filter_length_perm _ _ _ Hperm), <- Hlen at 1.
    rewrite <- Hlen. exact Hrank.
Qed.

(** The counting characterisation pins the upper median down. *)
Lemma count_le_lt m m' l : (m < m')%Z -> (count_le m l <= count_lt m' l)%nat.
Proof.
  intro H. unfold count_le, count_lt.
  induction l as [|x l IH]; simpl; [lia|].
  destruct (Z.leb_spec x m), (Z.ltb_spec x m'); simpl; lia.
Qed.

Lemma is_upper_median_unique m m' l :
  is_upper_median m l -> is_upper_median m' l -> m = m'.
Proof.
  intros [_ H] [_ H'].
  destruct (Z.lt_trichotomy m m') as [Hlt | [Heq | Hgt]]; [|exact Heq|].
  - pose proof (count_le_lt m m' l Hlt). lia.
  - pose proof (count_le_lt m' m l Hgt). lia.
Qed.

(** *** Sums do not depend on the order *)

Lemma Zsum_fold_right l : forall acc,
  fold_left Z.add l acc = (acc + Zsum_list l)%Z.
Proof.
  induction l as [|x l IH]; intro acc; simpl.
  - lia.
  - rewrite IH. unfold Zsum_list. lia.
Qed.

Lemma Zsum_list_perm l l' : Permutation l l' -> Zsum_list l = Zsum_list l'.
Proof.
  unfold Zsum_list.
  induction 1 as [|x l l' _ IH|x y l|l l' l'' _ IH1 _ IH2]; simpl; lia.
Qed.

Lemma Zsum_sorted l : BPMDetector.Zsum (BPMDetector.sort_asc l) = Zsum_list l.
Proof.
  unfold BPMDetector.Zsum. rewrite Zsum_fold_right.
  rewrite (Zsum_list_perm _ _ (sort_asc_perm l)). lia.
Qed.

(** Addition and multiplication of rationals commute and associate on the
    representations themselves, not only up to [==]. *)
Lemma Qplus_comm_eq (x y : Q) : x + y = y + x.
Proof.
  destruct x as [a b], y as [c d]. unfold Qplus; simpl.
  f_equal; [lia | apply Pos.mul_comm].
Qed.

Lemma Qplus_assoc_eq (x y z : Q) : x + (y + z) = (x + y) + z.
Proof.
  destruct x as [a b], y as [c d], z as [g h]. unfold Qplus; simpl.
  f_equal; [|apply Pos.mul_assoc].
  rewrite !Pos2Z.inj_mul. ring.
Qed.

Lemma Qplus_0_r_eq (x : Q) : x + 0 = x.
Proof.
  destruct x as [a b]. unfold Qplus; simpl.
  f_equal; [lia | apply Pos.mul_1_r].
Qed.

Lemma Qmult_comm_eq (x y : Q) : x * y = y * x.
Proof.
  destruct x as [a b], y as [c d]. unfold Qmult; simpl.
  f_equal; [apply Z.mul_comm | apply Pos.mul_comm].
Qed.

Lemma Qsum_fold_left (g : Z -> Q) l : forall acc,
  fold_left (fun sum val => sum + g val) l acc = acc + Qsum_list (map g l).
Proof.
  induction l as [|x l IH]; intro acc; simpl.
  - symmetry. apply Qplus_0_r_eq.
  - rewrite IH. symmetry. apply Qplus_assoc_eq.
Qed.

Lemma Qsum_list_perm (l l' : list Q) :
  Permutation l l' -> Qsum_list l = Qsum_list l'.
Proof.
  induction 1 as [|x l l' _ IH|x y l|l l' l'' _ IH1 _ IH2]; simpl.
  - reflexivity.
  - now rewrite IH.
  - rewrite !Qplus_assoc_eq. f_equal. apply Qplus_comm_eq.
  - congruence.
Qed.

Lemma mean_sorted l :
  inject_Z (BPMDetector.Zsum (BPMDetector.sort_asc l))
  / inject_Z (Z.of_nat (length (BPMDetector.sort_asc l)))
  = mean l.
Proof.
  unfold mean.
  now rewrite Zsum_sorted, (Permutation_length (sort_asc_perm l)).
Qed.

Lemma variance_sorted l :
  fold_left (fun sum val => sum + (inject_Z val - mean l) ^ 2)
            (BPMDetector.sort_asc l) 0
  / inject_Z (Z.of_nat (length (BPMDetector.sort_asc l)))
  = variance l.
Proof.
  unfold variance.
  rewrite Qsum_fold_left, Qplus_comm_eq, Qplus_0_r_eq.
  rewrite (Qsum_list_perm _ _
             (Permutation_map (fun v => (inject_Z v - mean l) ^ 2) (sort_asc_perm l))).
  now rewrite (Permutation_length (sort_asc_perm l)).
Qed.

(** *** The theorem *)

(** C3 (amended).  [calculateBPM] returns [{bpm: 120, confidence: 0}]
    exactly when fewer than 4 beat times are recorded, and also when fewer
    than 3 inter-beat intervals survive the [[250, 1500]] filter; otherwise
    its bpm is [round (60000 / m)] clamped to [[60, 200]], with [m] the upper
    median of the surviving intervals: the one at index [floor (n / 2)] of the
    [n] surviving intervals in ascending order, which is the median for an odd
    [n] and the upper of the two middle intervals for an even [n] (not their
    mean); its confidence is [clamp (1 - 2 * coefficientOfVariation) 0 1] over
    the surviving intervals. *)
Theorem calculateBPM_median_and_confidence
        (Math_sqrt : Q -> Q) (d : BPMDetector.t) :
  let beats := BPMDetector.beatTimes d in
  let result := BPMDetector.calculateBPM Math_sqrt d in
  ((length beats < 4)%nat -> result = (120, 0))
  /\ ((length (surviving beats) < 3)%nat -> result = (120, 0))
  /\ ((4 <= length beats)%nat -> (3 <= length (surviving beats))%nat ->
      exists m,
        is_upper_median m (surviving beats)
        /\ (Nat.odd (length (surviving beats)) = true ->
            inject_Z m = median (surviving beats))
        /\ fst result ==
             clamp (inject_Z (JS.Math_round (60000 / inject_Z m))) 60 200
        /\ snd result ==
             clamp (1 - 2 * coefficientOfVariation Math_sqrt (surviving beats)) 0 1
        /\ 60 <= fst result <= 200
        /\ 0 <= snd result <= 1).
Proof.
  cbv zeta. unfold BPMDetector.calculateBPM.
  rewrite intervals_of_surviving.
  set (beats := BPMDetector.beatTimes d).
  set (surv := surviving beats).
  destruct (Nat.ltb_spec (length beats) 4) as [Hfew | Hmany].
  - split; [reflexivity|]. split; [reflexivity|]. intros; lia.
  - split; [intro; lia|].
    destruct (Nat.ltb_spec (length surv) 3) as [Hs | Hs].
    + split; [reflexivity|]. intros; lia.
    + split; [intro; lia|]. intros _ _.
      assert (Hne : surv <> []) by (intro E; rewrite E in Hs; simpl in Hs; lia).
      exists (nth (Nat.div (length (BPMDetector.sort_asc surv)) 2)
                  (BPMDetector.sort_asc surv) 0%Z).
      split; [now apply sorted_middle_is_upper_median|].
      split.
      { intro Hodd. unfold median. cbv zeta.
        rewrite (Permutation_length (sort_asc_perm surv)).
        rewrite <- Nat.negb_odd, Hodd. reflexivity. }
      cbn [fst snd].
      rewrite mean_sorted, variance_sorted.
      unfold coefficientOfVariation.
      rewrite (Qmult_comm_eq 2 (Math_sqrt (variance surv) / mean surv)).
      destruct (clamp_max_min 60 200
                  (inject_Z (JS.Math_round
                     (60000 / inject_Z (nth (Nat.div (length (BPMDetector.sort_asc surv)) 2)
                                            (BPMDetector.sort_asc surv) 0%Z)))))
        as [Hb1 Hb2]; [lra|].
      destruct (clamp_max_min 0 1 (1 - Math_sqrt (variance surv) / mean surv * 2))
        as [Hc1 Hc2]; [lra|].
      repeat split; assumption || tauto.
Qed.

Lemma calculateBPM_median_and_confidence_witness :
  BPMDetector.calculateBPM sqrt_milli (BPMDetector.mk [0; 500; 1000]%Z 0 0.6 0.6 [])
  = (120, 0)
  /\ BPMDetector.calculateBPM sqrt_milli
       (BPMDetector.mk [0; 100; 600; 1100; 3000]%Z 0 0.6 0.6 [])
     = (120, 0)
  /\ exists m,
       is_upper_median m (surviving [1000; 1400; 2000; 2400; 3000]%Z)
       /\ fst (BPMDetector.calculateBPM sqrt_milli
                 (BPMDetector.mk [1000; 1400; 2000; 2400; 3000]%Z 3000 0.6 0.6 []))
          == clamp (inject_Z (JS.Math_round (60000 / inject_Z m))) 60 200.
Proof.
  split; [|split].
  - apply (calculateBPM_median_and_confidence sqrt_milli
             (BPMDetector.mk [0; 500; 1000]%Z 0 0.6 0.6 [])).
    simpl. lia.
  - destruct (calculateBPM_median_and_confidence sqrt_milli
                (BPMDetector.mk [0; 100; 600; 1100; 3000]%Z 0 0.6 0.6 []))
      as (_ & Hfew & _).
    apply Hfew. vm_compute. lia.
  - destruct (calculateBPM_median_and_confidence sqrt_milli
                (BPMDetector.mk [1000; 1400; 2000; 2400; 3000]%Z 3000 0.6 0.6 []))
      as (_ & _ & Hmain).
    destruct Hmain as (m & Hm & _ & Hbpm & _).
    + simpl. lia.
    + vm_compute. lia.
    + exists m. split; assumption.
Defined.

(** C3, as stated, fails for an even number of surviving intervals.  Beats
    at 1000, 1400, 2000, 2400 and 3000 ms leave the intervals 400, 600, 400,
    600, whose median is 500, so the bpm claimed is [round (60000 / 500)],
    120; [calculateBPM] reads the upper middle interval, 600, and returns
    100. *)
Lemma calculateBPM_reads_upper_middle_interval :
  surviving [1000; 1400; 2000; 2400; 3000]%Z = [400; 600; 400; 600]%Z
  /\ median (surviving [1000; 1400; 2000; 2400; 3000]%Z) == 500
  /\ clamp (inject_Z (JS.Math_round
                        (60000 / median (surviving [1000; 1400; 2000; 2400; 3000]%Z))))
           60 200
     == 120
  /\ is_upper_median 600 (surviving [1000; 1400; 2000; 2400; 3000]%Z)
  /\ fst (BPMDetector.calculateBPM sqrt_milli
            (BPMDetector.mk [1000; 1400; 2000; 2400; 3000]%Z 3000 0.6 0.6 []))
     == 100.
Proof.
  split; [reflexivity|]. split; [reflexivity|]. split; [reflexivity|].
  split; [|reflexivity].
  split; [simpl; tauto | vm_compute; lia].
Qed.

(** ** C1: audio-driven transitions *)

Lemma includes_node_true arr nodeId : includes_node arr nodeId = true -> In nodeId arr.
Proof.
  unfold includes_node. destruct (in_dec _ _ _); [auto | discriminate].
Qed.

Lemma selectTarget_in mode bar valid first :
  In first valid -> In (selectTarget mode bar valid first) valid.
Proof.
  intro Hf. unfold selectTarget.
  destruct mode; try destruct (Z.rem bar 2 =? 0)%Z;
    repeat match goal with
           | |- In (if includes_node valid ?n then _ else _) valid =>
               let E := fresh "E" in
               destruct (includes_node valid n) eqn:E;
               [apply includes_node_true; exact E|]
           end;
    exact Hf.
Qed.

Lemma validTransitions_empty energy node :
  validTransitions energy node = [] ->
  forall X, In X (possibleTransitions node) ->
            energy < energyRequirement (KINETIC_GRAPH X).
Proof.
  unfold validTransitions. intros Hnil X HX.
  destruct (JS.ge energy (energyRequirement (KINETIC_GRAPH X))) eqn:E.
  - assert (Hin : In X (filter (fun nodeId =>
                                  JS.ge energy (energyRequirement (KINETIC_GRAPH nodeId)))
                               (possibleTransitions node)))
      by (apply filter_In; auto).
    rewrite Hnil in Hin. destruct Hin.
  - apply Qnot_le_lt. intro Hle. apply ge_true in Hle. congruence.
Qed.

(** The target handed to [transitionTo] is a permitted successor whose
    requirement the energy meets, or [idle] by the fall-back. *)
Lemma chosenTarget_sound energy e D :
  chosenTarget energy e = Some D ->
  let N := KINETIC_GRAPH (currentNode (state e)) in
  (In D (possibleTransitions N) /\ energyRequirement (KINETIC_GRAPH D) <= energy)
  \/ (D = idle
      /\ (forall X, In X (possibleTransitions N) ->
                    energy < energyRequirement (KINETIC_GRAPH X))
      /\ energy < exitThreshold N).
Proof.
  unfold chosenTarget. cbv zeta.
  destruct (validTransitions energy (KINETIC_GRAPH (currentNode (state e))))
    as [|first rest] eqn:Ev.
  - destruct (JS.lt energy _) eqn:El; [|discriminate].
    intros [= <-]. right. split; [reflexivity|]. split.
    + now apply validTransitions_empty.
    + now apply lt_true.
  - intros [= <-]. left.
    assert (Hin : In (selectTarget (sequenceMode (state e)) (barCounter (state e))
                                   (first :: rest) first)
                     (first :: rest))
      by (apply selectTarget_in; now left).
    rewrite <- Ev in Hin at 2. unfold validTransitions in Hin.
    apply filter_In in Hin. destruct Hin as [Hs Hge].
    split; [exact Hs | now apply ge_true].
Qed.

Lemma transitionTo_node nodeId now rnd e :
  currentNode (state (transitionTo nodeId now rnd e)) = currentNode (state e)
  \/ currentNode (state (transitionTo nodeId now rnd e)) = nodeId.
Proof.
  unfold transitionTo.
  destruct (frameSelector (KINETIC_GRAPH nodeId) rnd (framePool e));
    [right | left]; reflexivity.
Qed.

Lemma updateCounters_node now e :
  currentNode (state (updateCounters now e)) = currentNode (state e).
Proof. unfold updateCounters. destruct (_ && _); reflexivity. Qed.

Lemma advanceClock_node now deltaTime e :
  currentNode (state (advanceClock now deltaTime e)) = currentNode (state e).
Proof.
  unfold advanceClock; simpl.
  destruct (JS.lt _ _); simpl; destruct (_ && _); reflexivity.
Qed.

(** C1 (amended).  A tick that changes the current node from [N] to [D]
    reads a sample of the buffer, and either [D] is a permitted successor of
    [N] whose energy requirement the sample's energy meets, or [D] is [idle]
    reached by the fall-back: no permitted successor of [N] qualifies and the
    energy is below the exit threshold of [N].  [getState] shows no other
    change of node after a tick. *)
Theorem tick_moves_along_edge_or_falls_back_to_idle
        (now : Z) (deltaTime rnd : Q) (e : KineticEngine.t) :
  let N := currentNode (getState e) in
  let D := currentNode (getState (update now deltaTime rnd e)) in
  D = N
  \/ exists current,
       AudioLookaheadBuffer.getCurrent (audioBuffer e) = Some current
       /\ ((In D (possibleTransitions (KINETIC_GRAPH N))
            /\ energyRequirement (KINETIC_GRAPH D) <= Sample.energy current)
           \/ (D = idle
               /\ (forall X, In X (possibleTransitions (KINETIC_GRAPH N)) ->
                             Sample.energy current < energyRequirement (KINETIC_GRAPH X))
               /\ Sample.energy current < exitThreshold (KINETIC_GRAPH N))).
Proof.
  cbv zeta. unfold getState, update.
  replace (audioBuffer (advanceClock now deltaTime e)) with (audioBuffer e)
    by reflexivity.
  destruct (AudioLookaheadBuffer.getCurrent (audioBuffer e)) as [current|] eqn:Ecur.
  2:{ left. apply advanceClock_node. }
  rewrite updateCounters_node.
  set (e2 := updateSequenceMode _ _ _ _).
  assert (Hn2 : currentNode (state e2) = currentNode (state e)).
  { unfold e2, updateSequenceMode; simpl. apply advanceClock_node. }
  destruct (_ && _); [|now left].
  destruct (_ <=? _)%Z; [|now left].
  rewrite attemptTransition_chosen.
  destruct (chosenTarget (Sample.energy current) e2) as [target|] eqn:Et; [|now left].
  destruct (transitionTo_node target now rnd e2) as [-> | ->]; [now left|].
  right. exists current. split; [reflexivity|].
  pose proof (chosenTarget_sound _ _ _ Et) as Hs. cbv zeta in Hs.
  rewrite Hn2 in Hs. exact Hs.
Qed.

(** C1, as stated, fails on the fall-back: from [groove_center] with energy
    0.1 the tick moves to [idle], which is not among the permitted
    successors of [groove_center]. *)
Lemma fallback_to_idle_is_not_an_edge :
  currentNode (getState groove_center_engine) = groove_center
  /\ option_map (fun s => Qeq_bool (Sample.energy s) 0.1)
                (AudioLookaheadBuffer.getCurrent (audioBuffer groove_center_engine))
     = Some true
  /\ currentNode (getState (update 2000 0.016 0.5 groove_center_engine)) = idle
  /\ ~ In idle (possibleTransitions (KINETIC_GRAPH groove_center)).
Proof.
  repeat split; try (vm_compute; reflexivity).
  simpl. intros [H | [H | [H | [H | [H | []]]]]]; discriminate.
Qed.

(** ** C2: the lock *)

(** Only [closeup] holds for 500 ms or more, and neither of its successors
    nor [idle] does. *)
Lemma long_hold_successors N D :
  (500 <= minDuration (KINETIC_GRAPH N))%Z ->
  In D (possibleTransitions (KINETIC_GRAPH N)) \/ D = idle ->
  (minDuration (KINETIC_GRAPH D) < 500)%Z.
Proof.
  destruct N; simpl; intros H; try lia.
  intros [[<- | [<- | []]] | ->]; simpl; lia.
Qed.

Lemma transitionTo_engages_lock nodeId now rnd e :
  (500 <= minDuration (KINETIC_GRAPH nodeId))%Z ->
  frameSelector (KINETIC_GRAPH nodeId) rnd (framePool e) <> None ->
  let s := state (transitionTo nodeId now rnd e) in
  isLocked s = true
  /\ lockReleaseTime s = (now + minDuration (KINETIC_GRAPH nodeId))%Z
  /\ currentNode s = nodeId.
Proof.
  intros Hlong Hframe. unfold transitionTo.
  destruct (frameSelector (KINETIC_GRAPH nodeId) rnd (framePool e)); [|congruence].
  apply Z.leb_le in Hlong. simpl. rewrite Hlong. auto.
Qed.

Lemma transitionTo_short_keeps_lock nodeId now rnd e :
  (minDuration (KINETIC_GRAPH nodeId) < 500)%Z ->
  isLocked (state (transitionTo nodeId now rnd e)) = isLocked (state e).
Proof.
  intro Hshort. unfold transitionTo.
  destruct (frameSelector (KINETIC_GRAPH nodeId) rnd (framePool e)); [|reflexivity].
  simpl. apply Z.leb_gt in Hshort. rewrite Hshort. reflexivity.
Qed.

(** A tick before the release time of a held lock changes neither the lock
    nor the node. *)
Lemma update_while_locked now deltaTime rnd e :
  isLocked (state e) = true ->
  (now < lockReleaseTime (state e))%Z ->
  let s := state (update now deltaTime rnd e) in
  isLocked s = true
  /\ currentNode s = currentNode (state e)
  /\ lockReleaseTime s = lockReleaseTime (state e)
  /\ currentFrame s = currentFrame (state e)
  /\ lastTransitionTime s = lastTransitionTime (state e).
Proof.
  intros Hl Hnow. cbv zeta. unfold update.
  replace (audioBuffer (advanceClock now deltaTime e)) with (audioBuffer e)
    by reflexivity.
  assert (Hadv : let s := state (advanceClock now deltaTime e) in
                 isLocked s = true
                 /\ currentNode s = currentNode (state e)
                 /\ lockReleaseTime s = lockReleaseTime (state e)
                 /\ currentFrame s = currentFrame (state e)
                 /\ lastTransitionTime s = lastTransitionTime (state e)).
  { unfold advanceClock, with_state, set_isLocked, set_transitionProgress,
      set_beatPos.
    destruct (state e) as [node frame progress style source pos bar phrase last
                           locked release mode]; simpl in *.
    subst locked. apply Z.leb_gt in Hnow.
    destruct (JS.lt progress 1.0); simpl; rewrite Hnow; simpl; auto. }
  cbv zeta in Hadv.
  destruct (AudioLookaheadBuffer.getCurrent (audioBuffer e)) as [current|];
    [|exact Hadv].
  set (e2 := updateSequenceMode _ _ _ _).
  assert (H2 : isLocked (state e2) = true
               /\ currentNode (state e2) = currentNode (state e)
               /\ lockReleaseTime (state e2) = lockReleaseTime (state e)
               /\ currentFrame (state e2) = currentFrame (state e)
               /\ lastTransitionTime (state e2) = lastTransitionTime (state e))
    by exact Hadv.
  destruct H2 as (L2 & N2 & R2 & F2 & T2).
  rewrite L2, andb_false_r.
  unfold updateCounters. destruct (_ && _); simpl; auto.
Qed.

Section Lock.

Variable Math_sqrt : Q -> Q.

(** Any call but [forceState], with ticks before the release time, keeps a
    held lock and the node it guards. *)
Lemma call_while_locked e c :
  isLocked (state e) = true ->
  is_forceState c = false ->
  update_before (lockReleaseTime (state e)) c ->
  let s := state (apply_call Math_sqrt e c) in
  isLocked s = true
  /\ currentNode s = currentNode (state e)
  /\ lockReleaseTime s = lockReleaseTime (state e).
Proof.
  intros Hl Hf Hb. destruct c; simpl in *; try discriminate; auto.
  - destruct (feedAudio_fields Math_sqrt now bass mid high e) as (Hs & _).
    rewrite Hs. auto.
  - destruct (update_while_locked now deltaTime rnd e Hl Hb) as (A & B & C & _).
    auto.
  - unfold triggerGlitch. destruct (_ <? _)%nat; simpl; auto.
Qed.

Lemma run_while_locked calls : forall e,
  isLocked (state e) = true ->
  Forall (fun c => is_forceState c = false
                   /\ update_before (lockReleaseTime (state e)) c) calls ->
  let s := state (run Math_sqrt calls e) in
  isLocked s = true
  /\ currentNode s = currentNode (state e)
  /\ lockReleaseTime s = lockReleaseTime (state e).
Proof.
  induction calls as [|c calls IH]; intros e Hl Hall; cbv zeta.
  - simpl. auto.
  - inversion Hall as [|? ? [Hf Hb] Hall']; subst.
    destruct (call_while_locked e c Hl Hf Hb) as (L1 & N1 & R1).
    simpl. specialize (IH (apply_call Math_sqrt e c) L1).
    cbv zeta in IH. rewrite R1, N1 in IH. apply IH. exact Hall'.
Qed.

(** The first tick at or after the release time of a lock held on a
    long-hold node returns an unlocked state. *)
Lemma update_releases_lock now deltaTime rnd e :
  (500 <= minDuration (KINETIC_GRAPH (currentNode (state e))))%Z ->
  (lockReleaseTime (state e) <= now)%Z ->
  isLocked (state (update now deltaTime rnd e)) = false.
Proof.
  intros Hlong Hnow. unfold update.
  replace (audioBuffer (advanceClock now deltaTime e)) with (audioBuffer e)
    by reflexivity.
  assert (Hadv : isLocked (state (advanceClock now deltaTime e)) = false).
  { unfold advanceClock, with_state, set_isLocked, set_transitionProgress,
      set_beatPos.
    destruct (state e) as [node frame progress style source pos bar phrase last
                           locked release mode]; simpl in *.
    apply Z.leb_le in Hnow.
    destruct (JS.lt progress 1.0); simpl; rewrite Hnow;
      destruct locked; reflexivity. }
  destruct (AudioLookaheadBuffer.getCurrent (audioBuffer e)) as [current|];
    [|exact Hadv].
  set (e2 := updateSequenceMode _ _ _ _).
  assert (L2 : isLocked (state e2) = false) by exact Hadv.
  assert (N2 : currentNode (state e2) = currentNode (state e)).
  { unfold e2, updateSequenceMode; simpl. apply advanceClock_node. }
  assert (Hlock : forall e3, isLocked (state e3) = false ->
                             isLocked (state (updateCounters now e3)) = false).
  { intros e3 H3. unfold updateCounters. destruct (_ && _); simpl; exact H3. }
  apply Hlock.
  destruct (_ && _); [|exact L2].
  destruct (_ <=? _)%Z; [|exact L2].
  rewrite attemptTransition_chosen.
  destruct (chosenTarget (Sample.energy current) e2) as [target|] eqn:Et;
    [|exact L2].
  rewrite transitionTo_short_keeps_lock; [exact L2|].
  apply (long_hold_successors (currentNode (state e))); [exact Hlong|].
  pose proof (chosenTarget_sound _ _ _ Et) as Hs. cbv zeta in Hs.
  rewrite N2 in Hs. destruct Hs as [[Hin _] | [Hidle _]]; auto.
Qed.

(** C2 (amended).  A transition at time [t0] into a node whose minimum
    dwell is at least 500 ms engages the lock with release time
    [t0 + minDuration].  Through any calls other than [forceState] whose
    ticks come before the release time (whatever audio is fed, hence whatever
    the sequence mode), the state stays locked and the current node stays the
    same; the first tick at or after the release time returns an unlocked
    state.  (The lock is tested and released by [update]: a queried time is
    the clock of a tick.) *)
Theorem lock_holds_until_release
        (e : KineticEngine.t) (nodeId : KineticNodeId) (t0 : Z) (rnd : Q) :
  (500 <= minDuration (KINETIC_GRAPH nodeId))%Z ->
  frameSelector (KINETIC_GRAPH nodeId) rnd (framePool e) <> None ->
  let e0 := transitionTo nodeId t0 rnd e in
  let release := (t0 + minDuration (KINETIC_GRAPH nodeId))%Z in
  isLocked (getState e0) = true
  /\ lockReleaseTime (getState e0) = release
  /\ currentNode (getState e0) = nodeId
  /\ forall calls,
       Forall (fun c => is_forceState c = false /\ update_before release c) calls ->
       let e1 := run Math_sqrt calls e0 in
       isLocked (getState e1) = true
       /\ currentNode (getState e1) = nodeId
       /\ lockReleaseTime (getState e1) = release
       /\ forall now deltaTime rnd',
            (release <= now)%Z ->
            isLocked (getState (update now deltaTime rnd' e1)) = false.
Proof.
  intros Hlong Hframe e0 release. unfold getState.
  destruct (transitionTo_engages_lock nodeId t0 rnd e Hlong Hframe) as (L0 & R0 & N0).
  fold e0 in L0, R0, N0. fold release in R0.
  split; [exact L0|]. split; [exact R0|]. split; [exact N0|].
  intros calls Hall. rewrite <- R0 in Hall.
  destruct (run_while_locked calls e0 L0 Hall) as (L1 & N1 & R1).
  cbv zeta.
  split; [exact L1|]. split; [congruence|]. split; [congruence|].
  intros now deltaTime rnd' Hnow.
  apply update_releases_lock.
  - rewrite N1, N0. exact Hlong.
  - rewrite R1, R0. exact Hnow.
Qed.

End Lock.

Lemma lock_holds_until_release_witness :
  isLocked (getState (transitionTo closeup 1000 0.5
                        (loadFramePool [low_frame; closeup_frame] create)))
  = true
  /\ currentNode
       (getState
          (run sqrt_milli
               [CallFeedAudio 1100 0.9 0.9 0.9; CallUpdate 1250 0.016 0.5;
                CallTriggerStutter; CallUpdate 1499 0.016 0.5]
               (transitionTo closeup 1000 0.5
                  (loadFramePool [low_frame; closeup_frame] create))))
     = closeup
  /\ isLocked
       (getState
          (update 1500 0.016 0.5
             (run sqrt_milli
                  [CallFeedAudio 1100 0.9 0.9 0.9; CallUpdate 1250 0.016 0.5;
                   CallTriggerStutter; CallUpdate 1499 0.016 0.5]
                  (transitionTo closeup 1000 0.5
                     (loadFramePool [low_frame; closeup_frame] create)))))
     = false.
Proof.
  destruct (lock_holds_until_release sqrt_milli
              (loadFramePool [low_frame; closeup_frame] create) closeup 1000 0.5)
    as (Hl & _ & _ & Hrun).
  - simpl. lia.
  - discriminate.
  - split; [exact Hl|].
    destruct (Hrun [CallFeedAudio 1100 0.9 0.9 0.9; CallUpdate 1250 0.016 0.5;
                    CallTriggerStutter; CallUpdate 1499 0.016 0.5])
      as (_ & Hn & _ & Hrel).
    + repeat constructor; simpl; lia.
    + split; [exact Hn|]. apply Hrel. simpl. lia.
Defined.

(** C2, as stated, fails for [forceState]: with the lock engaged by the
    tick at 2000 (release at 2500), [forceState idle] at 2200 changes the
    current node from [closeup] to [idle] while the state is still locked. *)
Lemma forceState_ignores_lock :
  currentNode (getState closeup_locked_engine) = closeup
  /\ isLocked (getState closeup_locked_engine) = true
  /\ lockReleaseTime (getState closeup_locked_engine) = 2500%Z
  /\ currentNode (getState (forceState idle 2200 0.5 closeup_locked_engine)) = idle
  /\ isLocked (getState (forceState idle 2200 0.5 closeup_locked_engine)) = true.
Proof. repeat split; vm_compute; reflexivity. Qed.

(** * Further properties of the engine's parts *)

(** ** The lookahead buffer as a window *)

Lemma push_all_app samples s b :
  push_all (samples ++ [s]) b = AudioLookaheadBuffer.push s (push_all samples b).
Proof. unfold push_all. rewrite fold_left_app. reflexivity. Qed.

Lemma slice_last_nil {A : Type} (n : nat) : JS.slice_last n (@nil A) = [].
Proof. reflexivity. Qed.

Lemma slice_last_last {A : Type} (n : nat) (pre : list A) (x : A) :
  (1 <= n)%nat -> exists pre', JS.slice_last n (pre ++ [x]) = pre' ++ [x].
Proof.
  intro Hn. unfold JS.slice_last. rewrite length_app. simpl length.
  rewrite skipn_app.
  replace (length pre + 1 - n - length pre)%nat with 0%nat by lia.
  now exists (skipn (length pre + 1 - n) pre).
Qed.

(** X1.  A buffer created with room for at least one sample holds, after
    any stream of pushes, exactly the last [bufferSize] samples of the stream
    in order, and its energy history the last 120 energies; [getCurrent] is
    the sample pushed last, and nothing when nothing was pushed. *)
Theorem lookahead_buffer_is_sliding_window
        (lookaheadMs sampleRate : Q) (samples : list AudioSample) :
  let fresh := AudioLookaheadBuffer.create lookaheadMs sampleRate in
  let n := AudioLookaheadBuffer.bufferSize fresh in
  let b := push_all samples fresh in
  (1 <= n)%nat ->
  AudioLookaheadBuffer.buffer b = JS.slice_last n samples
  /\ AudioLookaheadBuffer.getEnergyHistory b
     = JS.slice_last 120 (map Sample.energy samples)
  /\ AudioLookaheadBuffer.bufferSize b = n
  /\ (length (AudioLookaheadBuffer.buffer b) <= n)%nat
  /\ (length (AudioLookaheadBuffer.getEnergyHistory b) <= 120)%nat
  /\ AudioLookaheadBuffer.getCurrent b = nth_error samples (length samples - 1).
Proof.
  cbv zeta. intro Hn.
  set (fresh := AudioLookaheadBuffer.create lookaheadMs sampleRate) in *.
  set (n := AudioLookaheadBuffer.bufferSize fresh) in *.
  assert (Hwin : AudioLookaheadBuffer.buffer (push_all samples fresh)
                 = JS.slice_last n samples
                 /\ AudioLookaheadBuffer.peakHistory (push_all samples fresh)
                    = JS.slice_last 120 (map Sample.energy samples)
                 /\ AudioLookaheadBuffer.bufferSize (push_all samples fresh) = n).
  { induction samples as [|s samples IH] using rev_ind.
    - repeat split.
    - destruct IH as (Hb & Hp & Hs).
      rewrite push_all_app. unfold AudioLookaheadBuffer.push.
      cbn [AudioLookaheadBuffer.buffer AudioLookaheadBuffer.peakHistory
           AudioLookaheadBuffer.bufferSize].
      rewrite Hb, Hp, Hs, map_app. simpl map.
      rewrite !push_bounded_slice_last by lia. auto. }
  destruct Hwin as (Hb & Hp & Hs).
  unfold AudioLookaheadBuffer.getEnergyHistory.
  rewrite Hb, Hp, Hs, !length_slice_last.
  repeat split; try lia.
  unfold AudioLookaheadBuffer.getCurrent. rewrite Hb.
  clear Hb Hp Hs.
  destruct samples as [|s0 pre _] using rev_ind; [reflexivity|].
  destruct (slice_last_last n pre s0 Hn) as [pre' ->].
  rewrite !length_app. simpl length.
  replace (0 <? length pre' + 1)%nat with true by (symmetry; apply Nat.ltb_lt; lia).
  replace (length pre' + 1 - 1)%nat with (length pre' + 0)%nat by lia.
  replace (length pre + 1 - 1)%nat with (length pre + 0)%nat by lia.
  now rewrite !nth_error_app_offset.
Qed.

Lemma lookahead_buffer_is_sliding_window_witness :
  map Sample.energy
      (AudioLookaheadBuffer.buffer
         (push_all (map sample_of [0.1; 0.2; 0.3]) (AudioLookaheadBuffer.create 20 60)))
  = [0.2; 0.3].
Proof.
  destruct (lookahead_buffer_is_sliding_window 20 60 (map sample_of [0.1; 0.2; 0.3]))
    as (Hb & _).
  - vm_compute. lia.
  - rewrite Hb. reflexivity.
Defined.

(** ** The beat detector *)

Lemma length_push_bounded {A : Type} (cap : nat) (arr : list A) (x : A) :
  (length arr <= cap)%nat -> (length (JS.push_bounded cap arr x) <= cap)%nat.
Proof.
  intro H. unfold JS.push_bounded, JS.shift.
  destruct (Nat.ltb_spec cap (length (arr ++ [x]))) as [Hl | Hl].
  - destruct arr; simpl in *; [lia|].
    rewrite length_app in *. simpl in *. lia.
  - exact Hl.
Qed.

Lemma beat_gaps_cons2 a b r : beat_gaps (a :: b :: r) = (b - a)%Z :: beat_gaps (b :: r).
Proof. reflexivity. Qed.

Lemma beat_gaps_snoc l t :
  beat_gaps (l ++ [t])
  = beat_gaps l ++ match l with
                   | [] => []
                   | _ :: _ => [(t - last l 0)%Z]
                   end.
Proof.
  induction l as [|a l IH]; [reflexivity|].
  destruct l as [|b r]; [reflexivity|].
  change ((a :: b :: r) ++ [t]) with (a :: b :: (r ++ [t])).
  rewrite !beat_gaps_cons2.
  change (b :: r ++ [t]) with ((b :: r) ++ [t]). rewrite IH.
  reflexivity.
Qed.

Lemma beat_gaps_tl l : beat_gaps (tl l) = tl (beat_gaps l).
Proof. destruct l as [|a [|b r]]; reflexivity. Qed.

Lemma Forall_tl {A : Type} (P : A -> Prop) (l : list A) : Forall P l -> Forall P (tl l).
Proof. destruct 1; [constructor | assumption]. Qed.

(** What one call of [detectBeat] does to the detector. *)
Lemma detectBeat_cases bass timestamp d :
  let d' := fst (BPMDetector.detectBeat bass timestamp d) in
  let fired := snd (BPMDetector.detectBeat bass timestamp d) in
  BPMDetector.energyHistory d' = JS.push_bounded 60 (BPMDetector.energyHistory d) bass
  /\ ((fired = true
       /\ (250 < timestamp - BPMDetector.lastBeatTime d)%Z
       /\ BPMDetector.adaptiveThreshold d' < bass
       /\ BPMDetector.beatTimes d' = JS.push_bounded 32 (BPMDetector.beatTimes d) timestamp
       /\ BPMDetector.lastBeatTime d' = timestamp)
      \/ (fired = false
          /\ BPMDetector.beatTimes d' = BPMDetector.beatTimes d
          /\ BPMDetector.lastBeatTime d' = BPMDetector.lastBeatTime d)).
Proof.
  cbv zeta. unfold BPMDetector.detectBeat.
  destruct (JS.gt bass _ && _)%bool eqn:E; simpl.
  - split; [reflexivity|]. left.
    apply andb_true_iff in E. destruct E as [Eb Et].
    apply gt_true in Eb. apply Z.ltb_lt in Et.
    unfold BPMDetector.minInterval in Et. auto.
  - split; [reflexivity|]. right. auto.
Qed.

Lemma feed_beats_app inputs x d :
  feed_beats (inputs ++ [x]) d
  = fst (BPMDetector.detectBeat (fst x) (snd x) (feed_beats inputs d)).
Proof. unfold feed_beats. rewrite fold_left_app. reflexivity. Qed.

(** X2.  Whatever stream of samples a fresh detector is fed, it keeps at
    most 32 beat times and 60 energy samples, the remembered last beat is the
    newest beat time, and any two neighbouring beat times are more than
    250 ms apart (so they increase strictly); hence the lower bound of the
    interval filter of [calculateBPM] never rejects an interval: only
    intervals above 1500 ms are dropped. *)
Theorem detector_beats_are_bounded_and_spaced (inputs : list (Q * Z)) :
  let d := feed_beats inputs BPMDetector.init in
  (length (BPMDetector.beatTimes d) <= 32)%nat
  /\ (length (BPMDetector.energyHistory d) <= 60)%nat
  /\ last (BPMDetector.beatTimes d) 0%Z = BPMDetector.lastBeatTime d
  /\ Forall (fun gap => (250 < gap)%Z) (beat_gaps (BPMDetector.beatTimes d))
  /\ surviving (BPMDetector.beatTimes d)
     = filter (fun gap => (gap <=? 1500)%Z) (beat_gaps (BPMDetector.beatTimes d)).
Proof.
  cbv zeta.
  assert (Inv : (length (BPMDetector.beatTimes (feed_beats inputs BPMDetector.init))
                 <= 32)%nat
                /\ (length (BPMDetector.energyHistory
                              (feed_beats inputs BPMDetector.init)) <= 60)%nat
                /\ last (BPMDetector.beatTimes (feed_beats inputs BPMDetector.init)) 0%Z
                   = BPMDetector.lastBeatTime (feed_beats inputs BPMDetector.init)
                /\ Forall (fun gap => (250 < gap)%Z)
                          (beat_gaps (BPMDetector.beatTimes
                                        (feed_beats inputs BPMDetector.init)))).
  { induction inputs as [|[bass t] inputs IH] using rev_ind.
    - simpl. repeat split; try lia. constructor.
    - rewrite feed_beats_app. simpl fst. simpl snd.
      set (d := feed_beats inputs BPMDetector.init) in *.
      destruct IH as (Hn & He & Hl & Hg).
      destruct (detectBeat_cases bass t d) as (Eh & Hc). cbv zeta in Eh, Hc.
      rewrite Eh. split; [|split; [now apply length_push_bounded|]].
      + destruct Hc as [(_ & _ & _ & Eb & _) | (_ & Eb & _)]; rewrite Eb;
          [now apply length_push_bounded | exact Hn].
      + destruct Hc as [(_ & Hgap & _ & Eb & El) | (_ & Eb & El)];
          rewrite Eb, El; [|auto].
        split.
        * destruct (push_bounded_last 32 (BPMDetector.beatTimes d) t) as [pre ->];
            [lia|]. apply last_last.
        * unfold JS.push_bounded, JS.shift.
          assert (Hs : Forall (fun gap => (250 < gap)%Z)
                              (beat_gaps (BPMDetector.beatTimes d ++ [t]))).
          { rewrite beat_gaps_snoc. apply Forall_app. split; [exact Hg|].
            revert Hl. destruct (BPMDetector.beatTimes d) as [|a r];
              [constructor|].
            intros ->. repeat constructor. exact Hgap. }
          destruct (_ <? _)%nat; [|exact Hs].
          rewrite beat_gaps_tl. now apply Forall_tl. }
  destruct Inv as (Hn & He & Hl & Hg).
  repeat split; try assumption.
  unfold surviving. apply filter_ext_in.
  intros gap Hin. rewrite Forall_forall in Hg. specialize (Hg gap Hin).
  replace (250 <=? gap)%Z with true by (symmetry; apply Z.leb_le; lia).
  reflexivity.
Qed.

(** ** A periodic pulse train *)

Lemma beat_train_S start period n :
  beat_train start period (S n) = start :: beat_train (start + period) period n.
Proof.
  unfold beat_train. simpl seq. simpl map.
  f_equal; [lia|].
  rewrite <- seq_shift, map_map. apply map_ext. intro i. lia.
Qed.

Lemma beat_gaps_train period n : forall start,
  beat_gaps (beat_train start period n) = repeat period (n - 1).
Proof.
  induction n as [|n IH]; intro start; [reflexivity|].
  rewrite beat_train_S. destruct n as [|n]; [reflexivity|].
  rewrite beat_train_S, beat_gaps_cons2, <- beat_train_S, IH.
  simpl. f_equal; [lia|]. f_equal. lia.
Qed.

Lemma filter_repeat {A : Type} (f : A -> bool) (x : A) (k : nat) :
  f x = true -> filter f (repeat x k) = repeat x k.
Proof.
  intro H. induction k as [|k IH]; simpl; [reflexivity|].
  now rewrite H, IH.
Qed.

Lemma sort_asc_repeat x k : BPMDetector.sort_asc (repeat x k) = repeat x k.
Proof.
  induction k as [|k IH]; simpl; [reflexivity|].
  rewrite IH. destruct k; simpl; [reflexivity|].
  now rewrite Z.leb_refl.
Qed.

Lemma nth_repeat_lt {A : Type} (x d : A) (k i : nat) :
  (i < k)%nat -> nth i (repeat x k) d = x.
Proof.
  revert i. induction k as [|k IH]; intros i Hi; [lia|].
  destruct i; simpl; [reflexivity | apply IH; lia].
Qed.

Lemma Zsum_list_repeat x k : Zsum_list (repeat x k) = (x * Z.of_nat k)%Z.
Proof.
  unfold Zsum_list. induction k as [|k IH]; [simpl; lia|].
  simpl repeat. simpl fold_right. rewrite IH. lia.
Qed.

Lemma mean_repeat x k : (0 < k)%nat -> mean (repeat x k) == inject_Z x.
Proof.
  intro Hk. unfold mean. rewrite Zsum_list_repeat, repeat_length, inject_Z_mult.
  assert (Hn : ~ inject_Z (Z.of_nat k) == 0).
  { change 0 with (inject_Z 0). rewrite inject_Z_injective. lia. }
  field. exact Hn.
Qed.

Lemma Qsum_list_zero (l : list Q) : Forall (fun q => q == 0) l -> Qsum_list l == 0.
Proof.
  unfold Qsum_list. induction 1 as [|q l Hq _ IH]; simpl; [reflexivity|].
  rewrite Hq, IH. reflexivity.
Qed.

Lemma variance_repeat x k : (0 < k)%nat -> variance (repeat x k) == 0.
Proof.
  intro Hk. unfold variance.
  assert (Hs : Qsum_list (map (fun v => (inject_Z v - mean (repeat x k)) ^ 2)
                              (repeat x k)) == 0).
  { apply Qsum_list_zero. apply Forall_forall. intros q Hin.
    apply in_map_iff in Hin. destruct Hin as (v & <- & Hv).
    apply repeat_spec in Hv. subst v.
    rewrite (mean_repeat x k Hk). simpl. ring. }
  rewrite Hs. unfold Qdiv. ring.
Qed.

(** X3.  For beat times exactly [period] apart, with the period within
    [[250, 1500]] ms and at least 4 beats, [calculateBPM] returns
    [round (60000 / period)] clamped to [[60, 200]] with confidence 1
    (given that [Math.sqrt] maps 0 to 0); for tempi between 60 and 200 BPM
    (periods of 300 to 1000 ms) the result is within half a beat per minute
    of the true tempo. *)
Theorem periodic_beats_give_exact_tempo
        (Math_sqrt : Q -> Q) (d : BPMDetector.t) (start period : Z) (n : nat) :
  (forall v, v == 0 -> Math_sqrt v == 0) ->
  (250 <= period <= 1500)%Z ->
  (4 <= n)%nat ->
  BPMDetector.beatTimes d = beat_train start period n ->
  let result := BPMDetector.calculateBPM Math_sqrt d in
  fst result == clamp (inject_Z (JS.Math_round (60000 / inject_Z period))) 60 200
  /\ snd result == 1
  /\ ((300 <= period <= 1000)%Z ->
      - (1 # 2) <= fst result - 60000 / inject_Z period <= 1 # 2).
Proof.
  intros Hsqrt Hp Hn Hb. cbv zeta.
  assert (Hsurv : surviving (BPMDetector.beatTimes d) = repeat period (n - 1)).
  { unfold surviving. rewrite Hb, beat_gaps_train. apply filter_repeat.
    apply andb_true_iff. split; apply Z.leb_le; lia. }
  assert (Hk : (0 < n - 1)%nat) by lia.
  unfold BPMDetector.calculateBPM.
  rewrite intervals_of_surviving, Hsurv.
  replace (length (BPMDetector.beatTimes d) <? 4)%nat with false
    by (symmetry; apply Nat.ltb_ge; rewrite Hb; unfold beat_train;
        rewrite length_map, length_seq; exact Hn).
  rewrite repeat_length.
  replace (n - 1 <? 3)%nat with false by (symmetry; apply Nat.ltb_ge; lia).
  rewrite mean_sorted, variance_sorted, sort_asc_repeat, repeat_length.
  rewrite nth_repeat_lt by (apply Nat.div_lt; lia).
  cbn [fst snd].
  set (bpm := inject_Z (JS.Math_round (60000 / inject_Z period))).
  destruct (clamp_max_min 60 200 bpm) as [Hb1 _]; [lra|].
  assert (Hcv : Math_sqrt (variance (repeat period (n - 1)))
                / mean (repeat period (n - 1)) == 0).
  { rewrite (Hsqrt _ (variance_repeat period (n - 1) Hk)). unfold Qdiv. ring. }
  set (y := 1 - Math_sqrt (variance (repeat period (n - 1)))
                / mean (repeat period (n - 1)) * 2).
  assert (Hy : y == 1) by (unfold y; rewrite Hcv; ring).
  destruct (clamp_max_min 0 1 y) as [Hc1 _]; [lra|].
  assert (Hclamp : clamp y 0 1 == 1).
  { unfold clamp.
    replace (JS.lt y 0) with false by (symmetry; apply lt_false; lra).
    replace (JS.gt y 1) with false by (symmetry; apply gt_false; lra).
    exact Hy. }
  split; [exact Hb1|]. split; [rewrite Hc1; exact Hclamp|].
  intro Hp'. rewrite Hb1.
  assert (Hpos : 0 < inject_Z period)
    by (change 0 with (inject_Z 0); rewrite <- Zlt_Qlt; lia).
  assert (Hx : 60 <= 60000 / inject_Z period <= 200).
  { assert (H300 : inject_Z 300 <= inject_Z period) by (rewrite <- Zle_Qle; lia).
    assert (H1000 : inject_Z period <= inject_Z 1000) by (rewrite <- Zle_Qle; lia).
    change (inject_Z 300) with 300 in H300. change (inject_Z 1000) with 1000 in H1000.
    split; [apply Qle_shift_div_l | apply Qle_shift_div_r]; lra. }
  set (x := 60000 / inject_Z period) in *.
  pose proof (Qfloor_le (x + 0.5)) as Hfl.
  pose proof (Qlt_floor (x + 0.5)) as Hfu.
  rewrite inject_Z_plus in Hfu. change (inject_Z 1) with 1 in Hfu.
  assert (Hr : bpm = inject_Z (Qfloor (x + 0.5))) by reflexivity.
  assert (H60 : 60 <= bpm).
  { rewrite Hr. change 60 with (inject_Z 60). rewrite <- Zle_Qle.
    apply Z.le_trans with (Qfloor (60 + 0.5));
      [vm_compute; discriminate | apply Qfloor_resp_le; lra]. }
  assert (H200 : bpm <= 200).
  { rewrite Hr. change 200 with (inject_Z 200). rewrite <- Zle_Qle.
    apply Z.le_trans with (Qfloor (200 + 0.5));
      [apply Qfloor_resp_le; lra | vm_compute; discriminate]. }
  unfold clamp.
  replace (JS.lt bpm 60) with false by (symmetry; apply lt_false; lra).
  replace (JS.gt bpm 200) with false by (symmetry; apply gt_false; lra).
  rewrite Hr. lra.
Qed.

Lemma sqrt_milli_zero (v : Q) : v == 0 -> sqrt_milli v == 0.
Proof.
  intro Hv. unfold sqrt_milli.
  assert (E : Qfloor (v * 1000000) = 0%Z).
  { rewrite (Qfloor_comp (v * 1000000) 0); [reflexivity|]. rewrite Hv. ring. }
  rewrite E. reflexivity.
Qed.

Lemma periodic_beats_give_exact_tempo_witness :
  fst (BPMDetector.calculateBPM sqrt_milli
         (BPMDetector.mk (beat_train 1000 500 5) 3000 0.6 0.6 []))
  == clamp (inject_Z (JS.Math_round (60000 / inject_Z 500))) 60 200
  /\ snd (BPMDetector.calculateBPM sqrt_milli
            (BPMDetector.mk (beat_train 1000 500 5) 3000 0.6 0.6 []))
     == 1.
Proof.
  destruct (periodic_beats_give_exact_tempo sqrt_milli
              (BPMDetector.mk (beat_train 1000 500 5) 3000 0.6 0.6 []) 1000 500 5
              sqrt_milli_zero) as (H1 & H2 & _).
  - lia.
  - lia.
  - reflexivity.
  - split; assumption.
Defined.

(** ** Stages of a tick *)

Lemma transitionTo_cases nodeId now rnd e :
  transitionTo nodeId now rnd e = e
  \/ exists frame,
       frameSelector (KINETIC_GRAPH nodeId) rnd (framePool e) = Some frame
       /\ placement (transitionTo nodeId now rnd e)
          = (nodeId, Some frame, currentFrame (state e), now,
             JS.push_bounded 50 (transitionHistory e) (nodeId, now))
       /\ transitionProgress (state (transitionTo nodeId now rnd e)) = 0
       /\ transitionStyle (state (transitionTo nodeId now rnd e))
          = preferredTransition (KINETIC_GRAPH nodeId).
Proof.
  unfold transitionTo.
  destruct (frameSelector (KINETIC_GRAPH nodeId) rnd (framePool e)) as [frame|];
    [right | left; reflexivity].
  exists frame. repeat split.
Qed.

Lemma advanceClock_placement now deltaTime e :
  placement (advanceClock now deltaTime e) = placement e.
Proof.
  unfold placement, advanceClock, with_state, set_isLocked, set_transitionProgress,
    set_beatPos.
  destruct (state e); simpl.
  destruct (JS.lt _ _); simpl; destruct (_ && _); reflexivity.
Qed.

Lemma updateSequenceMode_placement bass mid high e :
  placement (updateSequenceMode bass mid high e) = placement e.
Proof. reflexivity. Qed.

Lemma updateCounters_placement now e : placement (updateCounters now e) = placement e.
Proof. unfold updateCounters. destruct (_ && _); reflexivity. Qed.

Lemma placement_fields e' e :
  placement e' = placement e ->
  currentNode (state e') = currentNode (state e)
  /\ currentFrame (state e') = currentFrame (state e)
  /\ sourceFrame (state e') = sourceFrame (state e)
  /\ lastTransitionTime (state e') = lastTransitionTime (state e)
  /\ transitionHistory e' = transitionHistory e.
Proof.
  unfold placement. intro H.
  pose proof (f_equal (fun p => fst (fst (fst (fst p)))) H) as H1.
  pose proof (f_equal (fun p => snd (fst (fst (fst p)))) H) as H2.
  pose proof (f_equal (fun p => snd (fst (fst p))) H) as H3.
  pose proof (f_equal (fun p => snd (fst p)) H) as H4.
  pose proof (f_equal snd H) as H5.
  simpl in *. auto.
Qed.

Lemma advanceClock_beatPos now deltaTime e :
  beatPos (state (advanceClock now deltaTime e)) = beatPos_at now e.
Proof.
  unfold advanceClock, with_state, set_isLocked, set_transitionProgress, set_beatPos,
    beatPos_at.
  destruct (state e); simpl.
  destruct (JS.lt _ _); simpl; destruct (_ && _); reflexivity.
Qed.

(** X4.  A tick changes neither the node, nor the frames, nor the time of
    the last transition, nor the transition history when the current node
    has not yet been held for its minimum duration, and also when there is no
    beat trigger: the beat position of the tick is within [[0.1, 0.9]] and the
    bass of the current sample is at most 0.6. *)
Theorem tick_without_dwell_or_trigger_stays_put
        (now : Z) (deltaTime rnd : Q) (e : KineticEngine.t) :
  (now - lastTransitionTime (state e)
   < minDuration (KINETIC_GRAPH (currentNode (state e))))%Z
  \/ (0.1 <= beatPos_at now e <= 0.9
      /\ forall current,
           AudioLookaheadBuffer.getCurrent (audioBuffer e) = Some current ->
           Sample.bass current <= 0.6) ->
  let e' := update now deltaTime rnd e in
  currentNode (getState e') = currentNode (getState e)
  /\ currentFrame (getState e') = currentFrame (getState e)
  /\ sourceFrame (getState e') = sourceFrame (getState e)
  /\ lastTransitionTime (getState e') = lastTransitionTime (getState e)
  /\ transitionHistory e' = transitionHistory e.
Proof.
  intros Hcase e'.
  assert (Hp : placement e' = placement e).
  { unfold e', update.
    replace (audioBuffer (advanceClock now deltaTime e)) with (audioBuffer e)
      by reflexivity.
    destruct (AudioLookaheadBuffer.getCurrent (audioBuffer e)) as [current|] eqn:Ec;
      [|apply advanceClock_placement].
    rewrite updateCounters_placement.
    set (e2 := updateSequenceMode _ _ _ _).
    assert (H2 : placement e2 = placement e)
      by (unfold e2; rewrite updateSequenceMode_placement;
          apply advanceClock_placement).
    assert (Hpos : beatPos (state e2) = beatPos_at now e)
      by apply advanceClock_beatPos.
    assert (Hskip : (shouldTriggerOnBeat (Sample.bass current) e2
                     && negb (isLocked (state e2)))%bool = true ->
                    (minDuration (KINETIC_GRAPH (currentNode (state e2)))
                     <=? now - lastTransitionTime (state e2))%Z = false).
    { intro Htrig. destruct Hcase as [Hdwell | [Hbeat Hbass]].
      - apply Z.leb_gt.
        destruct (placement_fields _ _ H2) as (Hn & _ & _ & Ht & _).
        rewrite Hn, Ht. exact Hdwell.
      - exfalso. apply andb_true_iff in Htrig. destruct Htrig as [Htrig _].
        unfold shouldTriggerOnBeat in Htrig. rewrite Hpos in Htrig.
        specialize (Hbass current eq_refl).
        replace (JS.lt (beatPos_at now e) 0.1) with false in Htrig
          by (symmetry; apply lt_false; lra).
        replace (JS.gt (beatPos_at now e) 0.9) with false in Htrig
          by (symmetry; apply gt_false; lra).
        replace (JS.gt (Sample.bass current) 0.6) with false in Htrig
          by (symmetry; apply gt_false; lra).
        discriminate. }
    destruct (_ && negb _)%bool; [|exact H2].
    rewrite (Hskip eq_refl). exact H2. }
  unfold getState. apply placement_fields, Hp.
Qed.

Lemma tick_without_dwell_or_trigger_stays_put_witness :
  currentNode (getState (update 1600 0.016 0.5 groove_center_engine)) = groove_center
  /\ transitionHistory (update 1600 0.016 0.5 groove_center_engine)
     = transitionHistory groove_center_engine.
Proof.
  destruct (tick_without_dwell_or_trigger_stays_put 1600 0.016 0.5 groove_center_engine)
    as (Hn & _ & _ & _ & Hh).
  - left. vm_compute. reflexivity.
  - split; [rewrite Hn; reflexivity | exact Hh].
Defined.

(** ** Bar and phrase counters *)

Lemma transitionTo_counters nodeId now rnd e :
  barCounter (state (transitionTo nodeId now rnd e)) = barCounter (state e)
  /\ phraseCounter (state (transitionTo nodeId now rnd e)) = phraseCounter (state e).
Proof.
  unfold transitionTo.
  destruct (frameSelector (KINETIC_GRAPH nodeId) rnd (framePool e)); split; reflexivity.
Qed.

Lemma advanceClock_counters now deltaTime e :
  barCounter (state (advanceClock now deltaTime e)) = barCounter (state e)
  /\ phraseCounter (state (advanceClock now deltaTime e)) = phraseCounter (state e).
Proof.
  unfold advanceClock, with_state, set_isLocked, set_transitionProgress, set_beatPos.
  destruct (state e); simpl.
  destruct (JS.lt _ _); simpl; destruct (_ && _); split; reflexivity.
Qed.

Lemma update_counters now deltaTime rnd e :
  let s := state e in
  let s' := state (update now deltaTime rnd e) in
  (barCounter s' = barCounter s /\ phraseCounter s' = phraseCounter s)
  \/ (AudioLookaheadBuffer.getCurrent (audioBuffer e) <> None
      /\ barCounter s' = Z.rem (barCounter s + 1) 16
      /\ phraseCounter s' = Z.rem (phraseCounter s + 1) 8).
Proof.
  cbv zeta. unfold update.
  replace (audioBuffer (advanceClock now deltaTime e)) with (audioBuffer e)
    by reflexivity.
  destruct (advanceClock_counters now deltaTime e) as [Ab Ap].
  destruct (AudioLookaheadBuffer.getCurrent (audioBuffer e)) as [current|];
    [|left; auto].
  set (e2 := updateSequenceMode _ _ _ _).
  assert (H2 : barCounter (state e2) = barCounter (state e)
               /\ phraseCounter (state e2) = phraseCounter (state e))
    by (split; [exact Ab | exact Ap]).
  match goal with |- context [updateCounters now ?x] => set (e3 := x) end.
  assert (H3 : barCounter (state e3) = barCounter (state e)
               /\ phraseCounter (state e3) = phraseCounter (state e)).
  { unfold e3. destruct (_ && negb _)%bool; [|exact H2].
    destruct (_ <=? _)%Z; [|exact H2].
    rewrite attemptTransition_chosen.
    destruct (chosenTarget _ e2); [|exact H2].
    destruct (transitionTo_counters k now rnd e2) as [-> ->]. exact H2. }
  destruct H3 as [B3 P3]. clearbody e3.
  unfold updateCounters. destruct (_ && _)%bool; simpl.
  - right. rewrite B3, P3. split; [discriminate | split; reflexivity].
  - left. auto.
Qed.

Section Counters.

Variable Math_sqrt : Q -> Q.

Lemma reachable_induction (P : KineticEngine.t -> Prop) :
  P create ->
  (forall e c, reachable Math_sqrt e -> P e -> P (apply_call Math_sqrt e c)) ->
  forall e, reachable Math_sqrt e -> P e.
Proof.
  intros Hinit Hstep e [calls ->].
  induction calls as [|c calls IH] using rev_ind; [exact Hinit|].
  unfold run in *. rewrite fold_left_app. simpl.
  apply Hstep; [now exists calls | exact IH].
Qed.

(** The calls that leave the kinetic state alone. *)
Lemma apply_call_state e c :
  match c with
  | CallUpdate _ _ _ | CallForceState _ _ _ | CallTriggerStutter
  | CallTriggerGlitch _ => True
  | _ => state (apply_call Math_sqrt e c) = state e
  end.
Proof.
  destruct c; simpl; auto.
  destruct (feedAudio_fields Math_sqrt now bass mid high e) as (Hs & _). exact Hs.
Qed.

Lemma apply_call_counters e c :
  let s := state e in
  let s' := state (apply_call Math_sqrt e c) in
  (barCounter s' = barCounter s /\ phraseCounter s' = phraseCounter s)
  \/ (barCounter s' = Z.rem (barCounter s + 1) 16
      /\ phraseCounter s' = Z.rem (phraseCounter s + 1) 8).
Proof.
  cbv zeta. pose proof (apply_call_state e c) as Hs.
  destruct c; try (rewrite Hs; left; auto).
  - simpl. destruct (update_counters now deltaTime rnd e) as [H | (_ & H)];
      [left | right]; exact H.
  - simpl. left. apply transitionTo_counters.
  - left. split; reflexivity.
  - left. simpl. unfold triggerGlitch. destruct (_ <? _)%nat; split; reflexivity.
Qed.

(** X5.  On every engine a program can hold, the bar counter is within
    0..15, the phrase counter within 0..7, and the two advance together: the
    phrase counter is the bar counter modulo 8. *)
Theorem counters_cycle_together (e : KineticEngine.t) :
  reachable Math_sqrt e ->
  (0 <= barCounter (getState e) < 16)%Z
  /\ (0 <= phraseCounter (getState e) < 8)%Z
  /\ phraseCounter (getState e) = (barCounter (getState e) mod 8)%Z.
Proof.
  unfold getState. revert e. apply reachable_induction.
  - simpl. repeat split; lia.
  - intros e c _ (Hb & Hp & Hbp).
    destruct (apply_call_counters e c) as [[-> ->] | [-> ->]]; [auto|].
    rewrite !Z.rem_mod_nonneg by lia.
    repeat split; try (apply Z.mod_pos_bound; lia).
    rewrite Hbp. remember (barCounter (state e)) as b eqn:Eb. clear Eb Hbp.
    assert (Hcases : (b = 0 \/ b = 1 \/ b = 2 \/ b = 3 \/ b = 4 \/ b = 5 \/ b = 6
                      \/ b = 7 \/ b = 8 \/ b = 9 \/ b = 10 \/ b = 11 \/ b = 12
                      \/ b = 13 \/ b = 14 \/ b = 15)%Z) by lia.
    repeat (destruct Hcases as [-> | Hcases]; [reflexivity|]).
    subst b. reflexivity.
Qed.

End Counters.

Lemma counters_cycle_together_witness :
  phraseCounter (getState groove_center_engine)
  = (barCounter (getState groove_center_engine) mod 8)%Z.
Proof.
  apply (counters_cycle_together sqrt_milli groove_center_engine).
  eexists. reflexivity.
Defined.

(** ** Beat position, transition progress and tempo *)





Section Clock.

Variable Math_sqrt : Q -> Q.

Lemma feedAudio_tempo now bass mid high e :
  let e' := feedAudio Math_sqrt now bass mid high e in
  (bpm e' = bpm e
   /\ beatDuration e' = beatDuration e
   /\ (autoBPM e = false ->
       bpmConfidence e' = bpmConfidence e /\ bpmDetector e' = bpmDetector e))
  \/ (autoBPM e = true
      /\ snd (BPMDetector.detectBeat bass now (bpmDetector e)) = true
      /\ 0.5 < bpmConfidence e'
      /\ beatDuration e' = 60000 / bpm e'
      /\ exists x, bpm e' = JS.Math_max 60 (JS.Math_min 200 x)).
Proof.
  cbv zeta. unfold feedAudio.
  cbn [autoBPM bpmDetector state framePool audioBuffer bpm transientDetector].
  destruct (autoBPM e).
  - destruct (BPMDetector.detectBeat bass now (bpmDetector e)) as [detector' fired].
    destruct fired.
    + destruct (BPMDetector.calculateBPM Math_sqrt detector') as [bpm' confidence].
      destruct (JS.gt confidence 0.5) eqn:Ec.
      * unfold setBPM.
        destruct (TransientDetector.detect (mid + high) _); simpl.
        right. apply gt_true in Ec. repeat split; auto. now exists bpm'.
      * destruct (TransientDetector.detect (mid + high) _); simpl.
        left. repeat split; auto; discriminate.
    + destruct (TransientDetector.detect (mid + high) _); simpl.
      left. repeat split; auto; discriminate.
  - destruct (TransientDetector.detect (mid + high) _); simpl.
    left. repeat split; auto.
Qed.

Lemma run_induction (C : Call -> Prop) (P : KineticEngine.t -> Prop) :
  P create ->
  (forall e c, reachable Math_sqrt e -> C c -> P e -> P (apply_call Math_sqrt e c)) ->
  forall calls, Forall C calls -> P (run Math_sqrt calls create).
Proof.
  intros Hinit Hstep calls.
  induction calls as [|c calls IH] using rev_ind; intro Hall; [exact Hinit|].
  apply Forall_app in Hall. destruct Hall as [Hall Hc].
  unfold run in *. rewrite fold_left_app. simpl.
  apply Hstep; [now exists calls | now inversion Hc | now apply IH].
Qed.


End Clock.


(** ** What [feedAudio] leaves alone *)

Section Ingestion.

Variable Math_sqrt : Q -> Q.

Lemma feedAudio_keeps_machine now bass mid high e :
  let e' := feedAudio Math_sqrt now bass mid high e in
  state e' = state e
  /\ framePool e' = framePool e
  /\ transitionHistory e' = transitionHistory e
  /\ lastBeatTime e' = lastBeatTime e
  /\ autoBPM e' = autoBPM e.
Proof.
  cbv zeta. unfold feedAudio.
  cbn [autoBPM bpmDetector state framePool audioBuffer bpm transientDetector].
  destruct (autoBPM e) eqn:Ea.
  - destruct (BPMDetector.detectBeat bass now (bpmDetector e)) as [detector' fired].
    destruct fired.
    + destruct (BPMDetector.calculateBPM Math_sqrt detector') as [bpm' confidence].
      destruct (JS.gt confidence 0.5); unfold setBPM;
        destruct (TransientDetector.detect (mid + high) _); simpl; auto.
    + destruct (TransientDetector.detect (mid + high) _); simpl; auto.
  - destruct (TransientDetector.detect (mid + high) _); simpl; auto.
Qed.

(** X7.  [feedAudio] never touches the kinetic state, the frame pool or
    the transition history.  With automatic BPM detection off it also leaves
    the tempo, the confidence and the beat detector as they were; with it on,
    the tempo changes only on a sample that registered as a beat and whose
    tempo estimate has a confidence above 0.5, and the new tempo is within
    [[60, 200]]. *)
Theorem feedAudio_adopts_tempo_only_with_confidence
        (now : Z) (bass mid high : Q) (e : KineticEngine.t) :
  let e' := feedAudio Math_sqrt now bass mid high e in
  getState e' = getState e
  /\ framePool e' = framePool e
  /\ transitionHistory e' = transitionHistory e
  /\ (autoBPM e = false ->
      getBPM e' = getBPM e
      /\ beatDuration e' = beatDuration e
      /\ getBPMConfidence e' = getBPMConfidence e
      /\ bpmDetector e' = bpmDetector e)
  /\ (getBPM e' <> getBPM e ->
      autoBPM e = true
      /\ snd (BPMDetector.detectBeat bass now (bpmDetector e)) = true
      /\ 0.5 < getBPMConfidence e'
      /\ 60 <= getBPM e' <= 200).
Proof.
  cbv zeta. unfold getState, getBPM, getBPMConfidence.
  destruct (feedAudio_keeps_machine now bass mid high e) as (Hs & Hp & Hh & _).
  split; [exact Hs|]. split; [exact Hp|]. split; [exact Hh|].
  destruct (feedAudio_tempo Math_sqrt now bass mid high e)
    as [(Hb & Hd & Hoff) | (Hon & Hbeat & Hconf & _ & x & Hx)].
  - split; [|congruence].
    intro Ha. destruct (Hoff Ha). auto.
  - split; [congruence|].
    intros _. repeat split; try assumption; rewrite Hx; apply clamp_60_200.
Qed.

End Ingestion.

Lemma feedAudio_adopts_tempo_only_with_confidence_witness :
  getBPM (feedAudio sqrt_milli 1000 0.9 0.5 0.5 (setAutoBPM false (setBPM 140 create)))
  = getBPM (setAutoBPM false (setBPM 140 create)).
Proof.
  destruct (feedAudio_adopts_tempo_only_with_confidence sqrt_milli 1000 0.9 0.5 0.5
              (setAutoBPM false (setBPM 140 create))) as (_ & _ & _ & Hoff & _).
  apply Hoff. reflexivity.
Defined.

(** ** Transition history and telemetry *)

Lemma update_placement now deltaTime rnd e :
  placement (update now deltaTime rnd e) = placement e
  \/ exists nodeId frame,
       placement (update now deltaTime rnd e)
       = (nodeId, Some frame, currentFrame (state e), now,
          JS.push_bounded 50 (transitionHistory e) (nodeId, now)).
Proof.
  unfold update.
  replace (audioBuffer (advanceClock now deltaTime e)) with (audioBuffer e)
    by reflexivity.
  destruct (AudioLookaheadBuffer.getCurrent (audioBuffer e)) as [current|];
    [|left; apply advanceClock_placement].
  rewrite updateCounters_placement.
  set (e2 := updateSequenceMode _ _ _ _).
  assert (H2 : placement e2 = placement e)
    by (unfold e2; rewrite updateSequenceMode_placement; apply advanceClock_placement).
  destruct (_ && negb _)%bool; [|now left].
  destruct (_ <=? _)%Z; [|now left].
  rewrite attemptTransition_chosen.
  destruct (chosenTarget _ e2) as [target|]; [|now left].
  destruct (transitionTo_cases target now rnd e2) as [-> | (frame & _ & Hp & _)];
    [now left|].
  right. exists target, frame. rewrite Hp.
  destruct (placement_fields _ _ H2) as (_ & -> & _ & _ & ->). reflexivity.
Qed.

Lemma last_slice_last {A : Type} (n : nat) (l : list A) (d : A) :
  (1 <= n)%nat -> last (JS.slice_last n l) d = last l d.
Proof.
  intro Hn. destruct l as [|x pre _] using rev_ind; [reflexivity|].
  destruct (slice_last_last n pre x Hn) as [pre' ->].
  now rewrite !last_last.
Qed.

Section History.

Variable Math_sqrt : Q -> Q.

(** X8.  On every engine a program can hold, the transition history has
    at most 50 entries and telemetry shows at most its last 10; unless the
    history is empty, its newest entry (also the newest entry telemetry
    shows) names the current node and the time of the last transition. *)
Theorem history_ends_at_current_node (e : KineticEngine.t) :
  reachable Math_sqrt e ->
  (length (transitionHistory e) <= 50)%nat
  /\ (length (Telemetry.transitionHistory (getTelemetry Math_sqrt e)) <= 10)%nat
  /\ (transitionHistory e = []
      \/ (last (transitionHistory e) (idle, 0%Z)
          = (currentNode (getState e), lastTransitionTime (getState e))
          /\ last (Telemetry.transitionHistory (getTelemetry Math_sqrt e)) (idle, 0%Z)
             = (currentNode (getState e), lastTransitionTime (getState e)))).
Proof.
  intro Hr. unfold getState.
  assert (Hinv : (length (transitionHistory e) <= 50)%nat
                 /\ (transitionHistory e = []
                     \/ last (transitionHistory e) (idle, 0%Z)
                        = (currentNode (state e), lastTransitionTime (state e)))).
  { revert e Hr.
    apply (reachable_induction Math_sqrt
             (fun e => (length (transitionHistory e) <= 50)%nat
                       /\ (transitionHistory e = []
                           \/ last (transitionHistory e) (idle, 0%Z)
                              = (currentNode (state e), lastTransitionTime (state e))))).
    - split; [simpl; lia | now left].
    - intros e c _ [Hlen Hlast].
      assert (Hmoved : forall e' nodeId frame t,
                 placement e'
                 = (nodeId, Some frame, currentFrame (state e), t,
                    JS.push_bounded 50 (transitionHistory e) (nodeId, t)) ->
                 (length (transitionHistory e') <= 50)%nat
                 /\ (transitionHistory e' = []
                     \/ last (transitionHistory e') (idle, 0%Z)
                        = (currentNode (state e'), lastTransitionTime (state e')))).
      { intros e' nodeId frame t Hp. unfold placement in Hp.
        pose proof (f_equal (fun p => fst (fst (fst (fst p)))) Hp) as H1.
        pose proof (f_equal (fun p => snd (fst p)) Hp) as H4.
        pose proof (f_equal snd Hp) as H5. simpl in H1, H4, H5.
        rewrite H1, H4, H5. split; [now apply length_push_bounded|].
        right. destruct (push_bounded_last 50 (transitionHistory e) (nodeId, t))
          as [pre ->]; [lia|]. apply last_last. }
      assert (Hsame : forall e', placement e' = placement e ->
                 (length (transitionHistory e') <= 50)%nat
                 /\ (transitionHistory e' = []
                     \/ last (transitionHistory e') (idle, 0%Z)
                        = (currentNode (state e'), lastTransitionTime (state e')))).
      { intros e' Hp. destruct (placement_fields _ _ Hp) as (-> & _ & _ & -> & ->).
        auto. }
      destruct c; cbn [apply_call].
      + destruct (feedAudio_keeps_machine Math_sqrt now bass mid high e)
          as (-> & _ & -> & _). auto.
      + destruct (update_placement now deltaTime rnd e) as [Hp | (n & f & Hp)];
          [now apply Hsame | now apply (Hmoved _ n f now)].
      + auto.
      + auto.
      + auto.
      + unfold forceState.
        destruct (transitionTo_cases nodeId now rnd e) as [-> | (f & _ & Hp & _)];
          [auto | now apply (Hmoved _ nodeId f now)].
      + auto.
      + unfold triggerGlitch. destruct (_ <? _)%nat; auto.
      + split; [simpl; lia | now left]. }
  destruct Hinv as [Hlen Hlast].
  split; [exact Hlen|]. split.
  - simpl. rewrite length_slice_last. lia.
  - destruct Hlast as [Hnil | Hl]; [now left | right].
    split; [exact Hl|]. simpl. rewrite last_slice_last by lia. exact Hl.
Qed.

End History.

Lemma history_ends_at_current_node_witness :
  last (Telemetry.transitionHistory (getTelemetry sqrt_milli closeup_locked_engine))
       (idle, 0%Z)
  = (closeup, 2000%Z).
Proof.
  destruct (history_ends_at_current_node sqrt_milli closeup_locked_engine)
    as (_ & _ & [Hnil | [_ Hlast]]).
  - eexists. reflexivity.
  - vm_compute in Hnil. discriminate.
  - rewrite Hlast. reflexivity.
Defined.

(** ** Ticks after a reset *)

Lemma advanceClock_settled now deltaTime e :
  exists s',
    advanceClock now deltaTime e = with_state s' e
    /\ settled_fields s' = settled_fields (state e).
Proof.
  unfold advanceClock. eexists. split; [reflexivity|].
  unfold settled_fields, set_isLocked, set_transitionProgress, set_beatPos.
  destruct (state e); simpl.
  destruct (JS.lt _ _); simpl; destruct (_ && _); reflexivity.
Qed.

Lemma settled_fields_node s' s :
  settled_fields s' = settled_fields s -> currentNode s' = currentNode s.
Proof.
  intro H.
  exact (f_equal (fun p => fst (fst (fst (fst (fst (fst (fst (fst p)))))))) H).
Qed.

Lemma with_state_with_state s s' e : with_state s (with_state s' e) = with_state s e.
Proof. reflexivity. Qed.

(** X9.  After [resetDetectors], ticks alone do nothing but advance the
    clock: through any number of [update] calls, until audio is fed again,
    the node, the frames, the time of the last transition, the counters and
    the sequence mode stay as they were before the reset, no transition is
    recorded, and telemetry keeps reporting the neutral readings (detected
    BPM 120, confidence 0, levels and energy 0, empty histories). *)
Theorem ticks_after_reset_only_advance_clock
        (Math_sqrt : Q -> Q) (e : KineticEngine.t) (calls : list Call) :
  Forall (fun c => is_update c = true) calls ->
  let e' := run Math_sqrt calls (resetDetectors e) in
  let readings := getTelemetry Math_sqrt e' in
  settled_fields (getState e') = settled_fields (getState e)
  /\ transitionHistory e' = []
  /\ getBPM e' = getBPM e
  /\ Telemetry.detectedBPM readings = 120
  /\ Telemetry.confidence readings = 0
  /\ Telemetry.bassLevel readings = 0
  /\ Telemetry.midLevel readings = 0
  /\ Telemetry.highLevel readings = 0
  /\ Telemetry.energy readings = 0
  /\ Telemetry.audioHistory readings = []
  /\ Telemetry.transitionHistory readings = [].
Proof.
  intro Hall. cbv zeta.
  assert (Hinv : exists s',
             run Math_sqrt calls (resetDetectors e) = with_state s' (resetDetectors e)
             /\ settled_fields s' = settled_fields (state e)).
  { induction calls as [|c calls IH] using rev_ind.
    - exists (state e). split; reflexivity.
    - apply Forall_app in Hall. destruct Hall as [Hall Hc].
      destruct (IH Hall) as (s1 & He1 & Hs1).
      unfold run in *. rewrite fold_left_app, He1. simpl fold_left.
      inversion Hc as [|? ? Hu _]; subst.
      destruct c; try discriminate. cbn [apply_call].
      rewrite update_no_sample by reflexivity.
      destruct (advanceClock_settled now deltaTime (with_state s1 (resetDetectors e)))
        as (s2 & -> & Hs2).
      exists s2. rewrite with_state_with_state. split; [reflexivity|].
      rewrite Hs2. exact Hs1. }
  destruct Hinv as (s' & -> & Hs').
  unfold getState. repeat split. exact Hs'.
Qed.

Lemma ticks_after_reset_only_advance_clock_witness :
  currentNode
    (getState (run sqrt_milli [CallUpdate 2000 0.016 0.5; CallUpdate 2500 0.016 0.5]
                   (resetDetectors groove_center_engine)))
  = groove_center.
Proof.
  destruct (ticks_after_reset_only_advance_clock sqrt_milli groove_center_engine
              [CallUpdate 2000 0.016 0.5; CallUpdate 2500 0.016 0.5]) as (Hs & _).
  - repeat constructor.
  - rewrite (settled_fields_node _ _ Hs). vm_compute. reflexivity.
Defined.

(** ** Random picks *)

Lemma index_In {A : Type} (arr : list A) (i : Z) (x : A) :
  JS.index arr i = Some x -> In x arr.
Proof.
  unfold JS.index. destruct (i <? 0)%Z; [discriminate|].
  apply nth_error_In.
Qed.

Lemma pick_in_range rnd arr :
  0 <= rnd < 1 -> arr <> [] -> exists f, pick rnd arr = Some f /\ In f arr.
Proof.
  intros [H0 H1] Hne. unfold pick, JS.Math_floor.
  set (n := inject_Z (Z.of_nat (length arr))).
  assert (Hn : 0 < n).
  { unfold n. change 0 with (inject_Z 0). rewrite <- Zlt_Qlt.
    destruct arr; [congruence | simpl; lia]. }
  assert (Hlo : (0 <= Qfloor (rnd * n))%Z).
  { rewrite <- (Qfloor_Z 0). apply Qfloor_resp_le. change (inject_Z 0) with 0. nra. }
  assert (Hhi : (Qfloor (rnd * n) < Z.of_nat (length arr))%Z).
  { rewrite Zlt_Qlt. fold n. pose proof (Qfloor_le (rnd * n)). nra. }
  destruct (JS.index arr (Qfloor (rnd * n))) as [f|] eqn:E.
  - exists f. split; [reflexivity | now apply index_In in E].
  - exfalso. unfold JS.index in E.
    replace (Qfloor (rnd * n) <? 0)%Z with false in E by (symmetry; apply Z.ltb_ge; lia).
    apply nth_error_None in E. lia.
Qed.

(** X10.  With the high-energy bucket not empty and the random value
    within [[0, 1)], [triggerGlitch] always shows a frame of that bucket, cut
    in at once from the frame shown before; it changes neither the node, nor
    the lock, nor the counters, nor the time of the last transition, and it
    leaves no entry in the transition history. *)
Theorem glitch_shows_a_high_frame (rnd : Q) (e : KineticEngine.t) :
  0 <= rnd < 1 ->
  FramePool.high (FramePool.byEnergy (framePool e)) <> [] ->
  let e' := triggerGlitch rnd e in
  (exists f,
      In f (FramePool.high (FramePool.byEnergy (framePool e)))
      /\ currentFrame (getState e') = Some f)
  /\ sourceFrame (getState e') = currentFrame (getState e)
  /\ transitionProgress (getState e') = 0
  /\ transitionStyle (getState e') = CUT
  /\ currentNode (getState e') = currentNode (getState e)
  /\ isLocked (getState e') = isLocked (getState e)
  /\ lockReleaseTime (getState e') = lockReleaseTime (getState e)
  /\ lastTransitionTime (getState e') = lastTransitionTime (getState e)
  /\ barCounter (getState e') = barCounter (getState e)
  /\ phraseCounter (getState e') = phraseCounter (getState e)
  /\ transitionHistory e' = transitionHistory e.
Proof.
  intros Hr Hne. cbv zeta. unfold getState, triggerGlitch.
  destruct (pick_in_range rnd _ Hr Hne) as (f & Hpick & Hin).
  replace (0 <? length (FramePool.high (FramePool.byEnergy (framePool e))))%nat
    with true
    by (symmetry; apply Nat.ltb_lt;
        destruct (FramePool.high (FramePool.byEnergy (framePool e)));
        [congruence | simpl; lia]).
  simpl. rewrite Hpick. repeat split. now exists f.
Qed.

Lemma glitch_shows_a_high_frame_witness :
  currentFrame (getState (triggerGlitch 0.5 (loadFramePool [high_frame] create)))
  = Some high_frame.
Proof.
  destruct (glitch_shows_a_high_frame 0.5 (loadFramePool [high_frame] create))
    as ((f & Hin & Hf) & _).
  - split; [discriminate | reflexivity].
  - discriminate.
  - rewrite Hf. destruct Hin as [<- | []]. reflexivity.
Defined.

Lemma placement_fields_full e' n f sf t h :
  placement e' = (n, f, sf, t, h) ->
  currentFrame (state e') = f.
Proof.
  unfold placement. intro H.
  exact (f_equal (fun p => snd (fst (fst (fst p)))) H).
Qed.

(** ** The pool holds only what was loaded *)

Lemma incl_snoc {A : Type} (l frames : list A) (f : A) :
  incl l frames -> In f frames -> incl (l ++ [f]) frames.
Proof.
  intros Hl Hf x Hx. apply in_app_or in Hx.
  destruct Hx as [Hx | [<- | []]]; auto.
Qed.

Lemma categorize_within frames pool f :
  In f frames -> pool_within frames pool -> pool_within frames (categorize pool f).
Proof.
  intros Hf Hp. unfold pool_within, pool_lists in *.
  repeat match goal with
         | H : Forall _ (_ :: _) |- _ => inversion H; clear H; subst
         end.
  unfold categorize, push_energy, push_direction.
  repeat constructor;
    cbn [FramePool.byEnergy FramePool.byDirection FramePool.low FramePool.mid
         FramePool.high FramePool.left FramePool.right FramePool.center
         FramePool.closeups FramePool.hands FramePool.feet FramePool.mandalas
         FramePool.virtuals FramePool.acrobatics];
    repeat match goal with
           | |- context [match ?x with _ => _ end] => destruct x
           end;
    cbn [FramePool.byEnergy FramePool.byDirection FramePool.low FramePool.mid
         FramePool.high FramePool.left FramePool.right FramePool.center];
    auto using incl_snoc.
Qed.

Lemma fold_categorize_within frames : forall all pool,
  incl frames all -> pool_within all pool ->
  pool_within all (fold_left categorize frames pool).
Proof.
  induction frames as [|f frames IH]; intros all pool Hin Hp; [exact Hp|].
  simpl. apply IH.
  - intros x Hx. apply Hin. now right.
  - apply categorize_within; [apply Hin; now left | exact Hp].
Qed.

Lemma build_pool_within frames : pool_within frames (build_pool frames).
Proof.
  assert (H : pool_within frames (fold_left categorize frames FramePool.empty)).
  { apply fold_categorize_within; [apply incl_refl|].
    unfold pool_within, pool_lists. simpl.
    repeat constructor; intros x []. }
  unfold build_pool, ensure_fallbacks, pool_within, pool_lists in *.
  repeat match goal with
         | H : Forall _ (_ :: _) |- _ => inversion H; clear H; subst
         end.
  cbn [FramePool.byEnergy FramePool.byDirection FramePool.low FramePool.mid
       FramePool.high FramePool.left FramePool.right FramePool.center
       FramePool.closeups FramePool.hands FramePool.feet FramePool.mandalas
       FramePool.virtuals FramePool.acrobatics].
  repeat match goal with
         | |- context [if ?b then _ else _] => destruct b
         end;
    repeat constructor; assumption.
Qed.

Lemma pick_In rnd arr f : pick rnd arr = Some f -> In f arr.
Proof. unfold pick. apply index_In. Qed.

Lemma first_In arr f : first arr = Some f -> In f arr.
Proof. unfold first. apply index_In. Qed.

Lemma selector_within frames pool nodeId rnd f :
  pool_within frames pool ->
  frameSelector (KINETIC_GRAPH nodeId) rnd pool = Some f -> In f frames.
Proof.
  intros Hp Hsel. unfold pool_within, pool_lists in Hp.
  repeat match goal with
         | H : Forall _ (_ :: _) |- _ => inversion H; clear H; subst
         end.
  destruct nodeId; cbn [KINETIC_GRAPH frameSelector] in Hsel;
    unfold JS.or in Hsel;
    repeat match type of Hsel with
           | context [match ?x with _ => _ end] =>
               let E := fresh "E" in destruct x eqn:E
           end;
    try discriminate; try (injection Hsel as <-);
    repeat match goal with
           | E : pick _ _ = Some _ |- _ => apply pick_In in E
           | E : first _ = Some _ |- _ => apply first_In in E
           end;
    match goal with
    | H : incl ?bucket frames, E : In ?x ?bucket |- In ?x frames => exact (H x E)
    end.
Qed.

(** X11.  The engine never shows a frame it was not given: every frame a
    node's selector finds in the pool built by [loadFramePool frames] is one
    of [frames], so a transition after loading either leaves the engine as it
    was or shows one of [frames]; and a tick either keeps the current frame
    or shows one of [frames]. *)
Theorem engine_shows_only_loaded_frames
        (frames : list GeneratedFrame) (e : KineticEngine.t)
        (nodeId : KineticNodeId) (now : Z) (deltaTime rnd : Q) :
  let loaded := loadFramePool frames e in
  (forall f, frameSelector (KINETIC_GRAPH nodeId) rnd (framePool loaded) = Some f ->
             In f frames)
  /\ (transitionTo nodeId now rnd loaded = loaded
      \/ exists f, In f frames
                   /\ currentFrame (getState (transitionTo nodeId now rnd loaded))
                      = Some f)
  /\ (currentFrame (getState (update now deltaTime rnd loaded))
      = currentFrame (getState loaded)
      \/ exists f, In f frames
                   /\ currentFrame (getState (update now deltaTime rnd loaded))
                      = Some f).
Proof.
  cbv zeta. unfold getState.
  set (loaded := loadFramePool frames e).
  assert (Hp : pool_within frames (framePool loaded)) by apply build_pool_within.
  assert (Hto : forall n t r e1,
             framePool e1 = framePool loaded ->
             transitionTo n t r e1 = e1
             \/ exists f, In f frames
                          /\ currentFrame (state (transitionTo n t r e1)) = Some f).
  { intros n t r e1 He1.
    destruct (transitionTo_cases n t r e1) as [-> | (f & Hsel & Hpl & _)];
      [now left | right].
    exists f. split.
    - rewrite He1 in Hsel. eapply selector_within; eauto.
    - now destruct (placement_fields_full _ _ _ _ _ _ Hpl). }
  split; [intros f Hf; eapply selector_within; eauto|].
  split; [apply Hto; reflexivity|].
  unfold update.
  replace (audioBuffer (advanceClock now deltaTime loaded)) with (audioBuffer loaded)
    by reflexivity.
  assert (Hadv : currentFrame (state (advanceClock now deltaTime loaded))
                 = currentFrame (state loaded)).
  { now destruct (placement_fields _ _ (advanceClock_placement now deltaTime loaded))
      as (_ & H & _). }
  destruct (AudioLookaheadBuffer.getCurrent (audioBuffer loaded)) as [current|];
    [|left; exact Hadv].
  set (e2 := updateSequenceMode _ _ _ _).
  assert (H2 : currentFrame (state e2) = currentFrame (state loaded)) by exact Hadv.
  assert (Hcount : forall e3, currentFrame (state (updateCounters now e3))
                              = currentFrame (state e3)).
  { intro e3. now destruct (placement_fields _ _ (updateCounters_placement now e3))
      as (_ & H & _). }
  rewrite Hcount.
  destruct (_ && negb _)%bool; [|now left].
  destruct (_ <=? _)%Z; [|now left].
  rewrite attemptTransition_chosen.
  destruct (chosenTarget _ e2) as [target|]; [|now left].
  destruct (Hto target now rnd e2 eq_refl) as [-> | Hf]; [now left | now right].
Qed.

(** ** The special buckets *)

Lemma snoc_if_filter {A : Type} (p : A -> bool) (acc : list A) (f : A) (rest : list A) :
  (acc ++ (if p f then [f] else [])) ++ filter p rest = acc ++ filter p (f :: rest).
Proof.
  simpl. destruct (p f); rewrite <- app_assoc; reflexivity.
Qed.

Lemma categorize_special pool f :
  let pool' := categorize pool f in
  FramePool.closeups pool'
  = FramePool.closeups pool ++ (if has_type T_closeup f then [f] else [])
  /\ FramePool.hands pool'
     = FramePool.hands pool ++ (if has_type T_hands f then [f] else [])
  /\ FramePool.feet pool'
     = FramePool.feet pool ++ (if has_type T_feet f then [f] else [])
  /\ FramePool.mandalas pool'
     = FramePool.mandalas pool
       ++ (if has_type T_hands f && pose_is_mandala f then [f] else [])
  /\ FramePool.acrobatics pool'
     = FramePool.acrobatics pool ++ (if is_acrobatic f then [f] else [])
  /\ FramePool.virtuals pool'
     = FramePool.virtuals pool ++ (if Frame.isVirtual f then [f] else [])
  /\ FramePool.left (FramePool.byDirection pool')
     = FramePool.left (FramePool.byDirection pool)
       ++ (if goes_to D_left f then [f] else [])
  /\ FramePool.right (FramePool.byDirection pool')
     = FramePool.right (FramePool.byDirection pool)
       ++ (if goes_to D_right f then [f] else [])
  /\ FramePool.center (FramePool.byDirection pool')
     = FramePool.center (FramePool.byDirection pool)
       ++ (if goes_to D_center f then [f] else []).
Proof.
  cbv zeta. unfold categorize, push_direction, has_type, is_acrobatic, goes_to.
  cbn [FramePool.byDirection FramePool.left FramePool.right FramePool.center
       FramePool.closeups FramePool.hands FramePool.feet FramePool.mandalas
       FramePool.virtuals FramePool.acrobatics].
  repeat split;
    try (destruct (Frame.type f) as [[]|]; try destruct (pose_is_mandala f));
    try (destruct (Frame.role f) as [[]|]);
    try (destruct (Frame.isVirtual f));
    try (destruct (Frame.direction f) as [[]|]);
    cbn [andb push_direction FramePool.left FramePool.right FramePool.center];
    rewrite ?app_nil_r; reflexivity.
Qed.

Lemma fold_categorize_special frames : forall pool,
  let pool' := fold_left categorize frames pool in
  FramePool.closeups pool'
  = FramePool.closeups pool ++ filter (has_type T_closeup) frames
  /\ FramePool.hands pool' = FramePool.hands pool ++ filter (has_type T_hands) frames
  /\ FramePool.feet pool' = FramePool.feet pool ++ filter (has_type T_feet) frames
  /\ FramePool.mandalas pool'
     = FramePool.mandalas pool
       ++ filter (fun f => has_type T_hands f && pose_is_mandala f) frames
  /\ FramePool.acrobatics pool'
     = FramePool.acrobatics pool ++ filter is_acrobatic frames
  /\ FramePool.virtuals pool'
     = FramePool.virtuals pool ++ filter Frame.isVirtual frames
  /\ FramePool.left (FramePool.byDirection pool')
     = FramePool.left (FramePool.byDirection pool) ++ filter (goes_to D_left) frames
  /\ FramePool.right (FramePool.byDirection pool')
     = FramePool.right (FramePool.byDirection pool) ++ filter (goes_to D_right) frames
  /\ FramePool.center (FramePool.byDirection pool')
     = FramePool.center (FramePool.byDirection pool) ++ filter (goes_to D_center) frames.
Proof.
  induction frames as [|f frames IH]; intro pool; cbv zeta.
  - simpl. rewrite !app_nil_r. repeat split.
  - simpl fold_left.
    destruct (IH (categorize pool f)) as (H1 & H2 & H3 & H4 & H5 & H6 & H7 & H8 & H9).
    destruct (categorize_special pool f)
      as (C1 & C2 & C3 & C4 & C5 & C6 & C7 & C8 & C9).
    rewrite H1, H2, H3, H4, H5, H6, H7, H8, H9, C1, C2, C3, C4, C5, C6, C7, C8, C9.
    repeat split; try apply snoc_if_filter.
    exact (snoc_if_filter (fun f => has_type T_hands f && pose_is_mandala f) _ f frames).
Qed.

Lemma direction_partition frames :
  (length (filter (goes_to D_left) frames) + length (filter (goes_to D_right) frames)
   + length (filter (goes_to D_center) frames))%nat
  = length frames.
Proof.
  induction frames as [|f frames IH]; [reflexivity|].
  cbn [filter].
  remember (filter (goes_to D_left) frames) as l.
  remember (filter (goes_to D_right) frames) as r.
  remember (filter (goes_to D_center) frames) as c.
  unfold goes_to.
  destruct (Frame.direction f) as [[| |]|]; cbn [length]; lia.
Qed.

(** X12.  [loadFramePool] fills the special buckets in input order:
    closeups, hands and feet hold the frames of that type, mandalas the hands
    frames whose pose contains "mandala" (so every mandala is also among the
    hands), acrobatics the frames of role alt, virtuals the frames flagged
    virtual.  Each frame goes to exactly one direction (center without a
    tag); the center bucket, if that leaves it empty, is the mid-energy
    bucket instead. *)
Theorem loadFramePool_special_buckets
        (frames : list GeneratedFrame) (e : KineticEngine.t) :
  let pool := framePool (loadFramePool frames e) in
  FramePool.closeups pool = filter (has_type T_closeup) frames
  /\ FramePool.hands pool = filter (has_type T_hands) frames
  /\ FramePool.feet pool = filter (has_type T_feet) frames
  /\ FramePool.mandalas pool = filter pose_is_mandala (FramePool.hands pool)
  /\ incl (FramePool.mandalas pool) (FramePool.hands pool)
  /\ FramePool.acrobatics pool = filter is_acrobatic frames
  /\ FramePool.virtuals pool = filter Frame.isVirtual frames
  /\ FramePool.left (FramePool.byDirection pool) = filter (goes_to D_left) frames
  /\ FramePool.right (FramePool.byDirection pool) = filter (goes_to D_right) frames
  /\ FramePool.center (FramePool.byDirection pool)
     = (if is_empty (filter (goes_to D_center) frames)
        then FramePool.mid (FramePool.byEnergy pool)
        else filter (goes_to D_center) frames)
  /\ (length (filter (goes_to D_left) frames)
      + length (filter (goes_to D_right) frames)
      + length (filter (goes_to D_center) frames))%nat
     = length frames.
Proof.
  cbv zeta. unfold loadFramePool, build_pool. cbn [framePool].
  destruct (fold_categorize_special frames FramePool.empty)
    as (H1 & H2 & H3 & H4 & H5 & H6 & H7 & H8 & H9).
  simpl in H1, H2, H3, H4, H5, H6, H7, H8, H9.
  unfold ensure_fallbacks.
  cbn [FramePool.byEnergy FramePool.byDirection FramePool.low FramePool.mid
       FramePool.high FramePool.left FramePool.right FramePool.center
       FramePool.closeups FramePool.hands FramePool.feet FramePool.mandalas
       FramePool.virtuals FramePool.acrobatics].
  rewrite H1, H2, H3, H4, H5, H6, H7, H8, H9.
  assert (Hm : filter (fun f => has_type T_hands f && pose_is_mandala f) frames
               = filter pose_is_mandala (filter (has_type T_hands) frames)).
  { clear. induction frames as [|f frames IH]; [reflexivity|].
    simpl. destruct (has_type T_hands f); simpl; rewrite IH; reflexivity. }
  repeat split; try reflexivity.
  - exact Hm.
  - rewrite Hm. intros x Hx. apply filter_In in Hx. tauto.
  - apply direction_partition.
Qed.

(** ** Quiet audio *)

Lemma ge_false (a b : Q) : JS.ge a b = false <-> a < b.
Proof.
  unfold JS.ge. split; intro H.
  - apply Qnot_le_lt. intro Hle. apply Qle_bool_iff in Hle. congruence.
  - destruct (Qle_bool b a) eqn:E; [|reflexivity].
    apply Qle_bool_iff in E. lra.
Qed.

(** X13.  When the energy handed to [attemptTransition] is below 0.2, no
    node but idle is eligible and every other node is below its exit
    threshold: from any node other than idle the attempt is a transition to
    idle, so the engine ends in idle whenever the low or the mid bucket has a
    frame.  At idle, an energy within [[0, 0.2)] changes nothing. *)
Theorem quiet_audio_leads_back_to_idle
        (energy bass mid high : Q) (now : Z) (rnd : Q) (e : KineticEngine.t) :
  let e' := attemptTransition energy bass mid high now rnd e in
  (currentNode (getState e) <> idle -> energy < 0.2 ->
   e' = transitionTo idle now rnd e
   /\ (FramePool.low (FramePool.byEnergy (framePool e)) <> []
       \/ FramePool.mid (FramePool.byEnergy (framePool e)) <> [] ->
       currentNode (getState e') = idle
       /\ lastTransitionTime (getState e') = now))
  /\ (currentNode (getState e) = idle -> 0 <= energy < 0.2 -> e' = e).
Proof.
  cbv zeta. unfold getState. split.
  - intros Hnode Hq.
    assert (Hgo : attemptTransition energy bass mid high now rnd e
                  = transitionTo idle now rnd e).
    { unfold attemptTransition, validTransitions.
      destruct (currentNode (state e)); try congruence;
        cbn [KINETIC_GRAPH possibleTransitions energyRequirement exitThreshold filter];
        repeat match goal with
               | |- context [JS.ge ?a ?b] =>
                   first [ replace (JS.ge a b) with false
                             by (symmetry; apply ge_false; lra)
                         | replace (JS.ge a b) with true
                             by (symmetry; apply ge_true; lra) ]
               | |- context [JS.lt ?a ?b] =>
                   first [ replace (JS.lt a b) with true
                             by (symmetry; apply lt_true; lra)
                         | replace (JS.lt a b) with false
                             by (symmetry; apply lt_false; lra) ]
               end;
        destruct (JS.ge energy 0) eqn:E0; try reflexivity;
        cbn [selectTarget];
        destruct (sequenceMode (state e)); cbn [selectTarget];
        try destruct (Z.rem (barCounter (state e)) 2 =? 0)%Z;
        reflexivity. }
    split; [exact Hgo|].
    rewrite Hgo. intro Hpool.
    unfold transitionTo.
    cbn [KINETIC_GRAPH frameSelector].
    destruct (FramePool.low (FramePool.byEnergy (framePool e))) as [|f l] eqn:El.
    + destruct (FramePool.mid (FramePool.byEnergy (framePool e))) as [|g m] eqn:Em.
      * destruct Hpool; congruence.
      * split; reflexivity.
    + split; reflexivity.
  - intros Hnode [H0 Hq].
    unfold attemptTransition, validTransitions. rewrite Hnode.
    cbn [KINETIC_GRAPH possibleTransitions energyRequirement exitThreshold filter].
    repeat match goal with
               | |- context [JS.ge ?a ?b] =>
                   first [ replace (JS.ge a b) with false
                             by (symmetry; apply ge_false; lra)
                         | replace (JS.ge a b) with true
                             by (symmetry; apply ge_true; lra) ]
               | |- context [JS.lt ?a ?b] =>
                   first [ replace (JS.lt a b) with true
                             by (symmetry; apply lt_true; lra)
                         | replace (JS.lt a b) with false
                             by (symmetry; apply lt_false; lra) ]
               end.
    reflexivity.
Qed.

Lemma quiet_audio_leads_back_to_idle_witness :
  currentNode (getState (forceState groove_center 0 0.5
                                    (loadFramePool [low_frame; mid_left_frame] create)))
  = groove_center
  /\ currentNode
       (getState
          (attemptTransition 0.1 0 0 0.5 1000 0.5
             (forceState groove_center 0 0.5
                         (loadFramePool [low_frame; mid_left_frame] create))))
     = idle.
Proof.
  split; [reflexivity|].
  apply (quiet_audio_leads_back_to_idle 0.1 0 0 0.5 1000 0.5
           (forceState groove_center 0 0.5
                       (loadFramePool [low_frame; mid_left_frame] create))).
  - vm_compute. discriminate.
  - vm_compute. reflexivity.
  - left. vm_compute. discriminate.
Defined.

(** ** Virtual zoom variants *)

Lemma prefix_app (sub s t : string) :
  String.prefix sub s = true -> String.prefix sub (s ++ t) = true.
Proof.
  revert s. induction sub as [|a sub IH]; intros s H.
  - destruct (s ++ t)%string; reflexivity.
  - destruct s as [|b s]; simpl in *; [discriminate|].
    destruct (ascii_dec a b); [apply IH; exact H | discriminate].
Qed.

Lemma includes_app (sub s t : string) :
  JS.includes sub s = true -> JS.includes sub (s ++ t) = true.
Proof.
  induction s as [|b s IH]; intro H.
  - destruct sub as [|a sub]; [destruct t; reflexivity | discriminate H].
  - cbn [JS.includes] in H.
    change (String b s ++ t)%string with (String b (s ++ t)%string).
    cbn [JS.includes].
    destruct (String.prefix sub (String b s)) eqn:E.
    + change (String b (s ++ t)%string) with (String b s ++ t)%string.
      rewrite (prefix_app _ _ t E). reflexivity.
    + rewrite (IH H). destruct (String.prefix sub (String b (s ++ t))); reflexivity.
Qed.

Section ZoomVariants.

Variable createDollyZoom : string -> Q -> string.

Lemma zoomVariant_tags frame zoom :
  let v := zoomVariant createDollyZoom frame zoom in
  Frame.isVirtual v = true
  /\ Frame.virtualZoom v = Some zoom
  /\ Frame.url v = createDollyZoom (Frame.url frame) zoom
  /\ Frame.energy v = Frame.energy frame
  /\ Frame.direction v = Frame.direction frame
  /\ Frame.type v = Frame.type frame
  /\ Frame.role v = Frame.role frame
  /\ (pose_is_mandala frame = true -> pose_is_mandala v = true).
Proof.
  cbv zeta. unfold zoomVariant. cbn [Frame.isVirtual Frame.virtualZoom Frame.url
    Frame.energy Frame.direction Frame.type Frame.role].
  repeat split.
  unfold pose_is_mandala. cbn [Frame.pose].
  destruct (Frame.pose frame) as [p|]; [|discriminate].
  apply includes_app.
Qed.

(** X14.  [generateVirtualZoomVariants] returns one variant per zoom level,
    in order: each is flagged virtual, records its zoom level, has the url
    [createDollyZoom] gave for that level and keeps the energy, direction,
    type and role of the original, and a mandala pose stays a mandala pose.
    Loaded together with the original, the variants all land in the virtuals
    bucket.  With the default levels the poses end in [_vzoom_125],
    [_vzoom_150] and [_vzoom_175]. *)
Theorem zoom_variants_are_virtual_and_keep_tags
        (frame : GeneratedFrame) (zoomLevels : list Q) (e : KineticEngine.t) :
  let variants := generateVirtualZoomVariants createDollyZoom frame zoomLevels in
  length variants = length zoomLevels
  /\ map Frame.virtualZoom variants = map Some zoomLevels
  /\ map Frame.url variants = map (createDollyZoom (Frame.url frame)) zoomLevels
  /\ Forall (fun v =>
               Frame.isVirtual v = true
               /\ Frame.energy v = Frame.energy frame
               /\ Frame.direction v = Frame.direction frame
               /\ Frame.type v = Frame.type frame
               /\ Frame.role v = Frame.role frame
               /\ (pose_is_mandala frame = true -> pose_is_mandala v = true))
            variants
  /\ FramePool.virtuals (framePool (loadFramePool (frame :: variants) e))
     = (if Frame.isVirtual frame then [frame] else []) ++ variants
  /\ (forall p, Frame.pose frame = Some p ->
        map Frame.pose (generateVirtualZoomVariants createDollyZoom frame defaultZoomLevels)
        = [Some (p ++ "_vzoom_125")%string; Some (p ++ "_vzoom_150")%string;
           Some (p ++ "_vzoom_175")%string]).
Proof.
  cbv zeta. unfold generateVirtualZoomVariants.
  split; [apply length_map|].
  split; [rewrite map_map; reflexivity|].
  split; [rewrite map_map; reflexivity|].
  split.
  { apply Forall_forall. intros v Hv. apply in_map_iff in Hv.
    destruct Hv as (zoom & <- & _).
    pose proof (zoomVariant_tags frame zoom) as T. cbv zeta in T. tauto. }
  split.
  { unfold loadFramePool, build_pool. cbn [framePool].
    destruct (fold_categorize_special (frame :: map (zoomVariant createDollyZoom frame)
                                                    zoomLevels) FramePool.empty)
      as (_ & _ & _ & _ & _ & H6 & _).
    unfold ensure_fallbacks. cbn [FramePool.virtuals].
    rewrite H6. cbn [FramePool.empty FramePool.virtuals app filter].
    assert (Hall : filter Frame.isVirtual (map (zoomVariant createDollyZoom frame) zoomLevels)
                   = map (zoomVariant createDollyZoom frame) zoomLevels).
    { clear. induction zoomLevels as [|z zs IH]; [reflexivity|].
      cbn [map filter]. rewrite IH. reflexivity. }
    rewrite Hall. destruct (Frame.isVirtual frame); reflexivity. }
  intros p Hp. unfold defaultZoomLevels. cbn [map].
  unfold zoomVariant. cbn [Frame.pose]. rewrite Hp. reflexivity.
Qed.

End ZoomVariants.

(** ** The stored confidence *)

Section Confidence.

Variable Math_sqrt : Q -> Q.

Lemma calculateBPM_beatTimes d d' :
  BPMDetector.beatTimes d = BPMDetector.beatTimes d' ->
  BPMDetector.calculateBPM Math_sqrt d = BPMDetector.calculateBPM Math_sqrt d'.
Proof. intro H. unfold BPMDetector.calculateBPM. rewrite H. reflexivity. Qed.

Lemma detectBeat_quiet bass timestamp d :
  snd (BPMDetector.detectBeat bass timestamp d) = false ->
  BPMDetector.beatTimes (fst (BPMDetector.detectBeat bass timestamp d))
  = BPMDetector.beatTimes d.
Proof.
  unfold BPMDetector.detectBeat.
  destruct (JS.gt bass _ && _); [discriminate | reflexivity].
Qed.

Lemma Math_max_min_range (lo hi x : Q) :
  lo <= hi -> lo <= JS.Math_max lo (JS.Math_min hi x) <= hi.
Proof.
  intro H. unfold JS.Math_max, JS.Math_min.
  destruct (Qle_bool hi x) eqn:E1.
  - destruct (Qle_bool lo hi) eqn:E2; [lra|].
    apply Qle_bool_iff in H. congruence.
  - destruct (Qle_bool lo x) eqn:E2.
    + apply Qle_bool_iff in E2.
      assert (~ hi <= x) by (intro A; apply Qle_bool_iff in A; congruence). lra.
    + lra.
Qed.

Lemma calculateBPM_range d :
  60 <= fst (BPMDetector.calculateBPM Math_sqrt d) <= 200
  /\ 0 <= snd (BPMDetector.calculateBPM Math_sqrt d) <= 1.
Proof.
  unfold BPMDetector.calculateBPM.
  destruct (length (BPMDetector.beatTimes d) <? 4)%nat; [simpl; lra|].
  destruct (length (BPMDetector.intervals_of (BPMDetector.beatTimes d)) <? 3)%nat;
    [simpl; lra|].
  cbv zeta. cbn [fst snd].
  split; apply Math_max_min_range; lra.
Qed.

Lemma feedAudio_confidence now bass mid high e :
  let e' := feedAudio Math_sqrt now bass mid high e in
  (bpmConfidence e' = bpmConfidence e
   /\ BPMDetector.beatTimes (bpmDetector e') = BPMDetector.beatTimes (bpmDetector e))
  \/ bpmConfidence e' = snd (BPMDetector.calculateBPM Math_sqrt (bpmDetector e')).
Proof.
  cbv zeta. unfold feedAudio.
  cbn [autoBPM bpmDetector state framePool audioBuffer bpm transientDetector].
  destruct (autoBPM e) eqn:Ea.
  - pose proof (detectBeat_quiet bass now (bpmDetector e)) as Hq.
    destruct (BPMDetector.detectBeat bass now (bpmDetector e)) as [detector' fired].
    cbn [fst snd] in Hq.
    destruct fired.
    + right.
      destruct (BPMDetector.calculateBPM Math_sqrt detector') as [bpm' confidence] eqn:Ec.
      destruct (JS.gt confidence 0.5); unfold setBPM;
        destruct (TransientDetector.detect (mid + high) _); simpl;
        rewrite Ec; reflexivity.
    + left. destruct (TransientDetector.detect (mid + high) _); simpl.
      split; [reflexivity | exact (Hq eq_refl)].
  - left. destruct (TransientDetector.detect (mid + high) _); simpl.
    split; reflexivity.
Qed.

Lemma apply_call_confidence_range e c :
  0 <= bpmConfidence e <= 1 -> 0 <= bpmConfidence (apply_call Math_sqrt e c) <= 1.
Proof.
  intro IH. destruct c; cbn [apply_call]; try exact IH.
  - destruct (feedAudio_confidence now bass mid high e) as [[-> _] | ->];
      [exact IH | apply calculateBPM_range].
  - destruct (update_audio_side now deltaTime rnd e)
      as (_ & _ & _ & _ & _ & _ & _ & -> & _).
    exact IH.
  - unfold forceState.
    destruct (transitionTo_audio_side nodeId now rnd e)
      as (_ & _ & _ & _ & _ & _ & _ & -> & _).
    exact IH.
  - unfold triggerGlitch. destruct (0 <? length _)%nat; exact IH.
  - simpl. lra.
Qed.

Lemma apply_call_confidence_estimate e c :
  enables_autoBPM c = false ->
  bpmConfidence e = snd (BPMDetector.calculateBPM Math_sqrt (bpmDetector e)) ->
  bpmConfidence (apply_call Math_sqrt e c)
  = snd (BPMDetector.calculateBPM Math_sqrt (bpmDetector (apply_call Math_sqrt e c))).
Proof.
  intros Hc IH. destruct c; cbn [apply_call]; try exact IH.
  - destruct (feedAudio_confidence now bass mid high e) as [[-> Hb] | ->];
      [|reflexivity].
    rewrite (calculateBPM_beatTimes _ _ Hb). exact IH.
  - destruct (update_audio_side now deltaTime rnd e)
      as (_ & _ & _ & _ & -> & _ & _ & -> & _).
    exact IH.
  - simpl in Hc. subst enabled. exact IH.
  - unfold forceState.
    destruct (transitionTo_audio_side nodeId now rnd e)
      as (_ & _ & _ & _ & -> & _ & _ & -> & _).
    exact IH.
  - unfold triggerGlitch. destruct (0 <? length _)%nat; exact IH.
  - reflexivity.
Qed.

(** X15.  Through any calls, the stored BPM confidence is within [[0, 1]]
    and the detected BPM of telemetry within [[60, 200]].  As long as
    [setAutoBPM(true)] is not called, the stored confidence is the one the
    beat detector computes from its current beat times, so telemetry's
    [confidence] belongs to its [detectedBPM].  [setAutoBPM(true)] resets the
    detector, whose estimate falls back to 120 BPM with confidence 0, but
    keeps the stored confidence and the adopted tempo. *)
Theorem stored_confidence_is_detector_estimate (calls : list Call) :
  let e := run Math_sqrt calls create in
  let readings := getTelemetry Math_sqrt e in
  0 <= getBPMConfidence e <= 1
  /\ Telemetry.confidence readings = getBPMConfidence e
  /\ 60 <= Telemetry.detectedBPM readings <= 200
  /\ (Forall (fun c => enables_autoBPM c = false) calls ->
      (Telemetry.detectedBPM readings, Telemetry.confidence readings)
      = BPMDetector.calculateBPM Math_sqrt (bpmDetector e))
  /\ BPMDetector.calculateBPM Math_sqrt (bpmDetector (setAutoBPM true e)) = (120, 0)
  /\ getBPMConfidence (setAutoBPM true e) = getBPMConfidence e
  /\ getBPM (setAutoBPM true e) = getBPM e.
Proof.
  cbv zeta. unfold getBPMConfidence, getBPM, getTelemetry.
  cbn [Telemetry.detectedBPM Telemetry.confidence].
  split.
  { apply (reachable_induction Math_sqrt (fun e => 0 <= bpmConfidence e <= 1)).
    - simpl. lra.
    - intros e c _. apply apply_call_confidence_range.
    - now exists calls. }
  split; [reflexivity|].
  split; [apply calculateBPM_range|].
  split; [|repeat split].
  intro Hall.
  assert (Hinv : bpmConfidence (run Math_sqrt calls create)
                 = snd (BPMDetector.calculateBPM Math_sqrt
                          (bpmDetector (run Math_sqrt calls create)))).
  { revert Hall.
    apply (run_induction Math_sqrt (fun c => enables_autoBPM c = false)
             (fun e => bpmConfidence e
                       = snd (BPMDetector.calculateBPM Math_sqrt (bpmDetector e)))).
    - reflexivity.
    - intros e c _. apply apply_call_confidence_estimate. }
  rewrite Hinv. symmetry. apply surjective_pairing.
Qed.

End Confidence.

(** ** The sequence mode *)

Lemma transitionTo_mode nodeId now rnd e :
  sequenceMode (state (transitionTo nodeId now rnd e)) = sequenceMode (state e).
Proof.
  unfold transitionTo.
  destruct (frameSelector (KINETIC_GRAPH nodeId) rnd (framePool e)); reflexivity.
Qed.

Lemma attemptTransition_mode energy bass mid high now rnd e :
  sequenceMode (state (attemptTransition energy bass mid high now rnd e))
  = sequenceMode (state e).
Proof.
  rewrite attemptTransition_chosen.
  destruct (chosenTarget energy e); [apply transitionTo_mode | reflexivity].
Qed.

Lemma updateCounters_mode now e :
  sequenceMode (state (updateCounters now e)) = sequenceMode (state e).
Proof.
  unfold updateCounters. destruct (_ && _); reflexivity.
Qed.

Lemma advanceClock_bars now deltaTime e :
  barCounter (state (advanceClock now deltaTime e)) = barCounter (state e)
  /\ phraseCounter (state (advanceClock now deltaTime e)) = phraseCounter (state e)
  /\ framePool (advanceClock now deltaTime e) = framePool e.
Proof.
  destruct (advanceClock_settled now deltaTime e) as (s' & -> & Hs).
  unfold settled_fields in Hs. cbn [with_state state framePool].
  repeat split; congruence.
Qed.

Lemma nonempty_length {A : Type} (l : list A) :
  (0 <? length l)%nat = true <-> l <> [].
Proof.
  destruct l; simpl; split; intro H; try congruence; try discriminate.
  reflexivity.
Qed.

(** X16.  A tick that finds a current sample sets the sequence mode from
    that sample, the bar and phrase counters as they were before the tick and
    the loaded pool, whether or not it then makes a transition: EMOTE exactly
    when high exceeds 0.7 and there are closeup frames; otherwise IMPACT when
    bass exceeds 0.8 and there are hands frames; otherwise FOOTWORK when the
    bar counter is at least 12 and there are feet frames; otherwise IMPACT on
    phrase 7, and GROOVE in all other cases. *)
Theorem tick_sets_sequence_mode
        (now : Z) (deltaTime rnd : Q) (e : KineticEngine.t) (current : AudioSample) :
  AudioLookaheadBuffer.getCurrent (audioBuffer e) = Some current ->
  let mode := sequenceMode (getState (update now deltaTime rnd e)) in
  let emote :=
    0.7 < Sample.high current /\ FramePool.closeups (framePool e) <> [] in
  let drop :=
    0.8 < Sample.bass current /\ FramePool.hands (framePool e) <> [] in
  let footwork :=
    (12 <= barCounter (getState e))%Z /\ FramePool.feet (framePool e) <> [] in
  let fill := phraseCounter (getState e) = 7%Z in
  (mode = EMOTE <-> emote)
  /\ (mode = IMPACT <-> ~ emote /\ (drop \/ (~ footwork /\ fill)))
  /\ (mode = FOOTWORK <-> ~ emote /\ ~ drop /\ footwork)
  /\ (mode = GROOVE <-> ~ emote /\ ~ drop /\ ~ footwork /\ ~ fill).
Proof.
  intro Hcur. cbv zeta. unfold getState.
  assert (Hmode :
    sequenceMode (state (update now deltaTime rnd e))
    = sequenceMode
        (state (updateSequenceMode (Sample.bass current) (Sample.mid current)
                                   (Sample.high current)
                                   (advanceClock now deltaTime e)))).
  { unfold update.
    replace (audioBuffer (advanceClock now deltaTime e)) with (audioBuffer e)
      by reflexivity.
    rewrite Hcur. cbv zeta. rewrite updateCounters_mode.
    destruct (_ && _); [|reflexivity].
    destruct (_ <=? _)%Z; [apply attemptTransition_mode | reflexivity]. }
  rewrite Hmode. clear Hmode.
  unfold updateSequenceMode. cbv zeta.
  cbn [with_state state set_sequenceMode sequenceMode].
  destruct (advanceClock_bars now deltaTime e) as (-> & -> & ->).
  assert (Hem : JS.gt (Sample.high current) 0.7
                && (0 <? length (FramePool.closeups (framePool e)))%nat = true
                <-> 0.7 < Sample.high current
                    /\ FramePool.closeups (framePool e) <> []).
  { rewrite andb_true_iff, gt_true, nonempty_length. tauto. }
  assert (Hdr : JS.gt (Sample.bass current) 0.8
                && (0 <? length (FramePool.hands (framePool e)))%nat = true
                <-> 0.8 < Sample.bass current
                    /\ FramePool.hands (framePool e) <> []).
  { rewrite andb_true_iff, gt_true, nonempty_length. tauto. }
  assert (Hfw : (12 <=? barCounter (state e))%Z
                && (0 <? length (FramePool.feet (framePool e)))%nat = true
                <-> (12 <= barCounter (state e))%Z
                    /\ FramePool.feet (framePool e) <> []).
  { rewrite andb_true_iff, Z.leb_le, nonempty_length. tauto. }
  pose proof (Z.eqb_eq (phraseCounter (state e)) 7) as Hp.
  destruct (JS.gt (Sample.high current) 0.7
            && (0 <? length (FramePool.closeups (framePool e)))%nat);
    destruct (JS.gt (Sample.bass current) 0.8
              && (0 <? length (FramePool.hands (framePool e)))%nat);
    destruct ((12 <=? barCounter (state e))%Z
              && (0 <? length (FramePool.feet (framePool e)))%nat);
    destruct (phraseCounter (state e) =? 7)%Z;
    intuition (try discriminate; try congruence).
Qed.

Lemma tick_sets_sequence_mode_witness :
  sequenceMode
    (getState
       (update 10 0.016 0.5
          (feedAudio sqrt_milli 0 0.9 0.5 0.8 (loadFramePool [closeup_frame] create))))
  = EMOTE.
Proof.
  apply (tick_sets_sequence_mode 10 0.016 0.5
           (feedAudio sqrt_milli 0 0.9 0.5 0.8 (loadFramePool [closeup_frame] create))
           (Sample.mk 0.9 0.5 0.8 (0.9 * 0.5 + 0.5 * 0.3 + 0.8 * 0.2) 0)).
  - vm_compute. reflexivity.
  - split; [vm_compute; reflexivity | vm_compute; discriminate].
Defined.

(** ** Telemetry of the audio *)


Section AudioTelemetry.

Variable Math_sqrt : Q -> Q.




End AudioTelemetry.


(** ** The node no tick enters *)

Lemma chosenTarget_never_spin energy e : chosenTarget energy e <> Some spin.
Proof.
  unfold chosenTarget, validTransitions. intro H.
  destruct (currentNode (state e));
    cbn [KINETIC_GRAPH possibleTransitions energyRequirement exitThreshold filter] in H;
    repeat match type of H with
           | context [JS.ge energy ?r] =>
               let E := fresh "E" in destruct (JS.ge energy r) eqn:E
           end;
    try (destruct (JS.lt energy _); discriminate H);
    destruct (sequenceMode (state e));
    cbn [selectTarget] in H;
    try destruct (Z.rem (barCounter (state e)) 2 =? 0)%Z;
    vm_compute in H; try discriminate H;
    repeat match goal with
           | E : JS.ge _ _ = true |- _ => apply ge_true in E
           | E : JS.ge _ _ = false |- _ => apply ge_false in E
           end;
    lra.
Qed.

Lemma update_never_spin now deltaTime rnd e :
  currentNode (state e) <> spin ->
  currentNode (state (update now deltaTime rnd e)) <> spin.
Proof.
  intro Hn. unfold update.
  destruct (AudioLookaheadBuffer.getCurrent (audioBuffer (advanceClock now deltaTime e)))
    as [current|].
  2:{ rewrite advanceClock_node. exact Hn. }
  rewrite updateCounters_node.
  set (e2 := updateSequenceMode _ _ _ _).
  assert (Hn2 : currentNode (state e2) = currentNode (state e)).
  { unfold e2, updateSequenceMode; simpl. apply advanceClock_node. }
  destruct (_ && _); [|congruence].
  destruct (_ <=? _)%Z; [|congruence].
  rewrite attemptTransition_chosen.
  destruct (chosenTarget (Sample.energy current) e2) as [target|] eqn:Et; [|congruence].
  destruct (transitionTo_node target now rnd e2) as [-> | ->]; [congruence|].
  intros ->. exact (chosenTarget_never_spin _ _ Et).
Qed.

Section NeverSpin.

Variable Math_sqrt : Q -> Q.

(** X18.  Ticks never enter [spin].  Its only predecessor is
    [groove_center], whose list offers [groove_left] first: whenever the
    energy admits [spin] (0.6) it admits [groove_left] (0.3), and no sequence
    mode prefers [spin], so [attemptTransition] never picks it.  Through any
    calls without [forceState] the current node is never [spin];
    [forceState] does enter it. *)
Theorem ticks_never_enter_spin (calls : list Call) :
  Forall (fun c => is_forceState c = false) calls ->
  currentNode (getState (run Math_sqrt calls create)) <> spin
  /\ (forall energy bass mid high now rnd e,
        currentNode (getState e) <> spin ->
        currentNode (getState (attemptTransition energy bass mid high now rnd e))
        <> spin)
  /\ (forall X, In spin (possibleTransitions (KINETIC_GRAPH X)) -> X = groove_center)
  /\ currentNode
       (getState (forceState spin 0 0.5 (loadFramePool [high_frame] create)))
     = spin.
Proof.
  intro Hall. unfold getState. split; [|split; [|split]].
  - revert Hall.
    apply (run_induction Math_sqrt (fun c => is_forceState c = false)
             (fun e => currentNode (state e) <> spin)).
    + discriminate.
    + intros e c _ Hc IH. destruct c; cbn [apply_call]; try exact IH.
      * destruct (feedAudio_keeps_machine Math_sqrt now bass mid high e) as (-> & _).
        exact IH.
      * apply update_never_spin. exact IH.
      * discriminate Hc.
      * unfold triggerGlitch. destruct (0 <? length _)%nat; exact IH.
  - intros energy bass mid high now rnd e Hn.
    rewrite attemptTransition_chosen.
    destruct (chosenTarget energy e) as [target|] eqn:Et; [|exact Hn].
    destruct (transitionTo_node target now rnd e) as [-> | ->]; [exact Hn|].
    intros ->. exact (chosenTarget_never_spin _ _ Et).
  - intros X HX. destruct X; simpl in HX;
      repeat (destruct HX as [HX | HX]; try discriminate HX); try reflexivity;
      destruct HX.
  - vm_compute. reflexivity.
Qed.

End NeverSpin.

Lemma ticks_never_enter_spin_witness :
  currentNode (getState groove_center_engine) <> spin.
Proof.
  destruct (ticks_never_enter_spin sqrt_milli
              [CallLoadFramePool [low_frame; mid_left_frame];
               CallFeedAudio 990 0.6 0.6 0.6;
               CallUpdate 1000 0.016 0.5;
               CallFeedAudio 1490 0.6 0.6 0.6;
               CallUpdate 1500 0.016 0.5;
               CallFeedAudio 1990 0.1 0.1 0.1]) as [H _].
  - repeat constructor.
  - exact H.
Defined.
